(** * Zabava partner ledger: [parsePayload] and [loadPartnerData]

    A shallow embedding of [zabava_server/lib/partner-data.js] (the current
    implementation) and of its older near-duplicate copy, followed by the
    properties of the visit ledger and of the aggregated metrics.

    Modelling conventions.
    - JavaScript values are the JSON universe plus [undefined]: everything
      the code handles comes out of the key-value store or of [JSON.parse].
    - Objects are finite maps from property names to values ([gmap]); the
      enumeration order of the keys, which no property below depends on, is
      not modelled.
    - Numbers are binary64 doubles: a finite number is the rational value
      of a double, and a sum, a difference or a quotient is rounded to the
      nearest double, ties to even, with overflow to an infinity.  The
      sign of zero is not modelled.
    - Strings are sequences of code units below 256.  [trim] and
      [toLowerCase], which stay within these code units, follow the engine
      on all of them; [toUpperCase], which does not, is a service of the
      runtime.
    - Objects are assumed not to shadow [toString]/[valueOf], so that
      [String(obj)] is ["[object Object]"].
    - The built-ins whose behaviour is fixed by the engine and not by this
      repository ([JSON.parse], [Date.parse], string-to-number and
      number-to-string conversion, upper-casing) are the fields of a
      [JsRuntime]; every
      general theorem holds for all runtimes, and the scenarios are
      evaluated with the reference runtime [node].
    - A rejected store promise is [None]; each [try]/[catch] of the source
      is the [match] that handles it. *)

From Stdlib Require Import Ascii String QArith Qabs Qround Lia Lqa DecimalString Sorted.
From stdpp Require Import base strings gmap list.

Set Warnings "-register-all".
Local Open Scope Z_scope.

(** ** Numbers *)

Inductive number : Type :=
| NaN
| PInf
| NInf
| Fin (q : Q).

Definition num_of_Z (z : Z) : number := Fin (inject_Z z).
Definition zero : number := num_of_Z 0.

Definition q_is_zero (q : Q) : bool := Qnum q =? 0.

(** ToBoolean on a number: [NaN] and zero are falsy. *)
Definition num_truthy (n : number) : bool :=
  match n with
  | NaN => false
  | PInf | NInf => true
  | Fin q => negb (q_is_zero q)
  end.

(** [a || b] on numbers *)
Definition num_or (a b : number) : number := if num_truthy a then a else b.

(** Rounding to binary64.  The result of an arithmetic operation is the
    double nearest to the exact result, a tie going to the even
    significand, and an overflow to an infinity. *)

(** The integer nearest to [num / den], a tie going to the even one. *)
Definition round_half_even (num den : Z) : Z :=
  let k := num / den in
  match 2 * (num mod den) ?= den with
  | Lt => k
  | Gt => k + 1
  | Eq => if Z.even k then k else k + 1
  end.

(** The exponent [u] of the unit in the last place around the positive
    rational [n / d]: the doubles there are the multiples of [2 ^ u].  With
    [2 ^ e <= n / d < 2 ^ (e + 1)] it is [e - 52], and [-1074] in the
    subnormal range. *)
Definition ulp_exponent (n d : Z) : Z :=
  let e := Z.log2 n - Z.log2 d in
  let below := if 0 <=? e then n <? d * 2 ^ e else n * 2 ^ (- e) <? d in
  Z.max ((if below then e - 1 else e) - 52) (-1074).

(** The double nearest to the positive rational [n / d]; [None] is an
    overflow. *)
Definition round_pos (n d : Z) : option Q :=
  let u := ulp_exponent n d in
  if 0 <=? u then
    let v := round_half_even n (d * 2 ^ u) * 2 ^ u in
    if 2 ^ 1024 <=? v then None else Some (inject_Z v)
  else Some (Qred (round_half_even (n * 2 ^ (- u)) d # Z.to_pos (2 ^ (- u)))).

Definition round_double (q : Q) : number :=
  match Qnum q ?= 0 with
  | Eq => Fin 0
  | Gt => match round_pos (Qnum q) (Z.pos (Qden q)) with
          | Some x => Fin x
          | None => PInf
          end
  | Lt => match round_pos (- Qnum q) (Z.pos (Qden q)) with
          | Some x => Fin (Qred (- x))
          | None => NInf
          end
  end.

(** [a + b] *)
Definition num_add (a b : number) : number :=
  match a, b with
  | NaN, _ | _, NaN => NaN
  | PInf, NInf | NInf, PInf => NaN
  | PInf, _ | _, PInf => PInf
  | NInf, _ | _, NInf => NInf
  | Fin x, Fin y => round_double (x + y)
  end.

(** [a - b] *)
Definition num_sub (a b : number) : number :=
  match a, b with
  | NaN, _ | _, NaN => NaN
  | PInf, PInf | NInf, NInf => NaN
  | PInf, _ | _, NInf => PInf
  | NInf, _ | _, PInf => NInf
  | Fin x, Fin y => round_double (x - y)
  end.

(** [a / n] for an integer [n], an array length in the source (which
    divides only behind the guard [count ? ... : 0]). *)
Definition num_div_count (a : number) (n : Z) : number :=
  match a with
  | NaN => NaN
  | PInf => if n <? 0 then NInf else PInf
  | NInf => if n <? 0 then PInf else NInf
  | Fin q =>
      if n =? 0 then
        match Qnum q ?= 0 with
        | Eq => NaN
        | Gt => PInf
        | Lt => NInf
        end
      else round_double (q / inject_Z n)
  end.

(** [Math.round]: the nearest integer, ties towards +infinity; it is exact
    on a double. *)
Definition Math_round (a : number) : number :=
  match a with
  | Fin q => num_of_Z (Qfloor (q + (1 # 2)))
  | other => other
  end.

(** [x > 0], as the sort reads a comparator result. *)
Definition num_pos (n : number) : bool :=
  match n with
  | PInf => true
  | Fin q => 0 <? Qnum q
  | _ => false
  end.

(** ToIntegerOrInfinity on a finite value: truncation towards zero. *)
Definition q_trunc (q : Q) : Z :=
  if 0 <=? Qnum q then Qfloor q else Qceiling q.

(** TimeClip: the time value of [new Date(n)]; [None] is an invalid date. *)
Definition TimeClip (n : number) : option Z :=
  match n with
  | Fin q =>
      if Qle_bool (Qabs q) (inject_Z 8640000000000000) then Some (q_trunc q)
      else None
  | _ => None
  end.

(** ** Values *)

Inductive JsVal : Type :=
| JUndef
| JNull
| JBool (b : bool)
| JNum (n : number)
| JStr (s : string)
| JArr (l : list JsVal)
| JObj (o : gmap string JsVal).

Abbreviation obj := (gmap string JsVal).

(** ToBoolean *)
Definition truthy (v : JsVal) : bool :=
  match v with
  | JUndef | JNull => false
  | JBool b => b
  | JNum n => num_truthy n
  | JStr s => negb (String.eqb s "")
  | JArr _ | JObj _ => true
  end.

(** [a || b] *)
Definition js_or (a b : JsVal) : JsVal := if truthy a then a else b.

(** [a ?? b] *)
Definition js_nullish (a b : JsVal) : JsVal :=
  match a with
  | JUndef | JNull => b
  | _ => a
  end.

Infix "<||>" := js_or (at level 50, left associativity).
Infix "<??>" := js_nullish (at level 50, left associativity).

(** [typeof v === "string"] *)
Definition is_string (v : JsVal) : bool :=
  match v with
  | JStr _ => true
  | _ => false
  end.

(** [v !== undefined && v !== null] *)
Definition is_present (v : JsVal) : bool :=
  match v with
  | JUndef | JNull => false
  | _ => true
  end.

(** ** Objects *)

(** [o.k] on a store record or a submission. *)
Definition get (o : obj) (k : string) : JsVal := default JUndef (o !! k).

(** Property writes in source order: the explicit fields of an object
    literal that follow a spread. *)
Definition objAssign (o : obj) (fields : list (string * JsVal)) : obj :=
  foldl (fun acc kv => <[kv.1 := kv.2]> acc) o fields.

Definition index_key (i : nat) : string :=
  NilEmpty.string_of_uint (Nat.to_uint i).

Fixpoint indexed {A : Type} (f : A -> JsVal) (i : nat) (l : list A)
  : list (string * JsVal) :=
  match l with
  | [] => []
  | x :: l' => (index_key i, f x) :: indexed f (S i) l'
  end.

Definition chars (s : string) : list ascii := list_ascii_of_string s.

(** The own enumerable properties that a spread [...v] copies. *)
Definition ownProps (v : JsVal) : obj :=
  match v with
  | JObj o => o
  | JArr l => list_to_map (indexed (fun x => x) 0 l)
  | JStr s => list_to_map (indexed (fun c => JStr (String c EmptyString)) 0 (chars s))
  | _ => ∅
  end.

(** [{ ...a, ...b }]: the properties of [b] override those of [a]. *)
Definition spread2 (a b : JsVal) : obj := ownProps b ∪ ownProps a.

(** [v.k] for [v] neither [null] nor [undefined]; [length] is the only
    non-enumerable property the model knows. *)
Definition getProp (v : JsVal) (k : string) : JsVal :=
  match ownProps v !! k with
  | Some x => x
  | None =>
      if String.eqb k "length" then
        match v with
        | JArr l => JNum (num_of_Z (Z.of_nat (List.length l)))
        | JStr s => JNum (num_of_Z (Z.of_nat (String.length s)))
        | _ => JUndef
        end
      else JUndef
  end.

(** [v?.k] *)
Definition getOpt (v : JsVal) (k : string) : JsVal :=
  match v with
  | JUndef | JNull => JUndef
  | _ => getProp v k
  end.

(** [Object.keys(o).length === 0] *)
Definition obj_is_empty (o : obj) : bool := bool_decide (o = ∅).

(** ** Strings *)

(** The white space and line terminators that [trim] removes, among the
    code units below 256: TAB, LF, VT, FF, CR, SP and NBSP. *)
Definition is_space (c : ascii) : bool :=
  let n := nat_of_ascii c in
  (((9 <=? n) && (n <=? 13)) || (n =? 32) || (n =? 160))%nat.

(** The lower-case mapping of the code units below 256: the letters A-Z and
    the Latin-1 capitals U+00C0-U+00DE other than the multiplication sign
    move up by 32; every other code unit is its own lower case. *)
Definition lower_char (c : ascii) : ascii :=
  let n := nat_of_ascii c in
  if (((65 <=? n) && (n <=? 90))
      || ((192 <=? n) && (n <=? 222) && negb (n =? 215)))%nat
  then ascii_of_nat (n + 32) else c.

Fixpoint drop_space (l : list ascii) : list ascii :=
  match l with
  | [] => []
  | c :: l' => if is_space c then drop_space l' else l
  end.

Definition trim_chars (l : list ascii) : list ascii :=
  rev (drop_space (rev (drop_space l))).

(** [s.trim()] *)
Definition trim (s : string) : string :=
  string_of_list_ascii (trim_chars (chars s)).

(** [s.toLowerCase()] *)
Definition toLowerCase (s : string) : string :=
  string_of_list_ascii (map lower_char (chars s)).

(** [s.startsWith(p)] *)
Definition startsWith (p s : string) : bool := String.prefix p s.

Definition str_mem (s : string) (l : list string) : bool :=
  existsb (String.eqb s) l.

(** Insertion into a [Set] of strings, which iterates in insertion order. *)
Definition set_add (s : string) (l : list string) : list string :=
  if str_mem s l then l else l ++ [s].

Definition str_nonempty (s : string) : bool := negb (String.eqb s "").

(** ** The engine's built-ins *)

Class JsRuntime : Type := {
  (** [JSON.parse]; [None] is a thrown [SyntaxError]. *)
  JSON_parse : string -> option JsVal;
  (** [Date.parse]; [None] is [NaN]. *)
  Date_parse : string -> option Z;
  (** StringToNumber, the string case of [Number(v)]. *)
  StringToNumber : string -> number;
  (** Number::toString, the number case of [String(v)]. *)
  NumberToString : number -> string;
  (** [String.prototype.toUpperCase].  It is a service of the runtime and
      not a table of this file, because upper-casing does not stay within
      the code units below 256 (U+00FF becomes U+0178, U+00B5 becomes
      U+039C) and may lengthen a string (U+00DF becomes SS).  What the
      engine guarantees, and all that is used of it, is that white space
      has no case: only the empty string becomes empty, and trimming
      commutes with upper-casing. *)
  toUpperCase : string -> string;
  toUpperCase_empty : forall s, toUpperCase s = "" <-> s = "";
  toUpperCase_trim : forall s, trim (toUpperCase s) = toUpperCase (trim s)
}.

Section Program.
Context {rt : JsRuntime}.

Definition join_comma (parts : list string) : string :=
  match parts with
  | [] => ""
  | p :: ps => foldl (fun acc q => acc +:+ "," +:+ q) p ps
  end.

(** [String(v)] *)
Fixpoint ToString (v : JsVal) : string :=
  match v with
  | JUndef => "undefined"
  | JNull => "null"
  | JBool true => "true"
  | JBool false => "false"
  | JNum n => NumberToString n
  | JStr s => s
  | JArr l =>
      join_comma
        (map (fun x => match x with
                       | JUndef | JNull => ""
                       | _ => ToString x
                       end) l)
  | JObj _ => "[object Object]"
  end.

(** [Number(v)] *)
Definition ToNumber (v : JsVal) : number :=
  match v with
  | JUndef => NaN
  | JNull => zero
  | JBool true => num_of_Z 1
  | JBool false => zero
  | JNum n => n
  | JStr s => StringToNumber s
  | JArr _ | JObj _ => StringToNumber (ToString v)
  end.

(** [Number(v) || 0] *)
Definition number_or_zero (v : JsVal) : number := num_or (ToNumber v) zero.

(** [new Date(v).getTime()] *)
Definition getTime (v : JsVal) : number :=
  let t := match v with
           | JStr s => Date_parse s
           | JArr _ | JObj _ => Date_parse (ToString v)
           | _ => TimeClip (ToNumber v)
           end in
  match t with
  | Some z => num_of_Z z
  | None => NaN
  end.

(** ** partner-data.js *)

Record Metrics : Type := {
  count : Z;
  used : Z;
  unused : Z;
  visited : Z;
  notVisited : Z;
  revenue : number;
  points : number;
  bonusRedemptions : Z;
  averageRevenue : number;
  averagePoints : number
}.

Definition EMPTY_METRICS : Metrics :=
  {| count := 0; used := 0; unused := 0; visited := 0; notVisited := 0;
     revenue := zero; points := zero; bonusRedemptions := 0;
     averageRevenue := zero; averagePoints := zero |}.

Definition normalizePartnerId (partnerId : JsVal) : string :=
  toLowerCase (trim (ToString (partnerId <||> JStr ""))).

Definition parsePayload (record : obj) : JsVal :=
  let raw := get record "payload" in
  if truthy raw then
    let parsed := match raw with
                  | JStr s => JSON_parse s
                  | _ => Some raw
                  end in
    match parsed with
    | None => JObj {[ "rawPayload" := raw ]}
    | Some JUndef | Some JNull =>
        (* [payload.data] throws a TypeError, caught by the outer handler *)
        JObj {[ "rawPayload" := raw ]}
    | Some payload =>
        match getProp payload "data" with
        | JStr d =>
            if truthy (JStr d) then
              match JSON_parse d with
              | Some nested => JObj (spread2 payload nested)
              | None => payload
              end
            else payload
        | _ => payload
        end
    end
  else JObj ∅.

(** The store interface: [kv.smembers] and [kv.hgetall]. The outer [None]
    is a rejected promise, the inner one of [hgetall] is [null]. *)
Record KV : Type := {
  smembers : string -> option (list JsVal);
  hgetall : string -> option (option obj)
}.

Record Result : Type := {
  partnerId : JsVal;
  submissions : list obj;
  metrics : Metrics;
  partnerLabel : JsVal
}.

Definition emptyResult (partnerId : JsVal) : Result :=
  {| partnerId := partnerId; submissions := []; metrics := EMPTY_METRICS;
     partnerLabel := JNull |}.

Definition addVisitKeyVariant (value : JsVal) (visitSetKeys : list string)
  : list string :=
  if truthy value then
    let trimmed := trim (ToString value) in
    if str_nonempty trimmed then set_add ("partner:visits:" +:+ trimmed) visitSetKeys
    else visitSetKeys
  else visitSetKeys.

Definition visitSetKeysOf (partnerId : JsVal) : list string :=
  let normalizedId := normalizePartnerId partnerId in
  let s0 := addVisitKeyVariant partnerId [] in
  let s1 := addVisitKeyVariant (JStr normalizedId) s0 in
  let s2 := if truthy partnerId then
              addVisitKeyVariant (JStr (toUpperCase (ToString partnerId)))
                (addVisitKeyVariant (JStr (toLowerCase (ToString partnerId))) s1)
            else s1 in
  if str_nonempty normalizedId then
    addVisitKeyVariant (JStr (toUpperCase normalizedId)) s2
  else s2.

Definition is_visit_member (member : JsVal) : option string :=
  match member with
  | JStr m => if str_nonempty m && startsWith "qr:" m then Some m else None
  | _ => None
  end.

Definition addMembers (kv : KV) (visitRecordKeys : list string)
    (visitSetKey : string) : list string :=
  match smembers kv visitSetKey with
  | Some members =>
      foldl (fun acc member =>
               match is_visit_member member with
               | Some m => set_add m acc
               | None => acc
               end) visitRecordKeys members
  | None => visitRecordKeys
  end.

Definition visitRecordKeysOf (kv : KV) (partnerId : JsVal) : list string :=
  foldl (addMembers kv) [] (visitSetKeysOf partnerId).

Definition truthyStatuses : list string :=
  ["true"; "used"; "redeemed"; "completed"; "yes"; "awarded"; "1"].

Definition visitedStatuses : list string :=
  ["true"; "visited"; "completed"; "redeemed"; "checkedin"; "checked-in";
   "checked_in"; "approved"; "yes"; "1"].

(** [[...].filter(v => v !== undefined && v !== null)
         .map(v => String(v).trim().toLowerCase())] *)
Definition statusStrings (candidates : list JsVal) : list string :=
  map (fun v => toLowerCase (trim (ToString v))) (filter (fun v => is_present v = true) candidates).

Definition loadRecordFromKey (kv : KV) (visitKey : string) : option obj :=
  match hgetall kv visitKey with
  | Some record => record
  | None => None
  end.

(** [/^qr:([^:]+):([^:]+):(.+)$/.exec(visitKey)]: the three groups. *)
Definition is_colon (c : ascii) : bool := (nat_of_ascii c =? 58)%nat.
Definition is_line_end (c : ascii) : bool :=
  ((nat_of_ascii c =? 10) || (nat_of_ascii c =? 13))%nat.

Fixpoint span_no_colon (l : list ascii) : list ascii * list ascii :=
  match l with
  | [] => ([], [])
  | c :: l' =>
      if is_colon c then ([], l)
      else let '(a, b) := span_no_colon l' in (c :: a, b)
  end.

Definition visitKeyMatch (visitKey : string) : option (string * string * string) :=
  match chars visitKey with
  | "q"%char :: "r"%char :: ":"%char :: rest =>
      match span_no_colon rest with
      | ((_ :: _) as g1, _ :: rest1) =>
          match span_no_colon rest1 with
          | ((_ :: _) as g2, _ :: ((_ :: _) as g3)) =>
              if forallb (fun c => negb (is_line_end c)) g3 then
                Some (string_of_list_ascii g1, string_of_list_ascii g2,
                      string_of_list_ascii g3)
              else None
          | _ => None
          end
      | _ => None
      end
  | _ => None
  end.

Definition is_filled (record : option obj) : bool :=
  match record with
  | Some r => negb (obj_is_empty r)
  | None => false
  end.

(** Lines 138-163: the record of a visit key, with the legacy record of
    the same email as a fallback or merged underneath. *)
Definition recordForKey (kv : KV) (visitKey visitEmailFromKey : string)
  : option obj :=
  let record := loadRecordFromKey kv visitKey in
  if negb (is_filled record) then
    if str_nonempty visitEmailFromKey then
      match hgetall kv ("qr:email:" +:+ visitEmailFromKey) with
      | Some legacy => legacy
      | None => record
      end
    else record
  else if str_nonempty visitEmailFromKey then
    match hgetall kv ("qr:email:" +:+ visitEmailFromKey) with
    | Some legacyRecord =>
        if is_filled legacyRecord then
          Some (spread2 (JObj (default ∅ legacyRecord)) (JObj (default ∅ record)))
        else record
    | None => record
    end
  else record.

(** [visitMatch?.[1] || ""], [visitMatch?.[2] || ""], [visitMatch?.[3] || null] *)
Definition visitEmailFromKey (visitKey : string) : string :=
  match visitKeyMatch visitKey with
  | Some (e, _, _) => e
  | None => ""
  end.

Definition visitPartnerFromKey (visitKey : string) : string :=
  match visitKeyMatch visitKey with
  | Some (_, p, _) => p
  | None => ""
  end.

Definition visitIdFromKey (visitKey : string) : JsVal :=
  match visitKeyMatch visitKey with
  | Some (_, _, i) => JStr i
  | None => JNull
  end.

(** Lines 180-189 *)
Definition estimatedPointsValue (record : obj) (payload : JsVal) : number :=
  number_or_zero
    (getProp payload "estimatedPoints" <??> getProp payload "points"
       <??> get record "estimatedPoints" <??> JNum zero).

Definition pointsAwardedOf (record : obj) (payload : JsVal) : number :=
  number_or_zero
    (get record "pointsAwarded" <??> getProp payload "pointsAwarded" <??> JNum zero).

Definition usedOf (record : obj) (payload : JsVal) : bool :=
  existsb (fun value => str_mem value truthyStatuses)
    (statusStrings [get record "used"; getProp payload "used";
                    get record "status"; getProp payload "status"]).

Definition visitedValues (record : obj) (payload : JsVal) : list string :=
  statusStrings [get record "visited"; getProp payload "visited";
                 get record "status"; getProp payload "status"].

Definition createdAtOf (record : obj) (payload : JsVal) : JsVal :=
  get record "createdAt" <||> getProp payload "createdAt"
    <||> get record "updatedAt" <||> getProp payload "updatedAt"
    <||> get record "visitedAt" <||> getProp payload "visitedAt" <||> JNull.

(** Lines 169-263: the submission built from the record of a visit key. *)
Definition visitSubmission (partnerId : JsVal) (visitKey : string)
    (record : obj) : obj :=
  let normalizedId := normalizePartnerId partnerId in
  let payload := parsePayload record in
  let totalPrice :=
    number_or_zero
      (getProp payload "totalPrice" <??> getProp payload "price"
         <??> get record "totalPrice" <??> get record "price" <??> JNum zero) in
  let estimated := estimatedPointsValue record payload in
  let pointsAwarded := pointsAwardedOf record payload in
  let used := usedOf record payload in
  let visited :=
    existsb (fun value => str_mem value visitedStatuses) (visitedValues record payload)
    || truthy (get record "visitedAt") || truthy (getProp payload "visitedAt") in
  let canonical :=
    JStr (normalizePartnerId (get record "partnerId"))
      <||> JStr (normalizePartnerId (JStr (visitPartnerFromKey visitKey)))
      <||> JStr normalizedId <||> JStr (normalizePartnerId partnerId) in
  let canonicalPartnerId :=
    if truthy canonical then canonical
    else get record "partnerId" <||> JStr (visitPartnerFromKey visitKey)
           <||> (if is_string partnerId then partnerId
                 else JStr (ToString (partnerId <||> JStr ""))) in
  let email :=
    get record "email" <||> getProp payload "email"
      <||> JStr (visitEmailFromKey visitKey)
      <||> (get record "normalizedEmail" <||> JStr "") in
  objAssign (ownProps payload)
    [ ("partnerId", canonicalPartnerId);
      ("visitId", get record "visitId" <||> getProp payload "visitId"
                    <||> visitIdFromKey visitKey);
      ("qrKey", JStr visitKey);
      ("email", email);
      ("used", JBool used);
      ("status", get record "status" <||> getProp payload "status" <||> JNull);
      ("createdAt", createdAtOf record payload);
      ("updatedAt", get record "updatedAt" <||> getProp payload "updatedAt" <||> JNull);
      ("scannedAt", get record "scannedAt" <||> getProp payload "scannedAt" <||> JNull);
      ("totalPrice", JNum totalPrice);
      ("estimatedPoints", JNum (num_or pointsAwarded estimated));
      ("pointsAwarded", JNum pointsAwarded);
      ("visited", JBool visited);
      ("visitedAt", get record "visitedAt" <||> getProp payload "visitedAt" <||> JNull);
      ("originalPayload", payload) ].

(** One iteration of the loop of lines 132-266; [None] is [continue]. *)
Definition visitFromKey (kv : KV) (partnerId : JsVal) (visitKey : string)
  : option obj :=
  match recordForKey kv visitKey (visitEmailFromKey visitKey) with
  | Some record =>
      if obj_is_empty record then None
      else Some (visitSubmission partnerId visitKey record)
  | None => None
  end.

Definition visitSubmissions (kv : KV) (partnerId : JsVal) : list obj :=
  omap (visitFromKey kv partnerId) (visitRecordKeysOf kv partnerId).

(** Lines 270-276: the keys of the email-set scheme. *)
Definition strict_eq_str (v : JsVal) (s : string) : bool :=
  match v with
  | JStr s' => String.eqb s' s
  | _ => false
  end.

Definition emailSetKeys (partnerId : JsVal) : list string :=
  let normalizedId := normalizePartnerId partnerId in
  let keys := if str_nonempty normalizedId
              then set_add ("partner:" +:+ normalizedId) [] else [] in
  if truthy partnerId && negb (strict_eq_str partnerId normalizedId)
  then set_add ("partner:" +:+ ToString partnerId) keys
  else keys.

(** Lines 278-294 *)
Definition memberEmails (kv : KV) (keys : list string) : list string :=
  let emailSets := map (fun key => default [] (smembers kv key)) keys in
  foldl (fun acc value =>
           match value with
           | JStr e => if str_nonempty e then set_add e acc else acc
           | _ => acc
           end) [] (List.concat emailSets).

(** Lines 313-316: the points of a legacy email record. *)
Definition emailEstimatedPoints (record : obj) (payload : JsVal) : number :=
  number_or_zero
    (getProp payload "estimatedPoints" <||> get record "estimatedPoints"
       <||> JNum zero).

Definition emailPointsAwarded (record : obj) (payload : JsVal) : number :=
  number_or_zero
    (get record "pointsAwarded" <||> getProp payload "pointsAwarded"
       <||> JNum zero).

(** Lines 310-371: the submission built from a legacy email record. *)
Definition emailSubmission (partnerId : JsVal) (record : obj) : obj :=
  let normalizedId := normalizePartnerId partnerId in
  let payload := parsePayload record in
  let totalPrice :=
    number_or_zero
      (getProp payload "totalPrice" <||> get record "totalPrice" <||> JNum zero) in
  let estimatedPoints := emailEstimatedPoints record payload in
  let pointsAwarded := emailPointsAwarded record payload in
  let used := usedOf record payload in
  let visited :=
    existsb (fun value => str_mem value visitedStatuses) (visitedValues record payload)
    || String.eqb (toLowerCase (ToString (get record "visited" <||> JStr ""))) "true"
    || truthy (get record "visitedAt") || truthy (getProp payload "visitedAt") in
  let canonicalPartnerId :=
    JStr normalizedId <||> JStr (trim (ToString (partnerId <||> JStr ""))) in
  objAssign (ownProps payload)
    [ ("partnerId", canonicalPartnerId);
      ("email", get record "email");
      ("used", JBool used);
      ("createdAt", createdAtOf record payload);
      ("scannedAt", get record "scannedAt" <||> getProp payload "scannedAt" <||> JNull);
      ("totalPrice", JNum totalPrice);
      ("estimatedPoints", JNum (num_or pointsAwarded estimatedPoints));
      ("pointsAwarded", JNum pointsAwarded);
      ("visited", JBool visited);
      ("visitedAt", get record "visitedAt" <||> getProp payload "visitedAt" <||> JNull);
      ("originalPayload", payload) ].

(** One iteration of the loop of lines 305-375. *)
Definition emailVisit (kv : KV) (partnerId : JsVal) (email : string)
  : option obj :=
  match hgetall kv ("qr:email:" +:+ email) with
  | Some (Some record) =>
      if truthy (get record "email") then Some (emailSubmission partnerId record)
      else None
  | _ => None
  end.

(** Lines 378-382: the comparator and [Array.prototype.sort].  The sort
    is stable and reads only the sign of the comparator, [NaN] counting
    as 0; it is modelled by a stable insertion sort.  Every stable sort
    gives the same array when the comparator is a consistent ordering;
    when it is not (a [NaN] between some pairs only) the language leaves
    the order to the engine, and the insertion order below is what Node's
    engine yields on the arrays of three elements of the scenarios; on
    longer arrays the engine may order such elements differently. *)
Definition createdTime (submission : obj) : number :=
  getTime (get submission "createdAt" <||> JNum zero).

Definition byCreatedAtDesc (a b : obj) : number :=
  num_sub (createdTime b) (createdTime a).

Fixpoint sort_insert {A : Type} (cmp : A -> A -> number) (x : A) (l : list A)
  : list A :=
  match l with
  | [] => [x]
  | y :: l' => if num_pos (cmp x y) then y :: sort_insert cmp x l' else x :: l
  end.

Definition Array_sort {A : Type} (cmp : A -> A -> number) (l : list A) : list A :=
  foldr (sort_insert cmp) [] l.

(** Lines 384-406: the running totals of the [forEach]. *)
Record Totals : Type := {
  t_revenue : number;
  t_points : number;
  t_used : Z;
  t_visitedCount : Z;
  t_bonusRedemptions : Z
}.

Definition submissionPoints (submission : obj) : number :=
  if truthy (get submission "pointsAwarded")
  then ToNumber (get submission "pointsAwarded" <||> JNum zero)
  else ToNumber (get submission "estimatedPoints" <||> JNum zero).

Definition isBonusRedemption (submission : obj) : bool :=
  let ticketType := get submission "ticket" <||> get submission "ticketType" <||> JStr "" in
  String.eqb (toLowerCase (ToString ticketType)) "bonusreward".

Definition tally (t : Totals) (submission : obj) : Totals :=
  {| t_revenue := num_add (t_revenue t)
                    (ToNumber (get submission "totalPrice" <||> JNum zero));
     t_points := num_add (t_points t) (submissionPoints submission);
     t_used := if truthy (get submission "used") then t_used t + 1 else t_used t;
     t_visitedCount := if truthy (get submission "visited")
                       then t_visitedCount t + 1 else t_visitedCount t;
     t_bonusRedemptions := if isBonusRedemption submission
                           then t_bonusRedemptions t + 1 else t_bonusRedemptions t |}.

Definition noTotals : Totals :=
  {| t_revenue := zero; t_points := zero; t_used := 0; t_visitedCount := 0;
     t_bonusRedemptions := 0 |}.

(** Lines 409-422 *)
Definition labelOf (submission : obj) : JsVal :=
  get submission "partnerName" <||> get submission "attractionName"
    <||> getOpt (get submission "originalPayload") "partnerName"
    <||> getOpt (get submission "originalPayload") "attractionName"
    <||> getOpt (get submission "originalPayload") "partnerLabel" <||> JNull.

Fixpoint findLabel (subs : list obj) : JsVal :=
  match subs with
  | [] => JNull
  | submission :: rest =>
      let partnerLabel := labelOf submission in
      if truthy partnerLabel then partnerLabel
      else match rest with
           | [] => partnerLabel
           | _ => findLabel rest
           end
  end.

(** Lines 424-435 *)
Definition metricsOf (n : Z) (t : Totals) : Metrics :=
  {| count := n;
     used := t_used t;
     unused := n - t_used t;
     visited := t_visitedCount t;
     notVisited := n - t_visitedCount t;
     revenue := t_revenue t;
     points := t_points t;
     bonusRedemptions := t_bonusRedemptions t;
     averageRevenue := if n =? 0 then zero
                       else Math_round (num_div_count (t_revenue t) n);
     averagePoints := if n =? 0 then zero
                      else Math_round (num_div_count (t_points t) n) |}.

(** Lines 378-442: sort, aggregate and label. *)
Definition summarize (partnerId : JsVal) (pushed : list obj) : Result :=
  let submissions := Array_sort byCreatedAtDesc pushed in
  let totals := foldl tally noTotals submissions in
  {| partnerId := partnerId;
     submissions := submissions;
     metrics := metricsOf (Z.of_nat (List.length submissions)) totals;
     partnerLabel := findLabel submissions |}.

Definition loadPartnerData (kv : KV) (partnerId : JsVal) : Result :=
  let normalizedId := normalizePartnerId partnerId in
  if negb (str_nonempty normalizedId) && negb (truthy partnerId) then
    emptyResult partnerId
  else
    match visitSubmissions kv partnerId with
    | [] =>
        match memberEmails kv (emailSetKeys partnerId) with
        | [] => emptyResult partnerId
        | emails => summarize partnerId (omap (emailVisit kv partnerId) emails)
        end
    | fromVisitSets => summarize partnerId fromVisitSets
    end.

End Program.

(** ** The older copy of [loadPartnerData]

    It shares [normalizePartnerId], [parsePayload], [EMPTY_METRICS], the
    email-set keys, the sort and the label scan with the current file, word
    for word. *)
Module Legacy.
Section Copy.
Context {rt : JsRuntime}.

(** Lines 97-117 of the copy: the payload is spread last. *)
Definition emailSubmission (partnerId : JsVal) (record : obj) : obj :=
  let normalizedId := normalizePartnerId partnerId in
  let payload := parsePayload record in
  let totalPrice :=
    number_or_zero
      (getProp payload "totalPrice" <||> get record "totalPrice" <||> JNum zero) in
  let estimatedPoints :=
    number_or_zero
      (getProp payload "estimatedPoints" <||> get record "estimatedPoints"
         <||> JNum zero) in
  let visited :=
    String.eqb (toLowerCase (ToString (get record "visited" <||> JStr ""))) "true" in
  let canonicalPartnerId :=
    JStr normalizedId <||> JStr (trim (ToString (partnerId <||> JStr ""))) in
  ownProps payload ∪
  objAssign ∅
    [ ("partnerId", canonicalPartnerId);
      ("email", get record "email");
      ("used", JBool (String.eqb
                        (toLowerCase (ToString (get record "used" <||> JStr "")))
                        "true"));
      ("createdAt", get record "createdAt" <||> JNull);
      ("scannedAt", get record "scannedAt" <||> JNull);
      ("totalPrice", JNum totalPrice);
      ("estimatedPoints", JNum estimatedPoints);
      ("visited", JBool visited);
      ("visitedAt", get record "visitedAt" <||> JNull);
      ("originalPayload", payload) ].

Definition emailVisit (kv : KV) (partnerId : JsVal) (email : string)
  : option obj :=
  match hgetall kv ("qr:email:" +:+ email) with
  | Some (Some record) =>
      if truthy (get record "email") then Some (emailSubmission partnerId record)
      else None
  | _ => None
  end.

(** Lines 135-147 of the copy *)
Definition isBonusRedemption (submission : obj) : bool :=
  match get submission "ticket" with
  | JStr t => String.eqb t "BonusReward"
  | _ => false
  end.

Definition tally (t : Totals) (submission : obj) : Totals :=
  {| t_revenue := num_add (t_revenue t)
                    (ToNumber (get submission "totalPrice" <||> JNum zero));
     t_points := num_add (t_points t)
                   (ToNumber (get submission "estimatedPoints" <||> JNum zero));
     t_used := if truthy (get submission "used") then t_used t + 1 else t_used t;
     t_visitedCount := if truthy (get submission "visited")
                       then t_visitedCount t + 1 else t_visitedCount t;
     t_bonusRedemptions := if isBonusRedemption submission
                           then t_bonusRedemptions t + 1
                           else t_bonusRedemptions t |}.

Definition summarize (partnerId : JsVal) (pushed : list obj) : Result :=
  let submissions := Array_sort byCreatedAtDesc pushed in
  let totals := foldl tally noTotals submissions in
  {| partnerId := partnerId;
     submissions := submissions;
     metrics := metricsOf (Z.of_nat (List.length submissions)) totals;
     partnerLabel := findLabel submissions |}.

Definition loadPartnerData (kv : KV) (partnerId : JsVal) : Result :=
  let normalizedId := normalizePartnerId partnerId in
  if negb (str_nonempty normalizedId) && negb (truthy partnerId) then
    emptyResult partnerId
  else
    match memberEmails kv (emailSetKeys partnerId) with
    | [] => emptyResult partnerId
    | emails => summarize partnerId (omap (emailVisit kv partnerId) emails)
    end.

End Copy.
End Legacy.

(** ** The reference runtime

    An executable stand-in for the engine, used to evaluate the scenarios:
    RFC 8259 JSON with 8-bit strings, numbers rounded to doubles, decimal
    and radix-prefixed numeric strings, and ISO-8601 UTC dates.  [\u]
    escapes above 255 and the engine's legacy date formats are outside it
    and are rejected. *)
Module Node.

Definition code (c : ascii) : Z := Z.of_nat (nat_of_ascii c).

Definition digit (c : ascii) : option Z :=
  if (48 <=? code c) && (code c <=? 57) then Some (code c - 48) else None.

Fixpoint span_digits (l : list ascii) : list Z * list ascii :=
  match l with
  | [] => ([], [])
  | c :: l' =>
      match digit c with
      | Some d => let '(ds, r) := span_digits l' in (d :: ds, r)
      | None => ([], l)
      end
  end.

Definition digits_value (ds : list Z) : Z := foldl (fun a d => 10 * a + d) 0 ds.

Definition pow10 (e : Z) : Q :=
  if 0 <=? e then inject_Z (10 ^ e) else (1 / inject_Z (10 ^ (- e)))%Q.

(** An optional exponent part [e±ddd]. *)
Definition exponent (l : list ascii) : option (Z * list ascii) :=
  match l with
  | c :: l1 =>
      if (code c =? 101) || (code c =? 69) then
        let '(neg, l2) :=
          match l1 with
          | s :: l2 => if code s =? 45 then (true, l2)
                       else if code s =? 43 then (false, l2) else (false, l1)
          | [] => (false, l1)
          end in
        match span_digits l2 with
        | ([], _) => None
        | (ds, r) => Some (if neg then - digits_value ds else digits_value ds, r)
        end
      else Some (0, l)
  | [] => Some (0, l)
  end.

(** An unsigned decimal literal; [strict] is the JSON grammar (an integer
    part is required, without leading zeros, and a dot needs digits). *)
Definition decimal (strict : bool) (l : list ascii) : option (Q * list ascii) :=
  let '(ip, l1) := span_digits l in
  let '(fp, l2, dotted) :=
    match l1 with
    | c :: l1' => if code c =? 46
                  then let '(fp, l2) := span_digits l1' in (fp, l2, true)
                  else ([], l1, false)
    | [] => ([], l1, false)
    end in
  let ok :=
    if strict then
      match ip with
      | [] => false
      | d :: rest => ((negb (d =? 0)) || bool_decide (rest = []))
                     && (negb dotted || negb (bool_decide (fp = [])))
      end
    else negb (bool_decide (ip = []) && bool_decide (fp = [])) in
  if ok then
    match exponent l2 with
    | Some (e, r) =>
        let m := (inject_Z (digits_value ip)
                  + inject_Z (digits_value fp)
                    / inject_Z (10 ^ Z.of_nat (List.length fp)))%Q in
        Some (Qred (m * pow10 e), r)
    | None => None
    end
  else None.

Definition hex (c : ascii) : option Z :=
  let n := code c in
  if (48 <=? n) && (n <=? 57) then Some (n - 48)
  else if (65 <=? n) && (n <=? 70) then Some (n - 55)
  else if (97 <=? n) && (n <=? 102) then Some (n - 87)
  else None.

Definition of_code (n : Z) : ascii := ascii_of_nat (Z.to_nat n).

(** The characters of a JSON string, after its opening quote. *)
Fixpoint string_body (l : list ascii) : option (list ascii * list ascii) :=
  match l with
  | [] => None
  | c :: l1 =>
      if code c =? 34 then Some ([], l1)
      else if code c <? 32 then None
      else if code c =? 92 then
        match l1 with
        | e :: l2 =>
            let simple (x : Z) :=
              match string_body l2 with
              | Some (cs, r) => Some (of_code x :: cs, r)
              | None => None
              end in
            if code e =? 34 then simple 34
            else if code e =? 92 then simple 92
            else if code e =? 47 then simple 47
            else if code e =? 98 then simple 8
            else if code e =? 102 then simple 12
            else if code e =? 110 then simple 10
            else if code e =? 114 then simple 13
            else if code e =? 116 then simple 9
            else if code e =? 117 then
              match l2 with
              | h1 :: h2 :: h3 :: h4 :: l3 =>
                  match hex h1, hex h2, hex h3, hex h4 with
                  | Some 0, Some 0, Some a, Some b =>
                      match string_body l3 with
                      | Some (cs, r) => Some (of_code (16 * a + b) :: cs, r)
                      | None => None
                      end
                  | _, _, _, _ => None
                  end
              | _ => None
              end
            else None
        | [] => None
        end
      else
        match string_body l1 with
        | Some (cs, r) => Some (c :: cs, r)
        | None => None
        end
  end.

Definition json_space (c : ascii) : bool :=
  (code c =? 32) || (code c =? 9) || (code c =? 10) || (code c =? 13).

Fixpoint skip (l : list ascii) : list ascii :=
  match l with
  | c :: l' => if json_space c then skip l' else l
  | [] => []
  end.

Definition literal (word : string) (l : list ascii) : option (list ascii) :=
  let w := chars word in
  if bool_decide (take (List.length w) l = w) then Some (drop (List.length w) l)
  else None.

(** A recursive-descent parser; the fuel bounds the nesting depth plus the
    number of members, and the length of the input is always enough. *)
Fixpoint value (fuel : nat) (l : list ascii) : option (JsVal * list ascii) :=
  match fuel with
  | O => None
  | S fuel' =>
      match skip l with
      | [] => None
      | c :: l1 =>
          if code c =? 123 then
            match skip l1 with
            | c1 :: l2 => if code c1 =? 125 then Some (JObj ∅, l2)
                          else members fuel' ∅ (c1 :: l2)
            | [] => None
            end
          else if code c =? 91 then
            match skip l1 with
            | c1 :: l2 => if code c1 =? 93 then Some (JArr [], l2)
                          else elements fuel' [] (c1 :: l2)
            | [] => None
            end
          else if code c =? 34 then
            match string_body l1 with
            | Some (cs, r) => Some (JStr (string_of_list_ascii cs), r)
            | None => None
            end
          else if code c =? 116 then
            match literal "true" (c :: l1) with
            | Some r => Some (JBool true, r)
            | None => None
            end
          else if code c =? 102 then
            match literal "false" (c :: l1) with
            | Some r => Some (JBool false, r)
            | None => None
            end
          else if code c =? 110 then
            match literal "null" (c :: l1) with
            | Some r => Some (JNull, r)
            | None => None
            end
          else if code c =? 45 then
            match decimal true l1 with
            | Some (q, r) => Some (JNum (round_double (- q)), r)
            | None => None
            end
          else
            match decimal true (c :: l1) with
            | Some (q, r) => Some (JNum (round_double q), r)
            | None => None
            end
      end
  end
with elements (fuel : nat) (acc : list JsVal) (l : list ascii)
  : option (JsVal * list ascii) :=
  match fuel with
  | O => None
  | S fuel' =>
      match value fuel' l with
      | Some (v, r) =>
          match skip r with
          | c :: r1 =>
              if code c =? 44 then elements fuel' (acc ++ [v]) r1
              else if code c =? 93 then Some (JArr (acc ++ [v]), r1)
              else None
          | [] => None
          end
      | None => None
      end
  end
with members (fuel : nat) (acc : obj) (l : list ascii)
  : option (JsVal * list ascii) :=
  match fuel with
  | O => None
  | S fuel' =>
      match skip l with
      | q :: l1 =>
          if code q =? 34 then
            match string_body l1 with
            | Some (k, r) =>
                match skip r with
                | c :: r1 =>
                    if code c =? 58 then
                      match value fuel' r1 with
                      | Some (v, r2) =>
                          let acc' := <[string_of_list_ascii k := v]> acc in
                          match skip r2 with
                          | c2 :: r3 =>
                              if code c2 =? 44 then members fuel' acc' r3
                              else if code c2 =? 125 then Some (JObj acc', r3)
                              else None
                          | [] => None
                          end
                      | None => None
                      end
                    else None
                | [] => None
                end
            | None => None
            end
          else None
      | [] => None
      end
  end.

Definition JSON_parse (s : string) : option JsVal :=
  let l := chars s in
  match value (S (List.length l)) l with
  | Some (v, r) => match skip r with
                   | [] => Some v
                   | _ => None
                   end
  | None => None
  end.

Fixpoint radix_value (radix acc : Z) (l : list ascii) : option Z :=
  match l with
  | [] => Some acc
  | c :: l' =>
      match hex c with
      | Some d => if d <? radix then radix_value radix (radix * acc + d) l' else None
      | None => None
      end
  end.

(** An unsigned literal [0x...], [0o...] or [0b...]. *)
Definition radix_literal (l : list ascii) : option Z :=
  match l with
  | z :: x :: ((_ :: _) as body) =>
      if code z =? 48 then
        if (code x =? 120) || (code x =? 88) then radix_value 16 0 body
        else if (code x =? 111) || (code x =? 79) then radix_value 8 0 body
        else if (code x =? 98) || (code x =? 66) then radix_value 2 0 body
        else None
      else None
  | _ => None
  end.

(** StringToNumber: the trimmed text is empty, a radix literal, or a signed
    [Infinity] or decimal literal; the value is rounded to a double. *)
Definition StringToNumber (s : string) : number :=
  let l := chars (trim s) in
  match l with
  | [] => zero
  | c :: l1 =>
      match radix_literal l with
      | Some z => round_double (inject_Z z)
      | None =>
          let '(neg, body) :=
            if code c =? 45 then (true, l1)
            else if code c =? 43 then (false, l1) else (false, l) in
          if bool_decide (body = chars "Infinity") then (if neg then NInf else PInf)
          else match decimal false body with
               | Some (q, []) => round_double (if neg then - q else q)
               | _ => NaN
               end
      end
  end.

Definition digit_char (d : Z) : ascii := of_code (48 + d).

Fixpoint fraction_digits (fuel : nat) (num den : Z) : list ascii :=
  match fuel with
  | O => []
  | S fuel' =>
      if num =? 0 then []
      else digit_char ((10 * num) / den) :: fraction_digits fuel' ((10 * num) mod den) den
  end.

(** Number::toString: integers in decimal, other finite values with up to
    twenty fraction digits. *)
Definition NumberToString (n : number) : string :=
  match n with
  | NaN => "NaN"
  | PInf => "Infinity"
  | NInf => "-Infinity"
  | Fin q =>
      let num := Z.abs (Qnum q) in
      let den := Z.pos (Qden q) in
      let whole := NilZero.string_of_uint (N.to_uint (Z.to_N (num / den))) in
      let frac := fraction_digits 20 (num mod den) den in
      (if (Qnum q <? 0) then "-" else "")
        +:+ whole
        +:+ (match frac with
             | [] => ""
             | _ => "." +:+ string_of_list_ascii frac
             end)
  end.

Definition two_digits (a b : ascii) : option Z :=
  match digit a, digit b with
  | Some x, Some y => Some (10 * x + y)
  | _, _ => None
  end.

Definition days_from_civil (y m d : Z) : Z :=
  let y' := if m <=? 2 then y - 1 else y in
  let era := y' / 400 in
  let yoe := y' - era * 400 in
  let doy := (153 * (if 2 <? m then m - 3 else m + 9) + 2) / 5 + d - 1 in
  let doe := yoe * 365 + yoe / 4 - yoe / 100 + doy in
  era * 146097 + doe - 719468.

(** [Date.parse] on the date form [YYYY-MM-DD] and the UTC date-time form
    [YYYY-MM-DDTHH:mm:ss(.sss)Z] of the ISO format; the other forms that an
    engine reads (offsets, local times, legacy formats) are no dates for
    this runtime. *)
Definition Date_parse (s : string) : option Z :=
  match chars s with
  | y1 :: y2 :: y3 :: y4 :: "-"%char :: m1 :: m2 :: "-"%char :: d1 :: d2 :: rest =>
      match two_digits y1 y2, two_digits y3 y4, two_digits m1 m2, two_digits d1 d2 with
      | Some yh, Some yl, Some m, Some d =>
          if (1 <=? m) && (m <=? 12) && (1 <=? d) && (d <=? 31) then
            let day := 86400000 * days_from_civil (100 * yh + yl) m d in
            match rest with
            | [] => Some day
            | "T"%char :: h1 :: h2 :: ":"%char :: n1 :: n2 :: ":"%char :: s1 :: s2 :: tail =>
                match two_digits h1 h2, two_digits n1 n2, two_digits s1 s2 with
                | Some h, Some n, Some sec =>
                    if (h <=? 23) && (n <=? 59) && (sec <=? 59) then
                      let base := day + 3600000 * h + 60000 * n + 1000 * sec in
                      match tail with
                      | [ "Z"%char ] => Some base
                      | [ "."%char; f1; f2; f3; "Z"%char ] =>
                          match digit f1, two_digits f2 f3 with
                          | Some a, Some b => Some (base + 100 * a + b)
                          | _, _ => None
                          end
                      | _ => None
                      end
                    else None
                | _, _, _ => None
                end
            | _ => None
            end
          else None
      | _, _, _, _ => None
      end
  | _ => None
  end.

(** The capital of a code unit: the letters a-z and the Latin-1 small
    letters U+00E0-U+00FE other than the division sign move down by 32, and
    U+00DF becomes SS.  U+00B5 and U+00FF, whose capitals lie outside the
    code units of these strings, are left as they are. *)
Definition upper_units (c : ascii) : list ascii :=
  let n := code c in
  if ((97 <=? n) && (n <=? 122)) || ((224 <=? n) && (n <=? 254) && negb (n =? 247))
  then [of_code (n - 32)]
  else if n =? 223 then [of_code 83; of_code 83]
  else [c].

Definition toUpperCase (s : string) : string :=
  string_of_list_ascii (flat_map upper_units (chars s)).

(** White space has no case, and no capital starts or ends with it. *)
Definition keeps_space_at (f : ascii -> list ascii) (c : ascii) : bool :=
  match f c with
  | [] => false
  | x :: xs => if is_space c then Ascii.eqb x c && bool_decide (xs = [])
               else negb (is_space x)
  end.

Definition keeps_space (f : ascii -> list ascii) : Prop :=
  forall c, if is_space c then f c = [c]
            else exists x xs, f c = x :: xs /\ is_space x = false.

Lemma keeps_space_checked (f : ascii -> list ascii) :
  (forall c, keeps_space_at f c = true) -> keeps_space f.
Proof.
  intros H c. specialize (H c). unfold keeps_space_at in H.
  destruct (f c) as [|x xs]; [done|]. destruct (is_space c).
  - apply andb_prop in H as [Hx Hxs]. apply Ascii.eqb_eq in Hx as ->.
    by apply bool_decide_eq_true in Hxs as ->.
  - exists x, xs. split; [done|]. by destruct (is_space x).
Qed.

Lemma upper_units_keeps_space : keeps_space upper_units.
Proof.
  apply keeps_space_checked.
  intros c. destruct c as [[] [] [] [] [] [] [] []]; vm_compute; reflexivity.
Qed.

Lemma rev_upper_units_keeps_space : keeps_space (fun c => rev (upper_units c)).
Proof.
  apply keeps_space_checked.
  intros c. destruct c as [[] [] [] [] [] [] [] []]; vm_compute; reflexivity.
Qed.

Lemma drop_space_flat_map (f : ascii -> list ascii) (l : list ascii) :
  keeps_space f -> drop_space (flat_map f l) = flat_map f (drop_space l).
Proof.
  intros Hf. induction l as [|c l IH]; [done|].
  cbn [flat_map drop_space]. specialize (Hf c). destruct (is_space c) eqn:Ec.
  - rewrite Hf. cbn [app drop_space]. by rewrite Ec.
  - destruct Hf as (x & xs & E & Hx). cbn [flat_map]. rewrite E.
    cbn [app drop_space]. by rewrite Hx.
Qed.

Lemma rev_flat_map (f : ascii -> list ascii) (l : list ascii) :
  rev (flat_map f l) = flat_map (fun c => rev (f c)) (rev l).
Proof.
  induction l as [|c l IH]; [done|].
  cbn [flat_map rev]. rewrite List.rev_app_distr, IH, List.flat_map_app.
  cbn [flat_map]. by rewrite app_nil_r.
Qed.

Lemma toUpperCase_empty (s : string) : toUpperCase s = "" <-> s = "".
Proof.
  split; [|by intros ->]. destruct s as [|c s]; [done|]. unfold toUpperCase.
  change (chars (String c s)) with (c :: chars s). cbn [flat_map].
  pose proof (upper_units_keeps_space c) as Hc.
  destruct (is_space c); [by rewrite Hc|]. by destruct Hc as (x & xs & -> & _).
Qed.

Lemma toUpperCase_trim (s : string) : trim (toUpperCase s) = toUpperCase (trim s).
Proof.
  unfold trim, toUpperCase, chars.
  rewrite !list_ascii_of_string_of_list_ascii. f_equal. unfold trim_chars.
  rewrite (drop_space_flat_map _ _ upper_units_keeps_space), rev_flat_map.
  rewrite (drop_space_flat_map _ _ rev_upper_units_keeps_space), rev_flat_map.
  apply List.flat_map_ext. intros c. apply List.rev_involutive.
Qed.

End Node.

Definition node : JsRuntime :=
  {| JSON_parse := Node.JSON_parse;
     Date_parse := Node.Date_parse;
     StringToNumber := Node.StringToNumber;
     NumberToString := Node.NumberToString;
     toUpperCase := Node.toUpperCase;
     toUpperCase_empty := Node.toUpperCase_empty;
     toUpperCase_trim := Node.toUpperCase_trim |}.

(** ** Concrete stores *)

(** A store given by its sets and its hashes: a missing set has no
    members, a missing hash reads as [null], and no call is rejected. *)
Definition store (sets : gmap string (list JsVal)) (hashes : gmap string obj) : KV :=
  {| smembers := fun key => Some (default [] (sets !! key));
     hgetall := fun key => Some (hashes !! key) |}.

(** ** The dashboard client

    [zabava_frontend/src/hooks/usePartnerData.ts] sorts the ledger it
    receives once more, and [PartnerDashboard.tsx] recomputes the totals
    from it.  The hook takes whatever the response holds, so its input is
    a value; the dashboard reads the fields of its [SubmissionRecord]
    entries without a guard, so its input is a list of objects. *)
Section Client.
Context {rt : JsRuntime}.

(** usePartnerData.ts, lines 19-25 *)
Definition getTimestamp (value : JsVal) : number :=
  if truthy value then
    match getTime value with
    | NaN => zero
    | time => time
    end
  else zero.

(** usePartnerData.ts, lines 33-35: the comparator. *)
Definition byTimestampDesc (a b : JsVal) : number :=
  num_sub (getTimestamp (getOpt b "createdAt" <??> JNull))
          (getTimestamp (getOpt a "createdAt" <??> JNull)).

Definition is_undefined (v : JsVal) : bool :=
  match v with
  | JUndef => true
  | _ => false
  end.

(** [Array.prototype.sort] on an array of values: the [undefined] elements
    go to the end without being compared. *)
Definition Array_sort_values (cmp : JsVal -> JsVal -> number) (l : list JsVal)
  : list JsVal :=
  Array_sort cmp (filter (fun v => is_undefined v = false) l)
  ++ filter (fun v => is_undefined v = true) l.

(** usePartnerData.ts, lines 27-36 *)
Definition sortPartnerSubmissions (submissions : JsVal) : list JsVal :=
  match submissions with
  | JArr entries => Array_sort_values byTimestampDesc entries
  | _ => []
  end.

(** PartnerDashboard.tsx, lines 83-93 *)
Record MetricsSummary : Type := {
  d_count : Z;
  d_used : Z;
  d_unused : Z;
  d_visited : Z;
  d_notVisited : Z;
  d_revenue : number;
  d_points : number;
  d_averageRevenue : number;
  d_averagePoints : number
}.

(** PartnerDashboard.tsx, lines 199-204: one step of the [forEach], on
    (used, visited, revenue, points). *)
Definition dashboardStep (acc : Z * Z * number * number) (entry : obj)
  : Z * Z * number * number :=
  let '(used, visited, revenue, points) := acc in
  (if truthy (get entry "used") then used + 1 else used,
   if truthy (get entry "visited") then visited + 1 else visited,
   num_add revenue (ToNumber (get entry "totalPrice" <||> JNum zero)),
   num_add points (ToNumber (get entry "estimatedPoints" <||> JNum zero))).

(** PartnerDashboard.tsx, lines 192-217 *)
Definition dashboardMetrics (submissions : list obj) : MetricsSummary :=
  let n := Z.of_nat (List.length submissions) in
  let '(used, visited, revenue, points) :=
    foldl dashboardStep (0, 0, zero, zero) submissions in
  {| d_count := n;
     d_used := used;
     d_unused := n - used;
     d_visited := visited;
     d_notVisited := n - visited;
     d_revenue := revenue;
     d_points := points;
     d_averageRevenue := if n =? 0 then zero else num_div_count revenue n;
     d_averagePoints := if n =? 0 then zero else num_div_count points n |}.

End Client.

(** * Definitions used in the statements *)

Section Statements.
Context {rt : JsRuntime}.

(** ** Predicates and views *)

(** Reading a field back from the explicit fields of an object literal. *)
Fixpoint assigned (k : string) (fields : list (string * JsVal)) : option JsVal :=
  match fields with
  | [] => None
  | (k', v) :: rest =>
      match assigned k rest with
      | Some x => Some x
      | None => if String.eqb k k' then Some v else None
      end
  end.

(** The two ways a submission is pushed. *)
Definition emitted (partnerId : JsVal) (s : obj) : Prop :=
  (exists visitKey record, s = visitSubmission partnerId visitKey record)
  \/ (exists record, s = emailSubmission partnerId record).

(** A hash read that yields no record: rejected, [null] or empty. *)
Definition no_record (r : option (option obj)) : Prop :=
  r = None \/ r = Some None \/ r = Some (Some ∅).

(** [payload] is what the first decoding step of [parsePayload] yields. *)
Definition decodes_to (record : obj) (payload : JsVal) : Prop :=
  (exists s, get record "payload" = JStr s /\ s <> "" /\ JSON_parse s = Some payload)
  \/ (get record "payload" = payload /\ truthy payload = true
      /\ is_string payload = false).

(** The parts of a key [qr:<email>:<partnerId>:<visitId>]: an email and a
    partner id are non-empty and free of colons, a visit id is non-empty
    and free of line ends. *)
Definition no_colon (s : string) : bool :=
  str_nonempty s && forallb (fun c => negb (is_colon c)) (chars s).

Definition one_line (s : string) : bool :=
  str_nonempty s && forallb (fun c => negb (is_line_end c)) (chars s).

Definition visitKeyOf (email partner visitId : string) : string :=
  "qr:" +:+ email +:+ ":" +:+ partner +:+ ":" +:+ visitId.

(** The fields of a visit that are read from the record first:
    [record.f || payload.f || ...]. *)
Definition recordFirstFields : list string :=
  ["visitId"; "email"; "status"; "createdAt"; "updatedAt"; "scannedAt"; "visitedAt"].

(** The fields that both copies compute alike from a legacy email
    record. *)
Definition sharedFields : list string :=
  ["partnerId"; "email"; "totalPrice"; "originalPayload"].

(** [s.qrKey === visitKey] *)
Definition has_qrKey (visitKey : string) (s : obj) : bool :=
  strict_eq_str (get s "qrKey") visitKey.

(** The time a visit is sorted by when an invalid date is read as epoch 0. *)
Definition createdMillis (s : obj) : Z :=
  match createdTime s with
  | Fin q => Qfloor q
  | _ => 0
  end.

(** The visit-set key of an already trimmed variant. *)
Definition addTrimmed (trimmed : string) (visitSetKeys : list string) : list string :=
  if str_nonempty trimmed then set_add ("partner:visits:" +:+ trimmed) visitSetKeys
  else visitSetKeys.

(** The key variants in terms of the trimmed identifier. *)
Definition variantsOf (t : string) : list string :=
  addTrimmed (toUpperCase (toLowerCase t))
    (addTrimmed (toUpperCase t)
       (addTrimmed (toLowerCase t)
          (addTrimmed (toLowerCase t) (addTrimmed t [])))).

(** The email-set key of the normalized identifier. *)
Definition normalizedKeys (n : string) : list string :=
  if str_nonempty n then set_add ("partner:" +:+ n) [] else [].

(** A result without the identifier it echoes. *)
Definition ledgerOf (r : Result) : list obj * Metrics * JsVal :=
  (submissions r, metrics r, partnerLabel r).

(** The email set stored under the raw spelling holds nothing (or the raw
    spelling is the normalized one, whose key is read anyway). *)
Definition rawEmailSetEmpty (kv : KV) (p : string) : Prop :=
  p = normalizePartnerId (JStr p)
  \/ smembers kv ("partner:" +:+ p) = None
  \/ smembers kv ("partner:" +:+ p) = Some [].

(** The set stored under a key has no members, or cannot be read. *)
Definition memberless (kv : KV) (key : string) : Prop :=
  smembers kv key = None \/ smembers kv key = Some [].

(** The set stored under a key can be read and has a member. *)
Definition has_members (kv : KV) (key : string) : bool :=
  match smembers kv key with
  | Some (_ :: _) => true
  | _ => false
  end.

(** The keys whose sets have members, in the order in which they are
    read. *)
Definition populated (kv : KV) (keys : list string) : list string :=
  filter (fun key => has_members kv key = true) keys.

(** The partner's data is filed under the normalized identifier: of the
    sets that the spelling [p] resolves, only the two keyed by the
    normalized identifier have members. *)
Definition filedUnderNormalized (kv : KV) (p : string) : Prop :=
  let n := normalizePartnerId (JStr p) in
  (forall key, key ∈ visitSetKeysOf (JStr p) ->
     key <> "partner:visits:" +:+ n -> memberless kv key)
  /\ (forall key, key ∈ emailSetKeys (JStr p) ->
       key <> "partner:" +:+ n -> memberless kv key).

(** The ledger in terms of the trimmed identifier alone. *)
Definition ledgerFrom (kv : KV) (t : string) : list obj * Metrics * JsVal :=
  match visitSubmissions kv (JStr t) with
  | [] =>
      match memberEmails kv (normalizedKeys (toLowerCase t)) with
      | [] => ([], EMPTY_METRICS, JNull)
      | emails => ledgerOf (summarize JNull (omap (emailVisit kv (JStr t)) emails))
      end
  | fromVisitSets => ledgerOf (summarize JNull fromVisitSets)
  end.

(** The ledger in terms of the normalized identifier, the record keys and
    the member emails that were read. *)
Definition ledgerReading (kv : KV) (n : string) (recordKeys emails : list string)
  : list obj * Metrics * JsVal :=
  match omap (visitFromKey kv (JStr n)) recordKeys with
  | [] =>
      match emails with
      | [] => ([], EMPTY_METRICS, JNull)
      | _ => ledgerOf (summarize JNull (omap (emailVisit kv (JStr n)) emails))
      end
  | fromVisitSets => ledgerOf (summarize JNull fromVisitSets)
  end.

(** The ledger read from the two sets keyed by a normalized identifier. *)
Definition normalizedLedger (kv : KV) (n : string) : list obj * Metrics * JsVal :=
  let recordKeys :=
    if str_nonempty n then addMembers kv [] ("partner:visits:" +:+ n) else [] in
  match omap (visitFromKey kv (JStr n)) recordKeys with
  | [] =>
      match memberEmails kv (normalizedKeys n) with
      | [] => ([], EMPTY_METRICS, JNull)
      | emails => ledgerOf (summarize JNull (omap (emailVisit kv (JStr n)) emails))
      end
  | fromVisitSets => ledgerOf (summarize JNull fromVisitSets)
  end.

(** ** Scenario data *)

Definition dquote : string := String (ascii_of_nat 34) EmptyString.
Definition backslash : ascii := ascii_of_nat 92.

(** A JSON string literal for a text without special characters. *)
Definition quoted (s : string) : string := dquote +:+ s +:+ dquote.

(** The text with every double quote and backslash escaped. *)
Fixpoint escaped (s : string) : string :=
  match s with
  | EmptyString => EmptyString
  | String c rest =>
      if ((nat_of_ascii c =? 34) || (nat_of_ascii c =? 92))%nat
      then String backslash (String c (escaped rest))
      else String c (escaped rest)
  end.

(** The JSON text of an object with [ticket] VIP and [totalPrice] 500. *)
Definition ticketText : string :=
  "{" +:+ quoted "ticket" +:+ ":" +:+ quoted "VIP" +:+ ","
      +:+ quoted "totalPrice" +:+ ":500}".

(** The double-encoded payload: an object whose [data] is [ticketText] as a
    JSON string. *)
Definition doubleEncoded : string :=
  "{" +:+ quoted "data" +:+ ":" +:+ quoted (escaped ticketText) +:+ "}".

(** An outer payload with [ticket] STD whose [data] holds [ticket] VIP. *)
Definition shadowedRecord : obj :=
  {[ "payload" :=
       JObj {[ "ticket" := JStr "STD";
               "data" := JStr ("{" +:+ quoted "ticket" +:+ ":" +:+ quoted "VIP" +:+ "}") ]} ]}.

(** Two records for [a@x.com] at partner [P1]: the legacy one has the price,
    the current one the visit confirmation. *)
Definition mergeStore : KV :=
  store {[ "partner:visits:P1" := [JStr "qr:a@x.com:P1:v1"] ]}
        {[ "qr:email:a@x.com" := {[ "totalPrice" := JNum (num_of_Z 100) ]};
           "qr:a@x.com:P1:v1" := {[ "visited" := JBool true;
                                     "visitedAt" := JStr "2024-01-01" ]} ]}.

(** The only visit of [mergeStore]. *)
Definition mergedVisit : obj :=
  @visitSubmission node (JStr "P1") "qr:a@x.com:P1:v1"
    ({[ "visited" := JBool true; "visitedAt" := JStr "2024-01-01" ]}
       ∪ {[ "totalPrice" := JNum (num_of_Z 100) ]}).

(** Three visits of partner [p1], the second with a [createdAt] that is no
    date. *)
Definition sortStore : KV :=
  store {[ "partner:visits:p1" :=
             [JStr "qr:a@x.com:p1:v1"; JStr "qr:b@x.com:p1:v2"; JStr "qr:c@x.com:p1:v3"] ]}
        {[ "qr:a@x.com:p1:v1" := {[ "createdAt" := JStr "2024-01-01" ]};
           "qr:b@x.com:p1:v2" := {[ "createdAt" := JStr "garbage" ]};
           "qr:c@x.com:p1:v3" := {[ "createdAt" := JStr "2025-01-01" ]} ]}.

(** Two visits of partner [p1]: one dated before 1970, one without any
    date. *)
Definition preEpochStore : KV :=
  store {[ "partner:visits:p1" := [JStr "qr:a@x.com:p1:v1"; JStr "qr:b@x.com:p1:v2"] ]}
        {[ "qr:a@x.com:p1:v1" := {[ "createdAt" := JStr "1969-12-31" ]};
           "qr:b@x.com:p1:v2" := {[ "email" := JStr "b@x.com" ]} ]}.

(** Three visits with prices 100, 200, 0 and estimates 10, 20, 5. *)
Definition averageStore : KV :=
  store {[ "partner:visits:p1" :=
             [JStr "qr:a@x.com:p1:v1"; JStr "qr:b@x.com:p1:v2"; JStr "qr:c@x.com:p1:v3"] ]}
        {[ "qr:a@x.com:p1:v1" := {[ "totalPrice" := JNum (num_of_Z 100);
                                     "estimatedPoints" := JNum (num_of_Z 10) ]};
           "qr:b@x.com:p1:v2" := {[ "totalPrice" := JNum (num_of_Z 200);
                                     "estimatedPoints" := JNum (num_of_Z 20) ]};
           "qr:c@x.com:p1:v3" := {[ "totalPrice" := JNum (num_of_Z 0);
                                     "estimatedPoints" := JNum (num_of_Z 5) ]} ]}.

(** A redemption whose ticket is written in lower case. *)
Definition lowerCaseStore : KV :=
  store {[ "partner:visits:p1" := [JStr "qr:a@x.com:p1:v1"] ]}
        {[ "qr:a@x.com:p1:v1" :=
             {[ "payload" := JObj {[ "ticket" := JStr "bonusreward" ]} ]} ]}.

(** Partner [Ab] has one visit, filed under the spelling [Ab]. *)
Definition caseStore : KV :=
  store {[ "partner:visits:Ab" := [JStr "qr:a@x.com:Ab:v1"] ]}
        {[ "qr:a@x.com:Ab:v1" := {[ "email" := JStr "a@x.com" ]} ]}.

(** The current record has its own price, and the payload of the legacy
    record another one; the legacy record also has a [note]. *)
Definition priceStore : KV :=
  store {[ "partner:visits:P1" := [JStr "qr:a@x.com:P1:v1"] ]}
        {[ "qr:email:a@x.com" :=
             {[ "payload" := JObj {[ "totalPrice" := JNum (num_of_Z 100) ]};
                "note" := JStr "legacy" ]};
           "qr:a@x.com:P1:v1" := {[ "totalPrice" := JNum (num_of_Z 50) ]} ]}.

(** Three visits of partner [p1], filed in the order 2024, no date, 2025. *)
Definition datedStore : KV :=
  store {[ "partner:visits:p1" :=
             [JStr "qr:a@x.com:p1:v1"; JStr "qr:b@x.com:p1:v2"; JStr "qr:c@x.com:p1:v3"] ]}
        {[ "qr:a@x.com:p1:v1" := {[ "createdAt" := JStr "2024-01-01" ]};
           "qr:b@x.com:p1:v2" := {[ "email" := JStr "b@x.com" ]};
           "qr:c@x.com:p1:v3" := {[ "createdAt" := JStr "2025-01-01" ]} ]}.

(** A visit with 7 points awarded and an estimate of 3. *)
Definition awardedStore : KV :=
  store {[ "partner:visits:p1" := [JStr "qr:a@x.com:p1:v1"] ]}
        {[ "qr:a@x.com:p1:v1" := {[ "pointsAwarded" := JNum (num_of_Z 7);
                                     "estimatedPoints" := JNum (num_of_Z 3) ]} ]}.

(** The only visit of [awardedStore]. *)
Definition awardedVisit : obj :=
  @visitSubmission node (JStr "p1") "qr:a@x.com:p1:v1"
    {[ "pointsAwarded" := JNum (num_of_Z 7); "estimatedPoints" := JNum (num_of_Z 3) ]}.


(** Three visits with the prices 6755399441055745, 0 and 0. *)
Definition roundingStore : KV :=
  store {[ "partner:visits:p1" :=
             [JStr "qr:a@x.com:p1:v1"; JStr "qr:b@x.com:p1:v2"; JStr "qr:c@x.com:p1:v3"] ]}
        {[ "qr:a@x.com:p1:v1" := {[ "totalPrice" := JNum (num_of_Z 6755399441055745) ]};
           "qr:b@x.com:p1:v2" := {[ "totalPrice" := JNum (num_of_Z 0) ]};
           "qr:c@x.com:p1:v3" := {[ "totalPrice" := JNum (num_of_Z 0) ]} ]}.

(** Two visits of partner [ab] without a date, one filed under the spelling
    [ab] and one under [AB]. *)
Definition orderStore : KV :=
  store {[ "partner:visits:ab" := [JStr "qr:a@x.com:ab:v1"];
           "partner:visits:AB" := [JStr "qr:b@x.com:ab:v2"] ]}
        {[ "qr:a@x.com:ab:v1" :=
             {[ "email" := JStr "a@x.com";
                "payload" := JObj {[ "partnerName" := JStr "First" ]} ]};
           "qr:b@x.com:ab:v2" :=
             {[ "email" := JStr "b@x.com";
                "payload" := JObj {[ "partnerName" := JStr "Second" ]} ]} ]}.

(** Two visits of partner [ab], filed under the spelling [AB]. *)
Definition upperStore : KV :=
  store {[ "partner:visits:AB" := [JStr "qr:a@x.com:ab:v1"; JStr "qr:b@x.com:ab:v2"] ]}
        {[ "qr:a@x.com:ab:v1" := {[ "totalPrice" := JNum (num_of_Z 10) ]};
           "qr:b@x.com:ab:v2" := {[ "totalPrice" := JNum (num_of_Z 20) ]} ]}.

(** The email set of partner [p1] is filed under the spelling [ p1], with
    a leading blank. *)
Definition spaceStore : KV :=
  store {[ "partner: p1" := [JStr "a@x.com"] ]}
        {[ "qr:email:a@x.com" := {[ "email" := JStr "a@x.com" ]} ]}.

(** ** Views for the properties of the remaining code *)

(** The store with every rejected read replaced by an empty answer. *)
Definition quiet (kv : KV) : KV :=
  {| smembers := fun key => Some (default [] (smembers kv key));
     hgetall := fun key => Some (match hgetall kv key with
                                 | Some record => record
                                 | None => None
                                 end) |}.

(** The fields that the two object literals of [loadPartnerData] write
    after the payload spread. *)
Definition visitFields : list string :=
  ["partnerId"; "visitId"; "qrKey"; "email"; "used"; "status"; "createdAt";
   "updatedAt"; "scannedAt"; "totalPrice"; "estimatedPoints"; "pointsAwarded";
   "visited"; "visitedAt"; "originalPayload"].

Definition emailFields : list string :=
  ["partnerId"; "email"; "used"; "createdAt"; "scannedAt"; "totalPrice";
   "estimatedPoints"; "pointsAwarded"; "visited"; "visitedAt"; "originalPayload"].

(** The fields the older copy writes before its payload spread. *)
Definition olderFields : list string :=
  ["partnerId"; "email"; "used"; "createdAt"; "scannedAt"; "totalPrice";
   "estimatedPoints"; "visited"; "visitedAt"; "originalPayload"].

(** The status words that are in both vocabularies. *)
Definition sharedStatuses : list string :=
  ["true"; "redeemed"; "completed"; "yes"; "1"].

(** A value that is [null] or truthy, as [a || b || null] yields. *)
Definition null_or_truthy (v : JsVal) : Prop := v = JNull \/ truthy v = true.

(** The time the client sorts an entry by. *)
Definition timestampMillis (entry : JsVal) : Z :=
  match getTimestamp (getOpt entry "createdAt" <??> JNull) with
  | Fin q => Qfloor q
  | _ => 0
  end.

(** The shape of the computed fields. *)
Definition typed_visit (s : obj) : Prop :=
  (exists totalPrice estimatedPoints pointsAwarded used visited,
      get s "totalPrice" = JNum totalPrice /\ totalPrice <> NaN
      /\ get s "estimatedPoints" = JNum estimatedPoints /\ estimatedPoints <> NaN
      /\ get s "pointsAwarded" = JNum pointsAwarded /\ pointsAwarded <> NaN
      /\ get s "used" = JBool used
      /\ get s "visited" = JBool visited)
  /\ null_or_truthy (get s "createdAt")
  /\ null_or_truthy (get s "scannedAt")
  /\ null_or_truthy (get s "visitedAt")
  /\ is_present (get s "originalPayload") = true.

(** The ledger as the array of the response that the client reads. *)
Definition asEntries (subs : list obj) : JsVal := JArr (map JObj subs).

(** The current record of the visit is lost and only the legacy record of
    the email is left. *)
Definition fallbackStore : KV :=
  store {[ "partner:visits:p1" := [JStr "qr:a@x.com:p1:v1"; JStr "qr:b@x.com:p1:v2"] ]}
        {[ "qr:email:a@x.com" := {[ "totalPrice" := JNum (num_of_Z 40);
                                    "status" := JStr " Completed " ]} ]}.

(** [fallbackStore] with an email set next to the visit set. *)
Definition fallbackStoreWithEmails : KV :=
  store {[ "partner:visits:p1" := [JStr "qr:a@x.com:p1:v1"; JStr "qr:b@x.com:p1:v2"];
           "partner:p1" := [JStr "z@x.com"] ]}
        {[ "qr:email:a@x.com" := {[ "totalPrice" := JNum (num_of_Z 40);
                                    "status" := JStr " Completed " ]} ]}.

(** The email set of partner [p1] names [a@x.com] twice, a number and
    [b@x.com]; only [a@x.com] has a record. *)
Definition emailStore : KV :=
  store {[ "partner:p1" := [JStr "a@x.com"; JStr "a@x.com"; JNum (num_of_Z 5);
                            JStr "b@x.com"] ]}
        {[ "qr:email:a@x.com" := {[ "email" := JStr "a@x.com";
                                    "totalPrice" := JNum (num_of_Z 40) ]} ]}.

End Statements.

(** * Properties *)

(** ** The sort *)

Section Sorting.
Context {A : Type} (cmp : A -> A -> number).

Lemma sort_insert_perm (x : A) (l : list A) : sort_insert cmp x l ≡ₚ x :: l.
Proof.
  induction l as [|y l IH]; simpl; [done|].
  destruct (num_pos (cmp x y)); [|done].
  rewrite IH. apply Permutation_swap.
Qed.

Lemma Array_sort_perm (l : list A) : Array_sort cmp l ≡ₚ l.
Proof.
  induction l as [|x l IH]; simpl; [done|].
  unfold Array_sort in *. simpl. rewrite sort_insert_perm. by rewrite IH.
Qed.

Lemma Array_sort_length (l : list A) :
  List.length (Array_sort cmp l) = List.length l.
Proof. apply Permutation_length, Array_sort_perm. Qed.

Lemma Array_sort_elem (x : A) (l : list A) : x ∈ Array_sort cmp l ↔ x ∈ l.
Proof. by rewrite Array_sort_perm. Qed.

(** With a comparator that decides [key x < key y] on the elements of the
    array, the result is in descending order of [key]. *)
Context (key : A -> Z) (valid : A -> Prop).
Hypothesis cmp_key :
  forall x y, valid x -> valid y -> (num_pos (cmp x y) = true <-> key x < key y).

Lemma sort_insert_sorted (x : A) (l : list A) :
  valid x -> Forall valid l ->
  StronglySorted (fun a b => key b <= key a) l ->
  StronglySorted (fun a b => key b <= key a) (sort_insert cmp x l).
Proof.
  intros Hx Hl Hs. induction l as [|y l IH]; simpl.
  - constructor; [constructor|constructor].
  - inversion Hl as [|? ? Hy Hl']; subst.
    inversion Hs as [|? ? Hs' Hall]; subst.
    destruct (num_pos (cmp x y)) eqn:E.
    + apply cmp_key in E; [|done..].
      constructor; [by apply IH|].
      apply Forall_forall. intros z Hz.
      rewrite sort_insert_perm in Hz.
      apply elem_of_cons in Hz as [->|Hz]; [lia|].
      rewrite Forall_forall in Hall. by apply Hall.
    + assert (key y <= key x) as Hle.
      { destruct (Z_lt_le_dec (key x) (key y)) as [Hlt|]; [|done].
        apply cmp_key in Hlt; [congruence|done..]. }
      constructor; [done|].
      constructor; [done|].
      rewrite Forall_forall in Hall. apply Forall_forall. intros z Hz.
      specialize (Hall z Hz). lia.
Qed.

Lemma Array_sort_sorted (l : list A) :
  Forall valid l ->
  StronglySorted (fun a b => key b <= key a) (Array_sort cmp l).
Proof.
  intros Hl. induction l as [|x l IH]; [constructor|].
  apply Forall_cons in Hl as [Hx Hl].
  change (Array_sort cmp (x :: l)) with (sort_insert cmp x (Array_sort cmp l)).
  apply sort_insert_sorted; [done| |by apply IH].
  apply Forall_forall. intros z Hz. rewrite Array_sort_perm in Hz.
  rewrite Forall_forall in Hl. by apply Hl.
Qed.
End Sorting.

(** ** Object literals *)

Lemma get_insert (o : obj) (k k' : string) (v : JsVal) :
  get (<[k' := v]> o) k = if String.eqb k k' then v else get o k.
Proof.
  unfold get. destruct (String.eqb_spec k k') as [->|Hne].
  - by rewrite lookup_insert_eq.
  - by rewrite lookup_insert_ne.
Qed.

Lemma get_objAssign (o : obj) (fields : list (string * JsVal)) (k : string) :
  get (objAssign o fields) k
  = match assigned k fields with
    | Some v => v
    | None => get o k
    end.
Proof.
  revert o. induction fields as [|[k' v] rest IH]; intros o; [done|].
  change (objAssign o ((k', v) :: rest)) with (objAssign (<[k' := v]> o) rest).
  rewrite IH. cbn [assigned]. destruct (assigned k rest); [done|].
  rewrite get_insert. by destruct (String.eqb k k').
Qed.

(** ** The shape of a result *)

Section Ledger.
Context {rt : JsRuntime}.

Lemma visitSubmissions_emitted (kv : KV) (partnerId : JsVal) :
  Forall (emitted partnerId) (visitSubmissions kv partnerId).
Proof.
  unfold visitSubmissions. apply Forall_forall. intros s Hs.
  apply list_elem_of_omap in Hs as (visitKey & _ & Hs).
  unfold visitFromKey in Hs.
  destruct (recordForKey kv visitKey (visitEmailFromKey visitKey)) as [record|];
    [|done].
  destruct (obj_is_empty record); [done|].
  injection Hs as <-. left. by exists visitKey, record.
Qed.

Lemma emailVisits_emitted (kv : KV) (partnerId : JsVal) (emails : list string) :
  Forall (emitted partnerId) (omap (emailVisit kv partnerId) emails).
Proof.
  apply Forall_forall. intros s Hs.
  apply list_elem_of_omap in Hs as (email & _ & Hs).
  unfold emailVisit in Hs.
  destruct (hgetall kv _) as [[record|]|]; [|done..].
  destruct (truthy (get record "email")); [|done].
  injection Hs as <-. right. by exists record.
Qed.

(** [loadPartnerData] either takes one of its two early returns or
    summarizes the submissions it pushed. *)
Lemma loadPartnerData_cases (kv : KV) (partnerId : JsVal) :
  loadPartnerData kv partnerId = emptyResult partnerId
  \/ exists pushed, loadPartnerData kv partnerId = summarize partnerId pushed
                    /\ Forall (emitted partnerId) pushed.
Proof.
  unfold loadPartnerData.
  destruct (negb (str_nonempty (normalizePartnerId partnerId)) && negb (truthy partnerId));
    [by left|].
  destruct (visitSubmissions kv partnerId) as [|s0 rest] eqn:Ev.
  - destruct (memberEmails kv (emailSetKeys partnerId)) as [|e es]; [by left|].
    right. eexists. split; [done|]. apply emailVisits_emitted.
  - right. eexists. split; [done|]. rewrite <- Ev. apply visitSubmissions_emitted.
Qed.

Lemma submissions_emitted (kv : KV) (partnerId : JsVal) (s : obj) :
  s ∈ submissions (loadPartnerData kv partnerId) -> emitted partnerId s.
Proof.
  destruct (loadPartnerData_cases kv partnerId) as [->|(pushed & -> & Hall)].
  - simpl. by intros ?%elem_of_nil.
  - simpl. rewrite Array_sort_perm. rewrite Forall_forall in Hall. apply Hall.
Qed.

Lemma number_or_zero_cases (v : JsVal) :
  num_truthy (number_or_zero v) = true \/ number_or_zero v = zero.
Proof.
  unfold number_or_zero, num_or.
  destruct (num_truthy (ToNumber v)) eqn:E; [by left|by right].
Qed.

(** The two points fields of a submission, as both paths write them. *)
Lemma emitted_points (partnerId : JsVal) (s : obj) :
  emitted partnerId s ->
  exists pointsAwarded estimate,
    get s "pointsAwarded" = JNum pointsAwarded
    /\ get s "estimatedPoints" = JNum (num_or pointsAwarded estimate)
    /\ (num_truthy pointsAwarded = true \/ pointsAwarded = zero)
    /\ (num_truthy estimate = true \/ estimate = zero)
    /\ ((exists visitKey record,
           s = visitSubmission partnerId visitKey record
           /\ pointsAwarded = pointsAwardedOf record (parsePayload record)
           /\ estimate = estimatedPointsValue record (parsePayload record))
        \/ (exists record,
              s = emailSubmission partnerId record
              /\ pointsAwarded = emailPointsAwarded record (parsePayload record)
              /\ estimate = emailEstimatedPoints record (parsePayload record))).
Proof.
  intros [(visitKey & record & ->)|(record & ->)].
  - exists (pointsAwardedOf record (parsePayload record)),
           (estimatedPointsValue record (parsePayload record)).
    repeat split; try apply number_or_zero_cases.
    + unfold visitSubmission. by rewrite get_objAssign.
    + unfold visitSubmission. by rewrite get_objAssign.
    + left. by exists visitKey, record.
  - exists (emailPointsAwarded record (parsePayload record)),
           (emailEstimatedPoints record (parsePayload record)).
    repeat split; try apply number_or_zero_cases.
    + unfold emailSubmission. by rewrite get_objAssign.
    + unfold emailSubmission. by rewrite get_objAssign.
    + right. by exists record.
Qed.

Lemma tally_points (subs : list obj) (t : Totals) :
  t_points (foldl tally t subs)
  = foldl (fun acc s => num_add acc (submissionPoints s)) (t_points t) subs.
Proof. revert t. induction subs as [|s subs IH]; intros t; [done|]. simpl. by rewrite IH. Qed.

Lemma tally_revenue (subs : list obj) (t : Totals) :
  t_revenue (foldl tally t subs)
  = foldl (fun acc s => num_add acc (ToNumber (get s "totalPrice" <||> JNum zero)))
      (t_revenue t) subs.
Proof. revert t. induction subs as [|s subs IH]; intros t; [done|]. simpl. by rewrite IH. Qed.

Lemma tally_bonus (subs : list obj) (t : Totals) :
  t_bonusRedemptions (foldl tally t subs)
  = t_bonusRedemptions t
    + Z.of_nat (List.length (filter (fun s => isBonusRedemption s = true) subs)).
Proof.
  revert t. induction subs as [|s subs IH]; intros t; [simpl; lia|].
  cbn [foldl]. rewrite IH. cbn [tally t_bonusRedemptions].
  destruct (isBonusRedemption s) eqn:E.
  - rewrite filter_cons_True by done. cbn [List.length]. lia.
  - rewrite filter_cons_False by congruence. lia.
Qed.

(** ** Effective points (claims C2 and C10) *)

Lemma submissionPoints_awarded (s : obj) (pointsAwarded : number) :
  get s "pointsAwarded" = JNum pointsAwarded ->
  num_truthy pointsAwarded = true ->
  submissionPoints s = pointsAwarded.
Proof.
  intros Hpa Ht. unfold submissionPoints, js_or. rewrite Hpa. simpl. by rewrite Ht.
Qed.

Lemma submissionPoints_estimated (s : obj) (estimatedPoints : number) :
  truthy (get s "pointsAwarded") = false ->
  get s "estimatedPoints" = JNum estimatedPoints ->
  submissionPoints s = num_or estimatedPoints zero.
Proof.
  intros Hf He. unfold submissionPoints, js_or, num_or. rewrite Hf, He. simpl.
  by destruct (num_truthy estimatedPoints).
Qed.

Lemma submissionPoints_neither (s : obj) :
  truthy (get s "pointsAwarded") = false ->
  truthy (get s "estimatedPoints") = false ->
  submissionPoints s = zero.
Proof. intros Hf He. unfold submissionPoints, js_or. by rewrite Hf, He. Qed.

Lemma emitted_submissionPoints (partnerId : JsVal) (s : obj) :
  emitted partnerId s ->
  exists pointsAwarded estimatedPoints,
    get s "pointsAwarded" = JNum pointsAwarded
    /\ get s "estimatedPoints" = JNum estimatedPoints
    /\ submissionPoints s
       = if num_truthy pointsAwarded then pointsAwarded else estimatedPoints.
Proof.
  intros (pa & est & Hpa & Hep & _ & Hest & _)%emitted_points.
  exists pa, (num_or pa est). split; [done|]. split; [done|].
  destruct (num_truthy pa) eqn:Et.
  - by apply submissionPoints_awarded.
  - rewrite (submissionPoints_estimated s (num_or pa est)); [|by rewrite Hpa|done].
    unfold num_or. rewrite Et.
    destruct Hest as [->| ->]; done.
Qed.

(** C2. Every visit of the ledger adds to [metrics.points] its
    [pointsAwarded] when that is nonzero and its [estimatedPoints]
    otherwise; on any object, an awarded value that is present and nonzero
    is the contribution, and an absent or zero one leaves the estimate (0
    when that is absent too). *)
Theorem points_prefer_awarded (kv : KV) (partnerId : JsVal) :
  let r := loadPartnerData kv partnerId in
  points (metrics r)
  = foldl (fun acc s => num_add acc (submissionPoints s)) zero (submissions r)
  /\ (forall s, s ∈ submissions r ->
        exists pointsAwarded estimatedPoints,
          get s "pointsAwarded" = JNum pointsAwarded
          /\ get s "estimatedPoints" = JNum estimatedPoints
          /\ submissionPoints s
             = if num_truthy pointsAwarded then pointsAwarded else estimatedPoints)
  /\ (forall (s : obj) pointsAwarded,
        get s "pointsAwarded" = JNum pointsAwarded ->
        num_truthy pointsAwarded = true ->
        submissionPoints s = pointsAwarded)
  /\ (forall (s : obj) estimatedPoints,
        truthy (get s "pointsAwarded") = false ->
        get s "estimatedPoints" = JNum estimatedPoints ->
        submissionPoints s = num_or estimatedPoints zero)
  /\ (forall s : obj,
        truthy (get s "pointsAwarded") = false ->
        truthy (get s "estimatedPoints") = false ->
        submissionPoints s = zero).
Proof.
  intros r. split; [|split; [|split; [|split]]].
  - subst r. destruct (loadPartnerData_cases kv partnerId) as [->|(pushed & -> & _)];
      [done|]. simpl. by rewrite tally_points.
  - intros s Hs. apply (emitted_submissionPoints partnerId).
    by apply (submissions_emitted kv).
  - apply submissionPoints_awarded.
  - apply submissionPoints_estimated.
  - apply submissionPoints_neither.
Qed.

(** C10. Every emitted visit carries in [estimatedPoints] its
    [pointsAwarded] when that is nonzero, and otherwise the estimate read
    from the record at registration time. *)
Theorem estimatedPoints_shows_awarded (kv : KV) (partnerId : JsVal) (s : obj) :
  s ∈ submissions (loadPartnerData kv partnerId) ->
  exists pointsAwarded estimate,
    get s "pointsAwarded" = JNum pointsAwarded
    /\ get s "estimatedPoints"
       = JNum (if num_truthy pointsAwarded then pointsAwarded else estimate)
    /\ ((exists visitKey record,
           s = visitSubmission partnerId visitKey record
           /\ pointsAwarded = pointsAwardedOf record (parsePayload record)
           /\ estimate = estimatedPointsValue record (parsePayload record))
        \/ (exists record,
              s = emailSubmission partnerId record
              /\ pointsAwarded = emailPointsAwarded record (parsePayload record)
              /\ estimate = emailEstimatedPoints record (parsePayload record))).
Proof.
  intros Hs%submissions_emitted.
  apply emitted_points in Hs as (pa & est & Hpa & Hep & _ & _ & Horigin).
  by exists pa, est.
Qed.

(** ** Averages (claim C7) *)

Lemma Math_round_nearest (x : Q) :
  exists z, Math_round (Fin x) = num_of_Z z
            /\ (x - (1 # 2) < inject_Z z)%Q
            /\ (inject_Z z <= x + (1 # 2))%Q.
Proof.
  exists (Qfloor (x + (1 # 2))). split; [done|].
  pose proof (Qfloor_le (x + (1 # 2))) as Hle.
  pose proof (Qlt_floor (x + (1 # 2))) as Hlt.
  rewrite inject_Z_plus in Hlt. change (inject_Z 1) with 1%Q in Hlt.
  split; lra.
Qed.

Lemma metrics_cases (kv : KV) (partnerId : JsVal) :
  exists t, metrics (loadPartnerData kv partnerId)
            = metricsOf (Z.of_nat (List.length (submissions (loadPartnerData kv partnerId)))) t.
Proof.
  destruct (loadPartnerData_cases kv partnerId) as [->|(pushed & -> & _)].
  - by exists noTotals.
  - by eexists.
Qed.

(** C7, as the code has it. Both averages are 0 for an empty ledger, the
    division being reached with a nonzero count only, and otherwise
    [Math.round] of the total over the count, where the division is the
    division of doubles: the quotient is the double nearest to the exact
    quotient, and the average is the integer nearest to that double, a tie
    going up. *)
Theorem averages_rounded_or_zero (kv : KV) (partnerId : JsVal) :
  let r := loadPartnerData kv partnerId in
  let m := metrics r in
  count m = Z.of_nat (List.length (submissions r))
  /\ (count m = 0 -> averageRevenue m = zero /\ averagePoints m = zero)
  /\ (count m <> 0 ->
      averageRevenue m = Math_round (num_div_count (revenue m) (count m))
      /\ averagePoints m = Math_round (num_div_count (points m) (count m)))
  /\ (forall total, count m <> 0 -> revenue m = Fin total ->
      num_div_count (revenue m) (count m) = round_double (total / inject_Z (count m)))
  /\ (forall total, count m <> 0 -> points m = Fin total ->
      num_div_count (points m) (count m) = round_double (total / inject_Z (count m)))
  /\ (forall quotient, count m <> 0 ->
      num_div_count (revenue m) (count m) = Fin quotient ->
      exists z, averageRevenue m = num_of_Z z
                /\ (quotient - (1 # 2) < inject_Z z)%Q
                /\ (inject_Z z <= quotient + (1 # 2))%Q)
  /\ (forall quotient, count m <> 0 ->
      num_div_count (points m) (count m) = Fin quotient ->
      exists z, averagePoints m = num_of_Z z
                /\ (quotient - (1 # 2) < inject_Z z)%Q
                /\ (inject_Z z <= quotient + (1 # 2))%Q).
Proof.
  intros r m. subst m r.
  destruct (metrics_cases kv partnerId) as [t ->].
  set (n := Z.of_nat _).
  cbn [metricsOf count averageRevenue averagePoints revenue points].
  split; [done|]. split; [|split; [|split; [|split; [|split]]]].
  - intros ->. done.
  - intros Hn. apply Z.eqb_neq in Hn. by rewrite Hn.
  - intros total Hn ->. apply Z.eqb_neq in Hn. cbn [num_div_count]. by rewrite Hn.
  - intros total Hn ->. apply Z.eqb_neq in Hn. cbn [num_div_count]. by rewrite Hn.
  - intros quotient Hn Hq. apply Z.eqb_neq in Hn. rewrite Hn, Hq.
    apply Math_round_nearest.
  - intros quotient Hn Hq. apply Z.eqb_neq in Hn. rewrite Hn, Hq.
    apply Math_round_nearest.
Qed.

(** ** No data (claim C8) *)

Lemma normalizePartnerId_falsy (partnerId : JsVal) :
  truthy partnerId = false -> normalizePartnerId partnerId = "".
Proof. intros H. unfold normalizePartnerId, js_or. by rewrite H. Qed.








(** ** Bonus redemptions (claim C6) *)

Lemma isBonusRedemption_ticket (s : obj) (t : string) :
  get s "ticket" = JStr t -> t <> "" ->
  isBonusRedemption s = true <-> toLowerCase t = "bonusreward".
Proof.
  intros Ht Hne.
  assert (truthy (JStr t) = true) as Htr.
  { cbn [truthy]. by destruct (String.eqb_spec t ""). }
  unfold isBonusRedemption, js_or. rewrite Ht, Htr, Htr. cbn [ToString].
  apply String.eqb_eq.
Qed.

Lemma isBonusRedemption_ticketType (s : obj) (t : string) :
  truthy (get s "ticket") = false -> get s "ticketType" = JStr t ->
  isBonusRedemption s = true <-> toLowerCase t = "bonusreward".
Proof.
  intros Hf Ht. unfold isBonusRedemption, js_or. rewrite Hf, Ht.
  destruct (truthy (JStr t)) eqn:Htr; cbn [ToString]; [apply String.eqb_eq|].
  cbn [truthy] in Htr. destruct (String.eqb_spec t "") as [->|]; [|done].
  apply String.eqb_eq.
Qed.

Lemma Legacy_isBonusRedemption_exact (s : obj) :
  Legacy.isBonusRedemption s = true <-> get s "ticket" = JStr "BonusReward".
Proof.
  unfold Legacy.isBonusRedemption. destruct (get s "ticket"); try (split; congruence).
  rewrite String.eqb_eq. split; congruence.
Qed.

(** C6, as the code has it. [bonusRedemptions] counts the visits whose
    [ticket] -- or [ticketType] when [ticket] is falsy -- reads
    [bonusreward] once lower-cased, so the match ignores letter case; only
    the older copy compares [ticket] with the exact literal. *)
Theorem bonusRedemptions_ignore_case (kv : KV) (partnerId : JsVal) :
  let r := loadPartnerData kv partnerId in
  bonusRedemptions (metrics r)
  = Z.of_nat (List.length (filter (fun s => isBonusRedemption s = true) (submissions r)))
  /\ (forall (s : obj) t, get s "ticket" = JStr t -> t <> "" ->
        isBonusRedemption s = true <-> toLowerCase t = "bonusreward")
  /\ (forall (s : obj) t, truthy (get s "ticket") = false ->
        get s "ticketType" = JStr t ->
        isBonusRedemption s = true <-> toLowerCase t = "bonusreward")
  /\ (forall s : obj,
        Legacy.isBonusRedemption s = true <-> get s "ticket" = JStr "BonusReward").
Proof.
  intros r. split; [|split; [|split]].
  - subst r. destruct (loadPartnerData_cases kv partnerId) as [->|(pushed & -> & _)];
      [done|].
    cbn [metrics summarize bonusRedemptions metricsOf submissions].
    by rewrite tally_bonus.
  - apply isBonusRedemption_ticket.
  - apply isBonusRedemption_ticketType.
  - apply Legacy_isBonusRedemption_exact.
Qed.

(** ** Payload decoding (claim C3) *)

Lemma spread2_lookup (a b : JsVal) (k : string) :
  spread2 a b !! k
  = match ownProps b !! k with
    | Some v => Some v
    | None => ownProps a !! k
    end.
Proof.
  unfold spread2. destruct (ownProps b !! k) as [v|] eqn:E.
  - by apply lookup_union_Some_l.
  - by rewrite lookup_union_r.
Qed.

Lemma parsePayload_decoded (record : obj) (payload : JsVal) (d : string) :
  decodes_to record payload ->
  getProp payload "data" = JStr d ->
  parsePayload record
  = if String.eqb d "" then payload
    else match JSON_parse d with
         | Some nested => JObj (spread2 payload nested)
         | None => payload
         end.
Proof.
  intros Hdec Hdata.
  assert (payload <> JUndef /\ payload <> JNull) as [Hu Hn].
  { split; intros ->; discriminate Hdata. }
  unfold parsePayload.
  destruct Hdec as [(s & -> & Hs & Hp)|(-> & Ht & Hstr)].
  - cbn [truthy]. destruct (String.eqb_spec s "") as [|_]; [done|]. cbn [negb].
    rewrite Hp, Hdata. cbn [truthy].
    destruct payload; try done; by destruct (String.eqb d "").
  - rewrite Ht.
    destruct payload; try done; rewrite Hdata; cbn [truthy];
      by destruct (String.eqb d "").
Qed.

End Ledger.

Section Decoding.
Context {rt : JsRuntime}.

Lemma parsePayload_nested (record : obj) (payload : JsVal) (d : string) :
  decodes_to record payload ->
  getProp payload "data" = JStr d ->
  (d = "" -> parsePayload record = payload)
  /\ (d <> "" -> JSON_parse d = None -> parsePayload record = payload)
  /\ (forall nested, d <> "" -> JSON_parse d = Some nested ->
        parsePayload record = JObj (spread2 payload nested)
        /\ (forall k, spread2 payload nested !! k
                      = match ownProps nested !! k with
                        | Some v => Some v
                        | None => ownProps payload !! k
                        end)
        /\ (forall k inner, ownProps nested !! k = Some inner ->
              getProp (parsePayload record) k = inner)).
Proof.
  intros Hdec Hdata. pose proof (parsePayload_decoded _ _ _ Hdec Hdata) as Hp.
  split; [|split].
  - intros ->. by rewrite Hp.
  - intros Hne Hnone. rewrite Hp, Hnone. by destruct (String.eqb_spec d "").
  - intros nested Hne Hsome. rewrite Hp, Hsome.
    destruct (String.eqb_spec d "") as [|_]; [done|].
    split; [done|]. split; [apply spread2_lookup|].
    intros k inner Hk. unfold getProp. cbn [ownProps].
    by rewrite spread2_lookup, Hk.
Qed.
End Decoding.

(** C3, as the code has it. When the decoded payload has a non-empty string
    [data], [parsePayload] parses it and spreads the nested keys over the
    outer ones: on a key present in both the nested value wins.  A nested
    parse that fails, or an empty [data], leaves the outer payload as it
    is.  The double-encoded scenario decodes to [ticket] "VIP" and
    [totalPrice] 500. *)
Theorem parsePayload_nested_overrides :
  (forall (rt : JsRuntime) (record : obj) (payload : JsVal) (d : string),
      decodes_to record payload ->
      getProp payload "data" = JStr d ->
      (d = "" -> parsePayload record = payload)
      /\ (d <> "" -> JSON_parse d = None -> parsePayload record = payload)
      /\ (forall nested, d <> "" -> JSON_parse d = Some nested ->
            parsePayload record = JObj (spread2 payload nested)
            /\ (forall k, spread2 payload nested !! k
                          = match ownProps nested !! k with
                            | Some v => Some v
                            | None => ownProps payload !! k
                            end)
            /\ (forall k inner, ownProps nested !! k = Some inner ->
                  getProp (parsePayload record) k = inner)))
  /\ (let decoded := @parsePayload node {[ "payload" := JStr doubleEncoded ]} in
      getProp decoded "ticket" = JStr "VIP"
      /\ getProp decoded "totalPrice" = JNum (num_of_Z 500)).
Proof.
  split.
  - intros rt. apply parsePayload_nested.
  - by vm_compute.
Qed.

Lemma parsePayload_outer_key_loses :
  getProp (get shadowedRecord "payload") "ticket" = JStr "STD"
  /\ getProp (@parsePayload node shadowedRecord) "ticket" = JStr "VIP"
  /\ getProp (@parsePayload node shadowedRecord) "ticket"
     <> getProp (get shadowedRecord "payload") "ticket".
Proof. vm_compute. repeat split; congruence. Qed.

Lemma parsePayload_nested_overrides_witness :
  @parsePayload node shadowedRecord
  = JObj (spread2 (get shadowedRecord "payload") (JObj {[ "ticket" := JStr "VIP" ]})).
Proof.
  refine (proj1 (proj2 (proj2
            (proj1 parsePayload_nested_overrides node shadowedRecord
               (get shadowedRecord "payload")
               ("{" +:+ quoted "ticket" +:+ ":" +:+ quoted "VIP" +:+ "}") _ _))
            (JObj {[ "ticket" := JStr "VIP" ]}) _ _)).
  - right. by vm_compute.
  - by vm_compute.
  - by vm_compute.
  - by vm_compute.
Defined.

(** ** Keys of the pattern [qr:<email>:<partnerId>:<visitId>] *)

Lemma chars_app (a b : string) : chars (a +:+ b) = chars a ++ chars b.
Proof.
  unfold chars. induction a as [|c a IH]; [done|].
  change (list_ascii_of_string (String c a +:+ b))
    with (c :: list_ascii_of_string (a +:+ b)).
  by rewrite IH.
Qed.

Lemma chars_nonempty (s : string) :
  str_nonempty s = true -> exists c l, chars s = c :: l.
Proof. destruct s as [|c s]; [done|]. intros _. by exists c, (chars s). Qed.

Lemma span_no_colon_stop (g rest : list ascii) :
  forallb (fun c => negb (is_colon c)) g = true ->
  span_no_colon (g ++ ":"%char :: rest) = (g, ":"%char :: rest).
Proof.
  induction g as [|c g IH]; intros H; [done|].
  cbn in H. apply andb_prop in H as [Hc Hg].
  cbn. destruct (is_colon c); [done|]. by rewrite (IH Hg).
Qed.

Lemma visitKeyMatch_triple (email partner visitId : string) :
  no_colon email = true -> no_colon partner = true -> one_line visitId = true ->
  visitKeyMatch (visitKeyOf email partner visitId) = Some (email, partner, visitId).
Proof.
  intros [He1 He2]%andb_prop [Hp1 Hp2]%andb_prop [Hv1 Hv2]%andb_prop.
  unfold visitKeyMatch, visitKeyOf. rewrite !chars_app.
  change (chars "qr:") with ["q"%char; "r"%char; ":"%char].
  change (chars ":") with [":"%char]. cbn [app].
  rewrite (span_no_colon_stop _ _ He2).
  destruct (chars_nonempty _ He1) as (c1 & l1 & E1).
  destruct (chars_nonempty _ Hp1) as (c2 & l2 & E2).
  destruct (chars_nonempty _ Hv1) as (c3 & l3 & E3).
  rewrite E1. rewrite (span_no_colon_stop _ _ Hp2). rewrite E2, E3.
  rewrite <- E3, Hv2, <- E1, <- E2.
  unfold chars. by rewrite !string_of_list_ascii_of_string.
Qed.

(** ** One visit per key, legacy record merged underneath (claim C1) *)

Lemma str_mem_elem (s : string) (l : list string) : str_mem s l = true <-> s ∈ l.
Proof.
  unfold str_mem. induction l as [|x l IH]; cbn [existsb].
  - split; [done|]. by intros ?%elem_of_nil.
  - rewrite orb_true_iff, IH, String.eqb_eq, elem_of_cons. done.
Qed.

Lemma set_add_NoDup (s : string) (l : list string) : NoDup l -> NoDup (set_add s l).
Proof.
  intros H. unfold set_add. destruct (str_mem s l) eqn:E; [done|].
  apply NoDup_app. split; [done|]. split; [|apply NoDup_singleton].
  intros x Hx ->%list_elem_of_singleton.
  apply str_mem_elem in Hx. congruence.
Qed.

Lemma addMembers_NoDup (kv : KV) (acc : list string) (key : string) :
  NoDup acc -> NoDup (addMembers kv acc key).
Proof.
  unfold addMembers. destruct (smembers kv key) as [members|]; [|done].
  revert acc. induction members as [|m members IH]; intros acc H; [done|].
  cbn [foldl]. apply IH. destruct (is_visit_member m); [by apply set_add_NoDup|done].
Qed.

Section OneVisit.
Context {rt : JsRuntime}.

Lemma visitRecordKeysOf_NoDup (kv : KV) (partnerId : JsVal) :
  NoDup (visitRecordKeysOf kv partnerId).
Proof.
  unfold visitRecordKeysOf.
  assert (forall keys acc, NoDup acc -> NoDup (foldl (addMembers kv) acc keys)) as H.
  { induction keys as [|k keys IH]; intros acc Hacc; [done|].
    cbn [foldl]. by apply IH, addMembers_NoDup. }
  apply H, NoDup_nil_2.
Qed.

Lemma visitSetKeysOf_falsy (partnerId : JsVal) :
  truthy partnerId = false -> visitSetKeysOf partnerId = [].
Proof.
  intros H. unfold visitSetKeysOf. rewrite (normalizePartnerId_falsy _ H).
  unfold addVisitKeyVariant. by rewrite H.
Qed.

Lemma has_qrKey_visitSubmission (partnerId : JsVal) (visitKey key : string)
    (record : obj) :
  has_qrKey key (visitSubmission partnerId visitKey record) = true <-> key = visitKey.
Proof.
  unfold has_qrKey, visitSubmission. rewrite get_objAssign.
  cbn [assigned String.eqb Ascii.eqb Bool.eqb strict_eq_str].
  rewrite String.eqb_eq. split; congruence.
Qed.

Lemma visitFromKey_qrKey (kv : KV) (partnerId : JsVal) (visitKey key : string)
    (s : obj) :
  visitFromKey kv partnerId visitKey = Some s ->
  has_qrKey key s = true <-> key = visitKey.
Proof.
  unfold visitFromKey. destruct (recordForKey _ _ _) as [record|]; [|done].
  destruct (obj_is_empty record); [done|]. intros [= <-].
  apply has_qrKey_visitSubmission.
Qed.

Lemma filter_visits_absent (kv : KV) (partnerId : JsVal) (key : string)
    (keys : list string) :
  key ∉ keys ->
  filter (fun s => has_qrKey key s = true) (omap (visitFromKey kv partnerId) keys) = [].
Proof.
  induction keys as [|k keys IH]; intros Hk; [done|].
  apply not_elem_of_cons in Hk as [Hne Hk]. cbn [omap list_omap].
  destruct (visitFromKey kv partnerId k) as [s|] eqn:E; [|by apply IH].
  rewrite filter_cons_False; [by apply IH|].
  by rewrite (visitFromKey_qrKey _ _ _ key _ E).
Qed.

Lemma filter_visits_present (kv : KV) (partnerId : JsVal) (key : string)
    (keys : list string) (s : obj) :
  NoDup keys -> key ∈ keys -> visitFromKey kv partnerId key = Some s ->
  filter (fun s => has_qrKey key s = true) (omap (visitFromKey kv partnerId) keys) = [s].
Proof.
  intros Hnd Hin Hs. induction keys as [|k keys IH]; [by apply elem_of_nil in Hin|].
  apply NoDup_cons in Hnd as [Hk Hnd]. cbn [omap list_omap].
  destruct (decide (key = k)) as [<-|Hne].
  - rewrite Hs. rewrite filter_cons_True
      by (by rewrite (visitFromKey_qrKey _ _ _ key _ Hs)).
    by rewrite filter_visits_absent.
  - apply elem_of_cons in Hin as [?|Hin]; [done|].
    destruct (visitFromKey kv partnerId k) as [s'|] eqn:E; [|by apply IH].
    rewrite filter_cons_False; [by apply IH|].
    by rewrite (visitFromKey_qrKey _ _ _ key _ E).
Qed.

(** With a record key of the partner's visit sets, the ledger is the
    sorted list of the visit-set submissions. *)
Lemma loadPartnerData_visits (kv : KV) (partnerId : JsVal) (key : string) (s : obj) :
  key ∈ visitRecordKeysOf kv partnerId ->
  visitFromKey kv partnerId key = Some s ->
  loadPartnerData kv partnerId = summarize partnerId (visitSubmissions kv partnerId).
Proof.
  intros Hin Hs. unfold loadPartnerData.
  destruct (truthy partnerId) eqn:Ht.
  - rewrite andb_false_r.
    destruct (visitSubmissions kv partnerId) as [|s0 rest] eqn:E; [|done].
    assert (s ∈ visitSubmissions kv partnerId) as Hmem.
    { unfold visitSubmissions. apply list_elem_of_omap. by exists key. }
    rewrite E in Hmem. by apply elem_of_nil in Hmem.
  - unfold visitRecordKeysOf in Hin. rewrite (visitSetKeysOf_falsy _ Ht) in Hin.
    by apply elem_of_nil in Hin.
Qed.

Lemma visit_emitted_once (kv : KV) (partnerId : JsVal) (key : string) (s : obj) :
  key ∈ visitRecordKeysOf kv partnerId ->
  visitFromKey kv partnerId key = Some s ->
  filter (fun s => has_qrKey key s = true) (submissions (loadPartnerData kv partnerId))
  = [s].
Proof.
  intros Hin Hs. rewrite (loadPartnerData_visits _ _ _ _ Hin Hs).
  cbn [submissions summarize]. apply Permutation_singleton_r.
  rewrite Array_sort_perm. unfold visitSubmissions.
  by rewrite (filter_visits_present _ _ _ _ _ (visitRecordKeysOf_NoDup kv partnerId) Hin Hs).
Qed.

Lemma recordForKey_merge (kv : KV) (visitKey email : string) (current legacy : obj) :
  email <> "" ->
  hgetall kv visitKey = Some (Some current) -> current <> ∅ ->
  hgetall kv ("qr:email:" +:+ email) = Some (Some legacy) -> legacy <> ∅ ->
  recordForKey kv visitKey email = Some (current ∪ legacy).
Proof.
  intros He Hc Hcne Hl Hlne. unfold recordForKey, loadRecordFromKey.
  rewrite Hc, Hl. unfold is_filled, obj_is_empty.
  rewrite !bool_decide_eq_false_2 by done. cbn [negb].
  unfold str_nonempty. by destruct (String.eqb_spec email "").
Qed.

Lemma merged_lookup (current legacy : obj) (field : string) :
  (current ∪ legacy) !! field
  = match current !! field with
    | Some v => Some v
    | None => legacy !! field
    end.
Proof. apply (spread2_lookup (JObj legacy) (JObj current)). Qed.

Lemma visit_of_merged_union (kv : KV) (partnerId : JsVal)
    (email partner visitId : string) (current legacy : obj) :
  no_colon email = true -> no_colon partner = true -> one_line visitId = true ->
  let visitKey := visitKeyOf email partner visitId in
  visitKey ∈ visitRecordKeysOf kv partnerId ->
  hgetall kv visitKey = Some (Some current) -> current <> ∅ ->
  hgetall kv ("qr:email:" +:+ email) = Some (Some legacy) -> legacy <> ∅ ->
  filter (fun s => has_qrKey visitKey s = true)
    (submissions (loadPartnerData kv partnerId))
  = [visitSubmission partnerId visitKey (current ∪ legacy)].
Proof.
  intros He Hp Hv visitKey Hin Hc Hcne Hl Hlne.
  apply visit_emitted_once; [done|].
  unfold visitFromKey, visitEmailFromKey. subst visitKey.
  rewrite (visitKeyMatch_triple _ _ _ He Hp Hv).
  assert (email <> "") as Hne.
  { apply andb_prop in He as [He _]. unfold str_nonempty in He.
    by destruct (String.eqb_spec email ""). }
  rewrite (recordForKey_merge _ _ _ _ _ Hne Hc Hcne Hl Hlne).
  unfold obj_is_empty. rewrite bool_decide_eq_false_2; [done|].
  intros Hempty. apply Hcne. apply map_eq. intros i.
  pose proof (merged_lookup current legacy i) as Hi. rewrite Hempty in Hi.
  rewrite lookup_empty in Hi |- *. by destruct (current !! i).
Qed.

Lemma js_or_l (a b : JsVal) : truthy a = true -> a <||> b = a.
Proof. intros H. unfold js_or. by rewrite H. Qed.

(** A truthy value of the record is the value of the visit, for the fields
    that are read from the record first. *)
Lemma visitSubmission_record_first (partnerId : JsVal) (visitKey : string)
    (record : obj) (field : string) :
  field ∈ recordFirstFields -> truthy (get record field) = true ->
  get (visitSubmission partnerId visitKey record) field = get record field.
Proof.
  intros Hf Ht. unfold visitSubmission. cbv zeta. rewrite get_objAssign.
  unfold recordFirstFields in Hf.
  repeat (apply elem_of_cons in Hf as [->|Hf]);
    [..|by apply elem_of_nil in Hf];
    cbn [assigned String.eqb Ascii.eqb Bool.eqb]; unfold createdAtOf;
    by rewrite !(js_or_l _ _ Ht).
Qed.

Lemma visit_of_merged_record (kv : KV) (partnerId : JsVal)
    (email partner visitId : string) (current legacy : obj) :
  no_colon email = true -> no_colon partner = true -> one_line visitId = true ->
  let visitKey := visitKeyOf email partner visitId in
  visitKey ∈ visitRecordKeysOf kv partnerId ->
  hgetall kv visitKey = Some (Some current) -> current <> ∅ ->
  hgetall kv ("qr:email:" +:+ email) = Some (Some legacy) -> legacy <> ∅ ->
  exists merged,
    (forall field, merged !! field
                   = match current !! field with
                     | Some v => Some v
                     | None => legacy !! field
                     end)
    /\ filter (fun s => has_qrKey visitKey s = true)
         (submissions (loadPartnerData kv partnerId))
       = [visitSubmission partnerId visitKey merged]
    /\ (forall field v, field ∈ recordFirstFields -> truthy v = true ->
          current !! field = Some v
          \/ (current !! field = None /\ legacy !! field = Some v) ->
          get (visitSubmission partnerId visitKey merged) field = v).
Proof.
  intros He Hp Hv visitKey Hin Hc Hcne Hl Hlne.
  exists (current ∪ legacy). split; [apply merged_lookup|]. split.
  - by apply (visit_of_merged_union kv partnerId email partner visitId).
  - intros field v Hf Ht Hv'.
    assert (get (current ∪ legacy) field = v) as Hget.
    { unfold get. rewrite merged_lookup. by destruct Hv' as [-> |[-> ->]]. }
    rewrite visitSubmission_record_first; [done|done|by rewrite Hget].
Qed.
End OneVisit.

(** C1, as the code has it. A triple whose key is a member of the
    partner's visit sets, with a record under that key and a legacy record
    under [qr:email:<email>], gives exactly one visit.  The visit is built
    from the merged record, which has the current record's value for every
    field the current record defines and the legacy value for the others;
    for the fields that a visit reads from the record first, a truthy
    value of the current record -- or, where the current record has none,
    of the legacy record -- is the value of the visit.  In the scenario the
    single visit has [totalPrice] 100 and [visited] true. *)
Theorem legacy_merged_under_current :
  (forall (rt : JsRuntime) (kv : KV) (partnerId : JsVal)
          (email partner visitId : string) (current legacy : obj),
      no_colon email = true -> no_colon partner = true -> one_line visitId = true ->
      let visitKey := visitKeyOf email partner visitId in
      visitKey ∈ visitRecordKeysOf kv partnerId ->
      hgetall kv visitKey = Some (Some current) -> current <> ∅ ->
      hgetall kv ("qr:email:" +:+ email) = Some (Some legacy) -> legacy <> ∅ ->
      exists merged,
        (forall field, merged !! field
                       = match current !! field with
                         | Some v => Some v
                         | None => legacy !! field
                         end)
        /\ filter (fun s => has_qrKey visitKey s = true)
             (submissions (loadPartnerData kv partnerId))
           = [visitSubmission partnerId visitKey merged]
        /\ (forall field v, field ∈ recordFirstFields -> truthy v = true ->
              current !! field = Some v
              \/ (current !! field = None /\ legacy !! field = Some v) ->
              get (visitSubmission partnerId visitKey merged) field = v))
  /\ map (fun visit => (get visit "totalPrice", get visit "visited"))
       (submissions (@loadPartnerData node mergeStore (JStr "P1")))
     = [(JNum (num_of_Z 100), JBool true)].
Proof.
  split.
  - intros rt. apply visit_of_merged_record.
  - by vm_compute.
Qed.

(** On [priceStore] the current record defines [totalPrice] 50, yet the
    visit has the 100 of the legacy record's payload; and the [note] that
    only the legacy record defines is no field of the visit. *)
Lemma visit_fields_are_not_the_union :
  hgetall priceStore "qr:a@x.com:P1:v1"
  = Some (Some {[ "totalPrice" := JNum (num_of_Z 50) ]})
  /\ hgetall priceStore "qr:email:a@x.com"
     = Some (Some {[ "payload" := JObj {[ "totalPrice" := JNum (num_of_Z 100) ]};
                     "note" := JStr "legacy" ]})
  /\ map (fun visit => (get visit "totalPrice", get visit "note"))
       (submissions (@loadPartnerData node priceStore (JStr "P1")))
     = [(JNum (num_of_Z 100), JUndef)]
  /\ ~ (forall visit, visit ∈ submissions (@loadPartnerData node priceStore (JStr "P1")) ->
          get visit "totalPrice" = JNum (num_of_Z 50)
          /\ get visit "note" = JStr "legacy").
Proof.
  assert (map (fun visit => (get visit "totalPrice", get visit "note"))
            (submissions (@loadPartnerData node priceStore (JStr "P1")))
          = [(JNum (num_of_Z 100), JUndef)]) as E by (by vm_compute).
  split; [reflexivity|]. split; [reflexivity|]. split; [exact E|].
  intros H.
  destruct (submissions (@loadPartnerData node priceStore (JStr "P1"))) as [|visit rest];
    [discriminate E|].
  destruct (H visit (list_elem_of_here _ _)) as [_ Hnote].
  cbn [map] in E. injection E as _ Enote _. rewrite Hnote in Enote. discriminate Enote.
Qed.

Lemma legacy_merged_under_current_witness :
  exists merged : obj,
    (forall field,
        merged !! field
        = match ({[ "visited" := JBool true; "visitedAt" := JStr "2024-01-01" ]} : obj) !! field with
          | Some v => Some v
          | None => ({[ "totalPrice" := JNum (num_of_Z 100) ]} : obj) !! field
          end)
    /\ filter (fun s => has_qrKey (visitKeyOf "a@x.com" "P1" "v1") s = true)
         (submissions (@loadPartnerData node mergeStore (JStr "P1")))
       = [@visitSubmission node (JStr "P1") (visitKeyOf "a@x.com" "P1" "v1") merged]
    /\ (forall field v, field ∈ recordFirstFields -> truthy v = true ->
          ({[ "visited" := JBool true; "visitedAt" := JStr "2024-01-01" ]} : obj) !! field
          = Some v
          \/ (({[ "visited" := JBool true; "visitedAt" := JStr "2024-01-01" ]} : obj) !! field
              = None
              /\ ({[ "totalPrice" := JNum (num_of_Z 100) ]} : obj) !! field = Some v) ->
          get (@visitSubmission node (JStr "P1") (visitKeyOf "a@x.com" "P1" "v1") merged)
            field = v).
Proof.
  apply (proj1 legacy_merged_under_current node mergeStore (JStr "P1")
           "a@x.com" "P1" "v1").
  - reflexivity.
  - reflexivity.
  - reflexivity.
  - vm_compute. constructor.
  - reflexivity.
  - intros H. apply (f_equal (fun m : obj => m !! "visited")) in H. discriminate H.
  - reflexivity.
  - intros H. apply (f_equal (fun m : obj => m !! "totalPrice")) in H. discriminate H.
Defined.

(** ** Order of the ledger (claim C4) *)

Lemma Qnum_pos (q : Q) : 0 < Qnum q <-> (0 < q)%Q.
Proof. unfold Qlt. cbn. lia. Qed.

Lemma round_half_even_lower (num den : Z) :
  0 < den -> num / den <= round_half_even num den.
Proof.
  intros Hden. unfold round_half_even.
  destruct (2 * (num mod den) ?= den); [destruct (Z.even (num / den))|..]; lia.
Qed.

(** An integer that is at least 1 is rounded to a positive double. *)
Lemma round_pos_integer (n : Z) :
  1 <= n ->
  match round_pos n 1 with
  | Some x => 0 < Qnum x
  | None => True
  end.
Proof.
  intros Hn. unfold round_pos. set (u := ulp_exponent n 1).
  destruct (0 <=? u) eqn:Eu.
  - apply Z.leb_le in Eu.
    assert (u <= Z.log2 n) as Hu.
    { subst u. unfold ulp_exponent in *. change (Z.log2 1) with 0 in *.
      destruct (if 0 <=? Z.log2 n - 0 then _ else _); lia. }
    assert (2 ^ u <= n) as Hpow.
    { etransitivity; [apply Z.pow_le_mono_r; [lia|exact Hu]|].
      apply Z.log2_spec. lia. }
    assert (0 < 2 ^ u) as Hpos by (apply Z.pow_pos_nonneg; lia).
    pose proof (round_half_even_lower n (1 * 2 ^ u) ltac:(lia)) as Hk.
    assert (1 <= n / (1 * 2 ^ u)) as Hq.
    { apply Z.div_le_lower_bound; lia. }
    destruct (2 ^ 1024 <=? _); [done|]. cbn [Qnum inject_Z]. nia.
  - apply Z.leb_gt in Eu.
    assert (0 < 2 ^ (- u)) as Hpos by (apply Z.pow_pos_nonneg; lia).
    pose proof (round_half_even_lower (n * 2 ^ (- u)) 1 ltac:(lia)) as Hk.
    rewrite Z.div_1_r in Hk.
    apply Qnum_pos. rewrite Qred_correct. apply Qnum_pos. cbn [Qnum]. nia.
Qed.

Lemma round_pos_nonneg (n d : Z) :
  0 <= n -> 0 < d ->
  match round_pos n d with
  | Some x => 0 <= Qnum x
  | None => True
  end.
Proof.
  intros Hn Hd. unfold round_pos. set (u := ulp_exponent n d).
  destruct (0 <=? u) eqn:Eu.
  - apply Z.leb_le in Eu.
    assert (0 < 2 ^ u) as Hpos by (apply Z.pow_pos_nonneg; lia).
    pose proof (round_half_even_lower n (d * 2 ^ u) ltac:(nia)) as Hk.
    pose proof (Z.div_pos n (d * 2 ^ u) Hn ltac:(nia)) as Hq.
    destruct (2 ^ 1024 <=? _); [done|]. cbn [Qnum inject_Z]. nia.
  - apply Z.leb_gt in Eu.
    assert (0 < 2 ^ (- u)) as Hpos by (apply Z.pow_pos_nonneg; lia).
    pose proof (round_half_even_lower (n * 2 ^ (- u)) d Hd) as Hk.
    pose proof (Z.div_pos (n * 2 ^ (- u)) d ltac:(nia) Hd) as Hq.
    assert (0 <= Qred (round_half_even (n * 2 ^ (- u)) d # Z.to_pos (2 ^ (- u))))%Q as H.
    { rewrite Qred_correct. unfold Qle. cbn. lia. }
    unfold Qle in H. cbn in H. lia.
Qed.

(** The rounding at known values: 0.1, 0.1 + 0.2, 1/3, the tie at
    2^53 + 1 (down to even) and at 2^53 + 3 (up to even), half the
    smallest subnormal (a tie, to zero) and three quarters of it, the
    largest double, and the two sides of the overflow threshold. *)
Lemma round_double_samples :
  round_double (1 # 10) = Fin (3602879701896397 # 36028797018963968)
  /\ num_add (round_double (1 # 10)) (round_double (2 # 10))
     = Fin (1351079888211149 # 4503599627370496)
  /\ round_double (3 # 10) = Fin (5404319552844595 # 18014398509481984)
  /\ round_double (1 # 3) = Fin (6004799503160661 # 18014398509481984)
  /\ round_double (inject_Z (2 ^ 53 + 1)) = Fin (inject_Z (2 ^ 53))
  /\ round_double (inject_Z (2 ^ 53 + 3)) = Fin (inject_Z (2 ^ 53 + 4))
  /\ round_double (1 # Z.to_pos (2 ^ 1075)) = Fin 0
  /\ round_double (3 # Z.to_pos (2 ^ 1076)) = Fin (1 # Z.to_pos (2 ^ 1074))
  /\ round_double (inject_Z (2 ^ 1024 - 2 ^ 971)) = Fin (inject_Z (2 ^ 1024 - 2 ^ 971))
  /\ round_double (inject_Z (2 ^ 1024 - 2 ^ 970 - 1)) = Fin (inject_Z (2 ^ 1024 - 2 ^ 971))
  /\ round_double (inject_Z (2 ^ 1024 - 2 ^ 970)) = PInf
  /\ round_double (- (1 # 10)) = Fin (- 3602879701896397 # 36028797018963968)
  /\ round_double (- inject_Z (2 ^ 1024)) = NInf.
Proof. repeat split; vm_compute; reflexivity. Qed.

(** The sign of a rounded integer is the sign of the integer: the sort
    reads the right sign off the difference of two time values. *)
Lemma round_double_integer_pos (q : Q) :
  Qden q = 1%positive -> num_pos (round_double q) = true <-> 0 < Qnum q.
Proof.
  intros Hden. unfold round_double. rewrite Hden.
  destruct (Qnum q ?= 0) eqn:E.
  - apply Z.compare_eq in E. rewrite E. cbn. lia.
  - rewrite Z.compare_lt_iff in E.
    assert (0 <= - Qnum q) as Hneg by lia.
    pose proof (round_pos_nonneg (- Qnum q) 1 Hneg eq_refl) as H.
    destruct (round_pos (- Qnum q) 1) as [x|]; cbn [num_pos]; [|split; [done|lia]].
    split; [|lia]. intros Hx%Z.ltb_lt. apply Qnum_pos in Hx.
    rewrite Qred_correct in Hx. assert (0 <= x)%Q by (unfold Qle; cbn; lia). lra.
  - rewrite Z.compare_gt_iff in E.
    assert (1 <= Qnum q) as Hone by lia.
    pose proof (round_pos_integer (Qnum q) Hone) as H.
    destruct (round_pos (Qnum q) 1) as [x|]; cbn [num_pos]; [|split; [lia|done]].
    split; [lia|]. intros _. by apply Z.ltb_lt.
Qed.

Lemma num_pos_sub (a b : Z) :
  num_pos (num_sub (num_of_Z b) (num_of_Z a)) = true <-> a < b.
Proof.
  unfold num_sub, num_of_Z. rewrite round_double_integer_pos by reflexivity.
  cbn [Qnum Qminus Qplus Qopp inject_Z Qden]. lia.
Qed.

Section Order.
Context {rt : JsRuntime}.

Lemma getTime_cases (v : JsVal) : getTime v = NaN \/ exists z, getTime v = num_of_Z z.
Proof. unfold getTime. destruct (match v with JStr _ => _ | _ => _ end); eauto. Qed.

Lemma byCreatedAtDesc_key (a b : obj) :
  createdTime a <> NaN -> createdTime b <> NaN ->
  num_pos (byCreatedAtDesc a b) = true <-> createdMillis a < createdMillis b.
Proof.
  intros Ha Hb. unfold byCreatedAtDesc, createdMillis.
  destruct (getTime_cases (get a "createdAt" <||> JNum zero)) as [?|[za Hza]]; [done|].
  destruct (getTime_cases (get b "createdAt" <||> JNum zero)) as [?|[zb Hzb]]; [done|].
  unfold createdTime in *. rewrite Hza, Hzb. unfold num_of_Z at 3 4.
  rewrite !Qfloor_Z. apply num_pos_sub.
Qed.

Lemma missing_createdAt_is_epoch (s : obj) :
  truthy (get s "createdAt") = false -> createdTime s = zero /\ createdMillis s = 0.
Proof.
  intros H. unfold createdMillis, createdTime, js_or. rewrite H. by vm_compute.
Qed.

(** C4, as the code has it. When every visit's [createdAt] is missing or
    parses to a date, the ledger is in descending order of that time, a
    missing [createdAt] counting as epoch 0. *)
Theorem submissions_sorted_when_dates_valid (kv : KV) (partnerId : JsVal) :
  let r := loadPartnerData kv partnerId in
  (forall s, s ∈ submissions r -> createdTime s <> NaN) ->
  StronglySorted (fun a b => createdMillis b <= createdMillis a) (submissions r)
  /\ (forall s, s ∈ submissions r -> truthy (get s "createdAt") = false ->
        createdTime s = zero /\ createdMillis s = 0).
Proof.
  intros r Hvalid. split; [|intros s _; apply missing_createdAt_is_epoch].
  subst r. destruct (loadPartnerData_cases kv partnerId) as [E|(pushed & E & _)];
    rewrite E in Hvalid |- *; [constructor|].
  cbn [submissions summarize] in Hvalid |- *.
  apply (Array_sort_sorted byCreatedAtDesc createdMillis (fun s => createdTime s <> NaN)).
  - intros x y. apply byCreatedAtDesc_key.
  - apply Forall_forall. intros s Hs. apply Hvalid. by rewrite Array_sort_perm.
Qed.
End Order.

Lemma StronglySorted_map {X : Type} (f : X -> Z) (l : list X) :
  StronglySorted (fun a b => f b <= f a) l ->
  StronglySorted (fun x y => y <= x) (map f l).
Proof.
  induction 1 as [|a l Hs IH Hall]; [constructor|].
  cbn [map]. constructor; [done|].
  apply Forall_forall. intros z (b & -> & Hb)%list_elem_of_fmap.
  rewrite Forall_forall in Hall. by apply Hall.
Qed.

(** The ledger of [sortStore] comes out as 2024, invalid, 2025: it is not in
    descending order, whether or not the invalid date is read as epoch 0.
    In the ledger of [preEpochStore] the visit without a date, read as
    epoch 0, comes first and not last. *)
Lemma invalid_date_breaks_order :
  map (fun s => get s "createdAt") (submissions (@loadPartnerData node sortStore (JStr "p1")))
  = [JStr "2024-01-01"; JStr "garbage"; JStr "2025-01-01"]
  /\ ~ StronglySorted (fun a b => @createdMillis node b <= @createdMillis node a)
         (submissions (@loadPartnerData node sortStore (JStr "p1")))
  /\ map (fun s => get s "createdAt")
       (submissions (@loadPartnerData node preEpochStore (JStr "p1")))
     = [JNull; JStr "1969-12-31"].
Proof.
  split; [by vm_compute|]. split; [|by vm_compute].
  intros H%StronglySorted_map.
  assert (map (@createdMillis node) (submissions (@loadPartnerData node sortStore (JStr "p1")))
          = [1704067200000; 0; 1735689600000]) as E by (by vm_compute).
  rewrite E in H. inversion H as [|? ? _ Hall]; subst.
  inversion Hall as [|? ? _ Hall']; subst. inversion Hall' as [|? ? Hle _]; subst. lia.
Qed.

Lemma submissions_sorted_when_dates_valid_witness :
  map (fun s => get s "createdAt")
    (submissions (@loadPartnerData node datedStore (JStr "p1")))
  = [JStr "2025-01-01"; JStr "2024-01-01"; JNull]
  /\ StronglySorted (fun a b => @createdMillis node b <= @createdMillis node a)
       (submissions (@loadPartnerData node datedStore (JStr "p1"))).
Proof.
  split; [by vm_compute|].
  refine (proj1 (@submissions_sorted_when_dates_valid node datedStore (JStr "p1") _)).
  intros s Hs.
  assert (map (@createdTime node)
            (submissions (@loadPartnerData node datedStore (JStr "p1")))
          = [num_of_Z 1735689600000; num_of_Z 1704067200000; zero]) as E
    by (by vm_compute).
  assert (@createdTime node s
          ∈ [num_of_Z 1735689600000; num_of_Z 1704067200000; zero]) as Hin.
  { rewrite <- E. apply list_elem_of_fmap. exists s. split; [reflexivity|exact Hs]. }
  clear E Hs. rewrite !elem_of_cons in Hin.
  destruct Hin as [H|[H|[H|H]]]; [by rewrite H..|by apply elem_of_nil in H].
Defined.

(** ** The two copies (claim C9) *)

Section Copies.
Context {rt : JsRuntime}.

Lemma emailVisits_same_length (kv : KV) (partnerId : JsVal) (emails : list string) :
  List.length (omap (emailVisit kv partnerId) emails)
  = List.length (omap (Legacy.emailVisit kv partnerId) emails).
Proof.
  induction emails as [|e emails IH]; [done|]. cbn [omap list_omap].
  unfold emailVisit at 1, Legacy.emailVisit at 1.
  destruct (hgetall kv ("qr:email:" +:+ e)) as [[record|]|]; try done.
  destruct (truthy (get record "email")); [|done]. cbn [List.length]. by rewrite IH.
Qed.

Lemma get_union_r (a b : obj) (k : string) : a !! k = None -> get (a ∪ b) k = get b k.
Proof. intros H. unfold get. by rewrite lookup_union_r. Qed.

Lemma emailSubmissions_shared (id : JsVal) (record : obj) (k : string) :
  k ∈ sharedFields -> ownProps (parsePayload record) !! k = None ->
  get (emailSubmission id record) k = get (Legacy.emailSubmission id record) k.
Proof.
  intros Hk Hp. unfold emailSubmission, Legacy.emailSubmission. cbv zeta.
  rewrite (get_union_r _ _ _ Hp), !get_objAssign. unfold sharedFields in Hk.
  repeat (apply elem_of_cons in Hk as [->|Hk]); [..|by apply elem_of_nil in Hk];
    by cbn [assigned String.eqb Ascii.eqb Bool.eqb].
Qed.

(** C9, as the code has it. When the visit sets give no submission, both
    copies read the same legacy email records and push a visit for the same
    emails: they return the same [partnerId] and the same [metrics.count],
    and the same result altogether when that count is 0.  The two visits
    built from one record agree on [partnerId], [email], [totalPrice] and
    [originalPayload] wherever the payload has no key of that name. *)
Theorem copies_agree_without_visit_sets (kv : KV) (id : JsVal) :
  visitSubmissions kv id = [] ->
  let current := loadPartnerData kv id in
  let older := Legacy.loadPartnerData kv id in
  partnerId current = partnerId older
  /\ count (metrics current) = count (metrics older)
  /\ (count (metrics current) = 0 -> current = older)
  /\ (forall email, is_Some (emailVisit kv id email)
                    <-> is_Some (Legacy.emailVisit kv id email))
  /\ (forall email record,
        hgetall kv ("qr:email:" +:+ email) = Some (Some record) ->
        truthy (get record "email") = true ->
        emailVisit kv id email = Some (emailSubmission id record)
        /\ Legacy.emailVisit kv id email = Some (Legacy.emailSubmission id record)
        /\ (forall k, k ∈ sharedFields -> ownProps (parsePayload record) !! k = None ->
              get (emailSubmission id record) k
              = get (Legacy.emailSubmission id record) k)).
Proof.
  intros Hv current older. subst current older.
  split; [|split; [|split; [|split]]].
  - unfold loadPartnerData, Legacy.loadPartnerData. rewrite Hv.
    destruct (_ && _); [done|].
    by destruct (memberEmails kv (emailSetKeys id)).
  - unfold loadPartnerData, Legacy.loadPartnerData. rewrite Hv.
    destruct (_ && _); [done|].
    destruct (memberEmails kv (emailSetKeys id)) as [|e es]; [done|].
    cbn [metrics count summarize Legacy.summarize metricsOf].
    by rewrite !Array_sort_length, emailVisits_same_length.
  - unfold loadPartnerData, Legacy.loadPartnerData. rewrite Hv.
    destruct (_ && _); [done|].
    destruct (memberEmails kv (emailSetKeys id)) as [|e es]; [done|].
    cbn [metrics count summarize Legacy.summarize metricsOf].
    rewrite !Array_sort_length.
    intros Hz. pose proof (emailVisits_same_length kv id (e :: es)) as Hlen.
    destruct (omap (emailVisit kv id) (e :: es)) as [|x l]; [|done].
    by destruct (omap (Legacy.emailVisit kv id) (e :: es)).
  - intros email. unfold emailVisit, Legacy.emailVisit.
    destruct (hgetall kv _) as [[record|]|]; [|done..].
    destruct (truthy (get record "email")); [|done].
    split; intros _; by eexists.
  - intros email record Hr He. unfold emailVisit, Legacy.emailVisit.
    rewrite Hr, He. split; [done|]. split; [done|].
    intros k. apply emailSubmissions_shared.
Qed.
End Copies.

(** On [mergeStore] the current copy finds the visit of the visit set and
    the older copy, which only reads the email sets, finds nothing.  On
    [emailStore], which has no visit set, both copies find the one visit,
    and the results still differ: the older copy writes no
    [pointsAwarded]. *)
Lemma copies_return_different_results :
  (List.length (submissions (@loadPartnerData node mergeStore (JStr "P1"))) = 1%nat
   /\ List.length (submissions (@Legacy.loadPartnerData node mergeStore (JStr "P1")))
      = 0%nat
   /\ @loadPartnerData node mergeStore (JStr "P1")
      <> @Legacy.loadPartnerData node mergeStore (JStr "P1"))
  /\ (@visitSubmissions node emailStore (JStr "p1") = []
      /\ map (fun s => get s "pointsAwarded")
           (submissions (@loadPartnerData node emailStore (JStr "p1")))
         = [JNum zero]
      /\ map (fun s => get s "pointsAwarded")
           (submissions (@Legacy.loadPartnerData node emailStore (JStr "p1")))
         = [JUndef]
      /\ @loadPartnerData node emailStore (JStr "p1")
         <> @Legacy.loadPartnerData node emailStore (JStr "p1")).
Proof.
  split.
  - split; [by vm_compute|]. split; [by vm_compute|].
    intros H. apply (f_equal (fun r => List.length (submissions r))) in H.
    vm_compute in H. discriminate H.
  - split; [by vm_compute|]. split; [by vm_compute|]. split; [by vm_compute|].
    intros H.
    apply (f_equal (fun r => map (fun s => get s "pointsAwarded") (submissions r))) in H.
    vm_compute in H. discriminate H.
Qed.

Lemma copies_agree_without_visit_sets_witness :
  count (metrics (@loadPartnerData node emailStore (JStr "p1"))) = 1
  /\ partnerId (@loadPartnerData node emailStore (JStr "p1"))
     = partnerId (@Legacy.loadPartnerData node emailStore (JStr "p1"))
  /\ count (metrics (@loadPartnerData node emailStore (JStr "p1")))
     = count (metrics (@Legacy.loadPartnerData node emailStore (JStr "p1")))
  /\ (forall k, k ∈ sharedFields ->
        ownProps (@parsePayload node {[ "email" := JStr "a@x.com";
                                        "totalPrice" := JNum (num_of_Z 40) ]}) !! k = None ->
        get (@emailSubmission node (JStr "p1")
               {[ "email" := JStr "a@x.com"; "totalPrice" := JNum (num_of_Z 40) ]}) k
        = get (@Legacy.emailSubmission node (JStr "p1")
                 {[ "email" := JStr "a@x.com"; "totalPrice" := JNum (num_of_Z 40) ]}) k).
Proof.
  assert (@visitSubmissions node emailStore (JStr "p1") = []) as Hv by (by vm_compute).
  destruct (@copies_agree_without_visit_sets node emailStore (JStr "p1") Hv)
    as (Hid & Hcount & _ & _ & Hrecord).
  split; [by vm_compute|]. split; [exact Hid|]. split; [exact Hcount|].
  apply (Hrecord "a@x.com"); reflexivity.
Defined.

(** ** Witnesses on concrete ledgers *)

Lemma mergedVisit_in_ledger :
  mergedVisit ∈ submissions (@loadPartnerData node mergeStore (JStr "P1")).
Proof.
  assert (filter (fun s => has_qrKey (visitKeyOf "a@x.com" "P1" "v1") s = true)
            (submissions (@loadPartnerData node mergeStore (JStr "P1")))
          = [mergedVisit]) as E.
  { apply (@visit_of_merged_union node mergeStore (JStr "P1") "a@x.com" "P1" "v1");
      try reflexivity.
    - vm_compute. constructor.
    - intros H. apply (f_equal (fun m : obj => m !! "visited")) in H. discriminate H.
    - intros H. apply (f_equal (fun m : obj => m !! "totalPrice")) in H. discriminate H. }
  assert (mergedVisit ∈ [mergedVisit]) as Hin by apply list_elem_of_here.
  rewrite <- E in Hin. by apply list_elem_of_filter in Hin as [_ ?].
Qed.

Example averageStore_metrics :
  metrics (@loadPartnerData node averageStore (JStr "p1"))
  = {| count := 3; used := 0; unused := 3; visited := 0; notVisited := 3;
       revenue := num_of_Z 300; points := num_of_Z 35; bonusRedemptions := 0;
       averageRevenue := num_of_Z 100; averagePoints := num_of_Z 12 |}.
Proof. by vm_compute. Qed.

(** The visit of [lowerCaseStore] is counted as a bonus redemption although
    its ticket is not the literal [BonusReward]. *)
Lemma lower_case_ticket_is_counted :
  map (fun s => get s "ticket")
    (submissions (@loadPartnerData node lowerCaseStore (JStr "p1")))
  = [JStr "bonusreward"]
  /\ bonusRedemptions (metrics (@loadPartnerData node lowerCaseStore (JStr "p1"))) = 1
  /\ bonusRedemptions (metrics (@loadPartnerData node lowerCaseStore (JStr "p1")))
     <> Z.of_nat (List.length
          (filter (fun s => strict_eq_str (get s "ticket") "BonusReward" = true)
             (submissions (@loadPartnerData node lowerCaseStore (JStr "p1"))))).
Proof.
  split; [by vm_compute|]. split; [by vm_compute|]. vm_compute. discriminate.
Qed.

Lemma points_prefer_awarded_witness :
  (exists pointsAwarded estimatedPoints,
      get mergedVisit "pointsAwarded" = JNum pointsAwarded
      /\ get mergedVisit "estimatedPoints" = JNum estimatedPoints
      /\ @submissionPoints node mergedVisit
         = if num_truthy pointsAwarded then pointsAwarded else estimatedPoints)
  /\ @submissionPoints node
       {[ "pointsAwarded" := JNum (num_of_Z 7); "estimatedPoints" := JNum (num_of_Z 3) ]}
     = num_of_Z 7
  /\ @submissionPoints node
       {[ "pointsAwarded" := JNum zero; "estimatedPoints" := JNum (num_of_Z 3) ]}
     = num_or (num_of_Z 3) zero
  /\ @submissionPoints node ∅ = zero.
Proof.
  pose proof (@points_prefer_awarded node mergeStore (JStr "P1")) as (_ & H2 & H3 & H4 & H5).
  split; [|split; [|split]].
  - apply H2, mergedVisit_in_ledger.
  - apply H3; reflexivity.
  - apply H4; reflexivity.
  - apply H5; reflexivity.
Defined.

Lemma awardedVisit_in_ledger :
  awardedVisit ∈ submissions (@loadPartnerData node awardedStore (JStr "p1")).
Proof.
  assert (filter (fun s => has_qrKey "qr:a@x.com:p1:v1" s = true)
            (submissions (@loadPartnerData node awardedStore (JStr "p1")))
          = [awardedVisit]) as E.
  { apply (@visit_emitted_once node awardedStore (JStr "p1")).
    - vm_compute. constructor.
    - reflexivity. }
  assert (awardedVisit ∈ [awardedVisit]) as Hin by apply list_elem_of_here.
  rewrite <- E in Hin. by apply list_elem_of_filter in Hin as [_ ?].
Qed.

Lemma estimatedPoints_shows_awarded_witness :
  (get awardedVisit "pointsAwarded" = JNum (num_of_Z 7)
   /\ get awardedVisit "estimatedPoints" = JNum (num_of_Z 7))
  /\ exists pointsAwarded estimate,
      get awardedVisit "pointsAwarded" = JNum pointsAwarded
      /\ get awardedVisit "estimatedPoints"
         = JNum (if num_truthy pointsAwarded then pointsAwarded else estimate)
      /\ ((exists visitKey record,
             awardedVisit = @visitSubmission node (JStr "p1") visitKey record
             /\ pointsAwarded = @pointsAwardedOf node record (@parsePayload node record)
             /\ estimate = @estimatedPointsValue node record (@parsePayload node record))
          \/ (exists record,
                awardedVisit = @emailSubmission node (JStr "p1") record
                /\ pointsAwarded = @emailPointsAwarded node record (@parsePayload node record)
                /\ estimate
                   = @emailEstimatedPoints node record (@parsePayload node record))).
Proof.
  split; [split; by vm_compute|].
  apply (@estimatedPoints_shows_awarded node awardedStore (JStr "p1") awardedVisit).
  apply awardedVisit_in_ledger.
Defined.

(** On [roundingStore] the revenue is 6755399441055745 over 3 visits.  The
    exact quotient is 2251799813685248 + 1/3; the quotient of the doubles
    is 2251799813685248.5, and the average is 2251799813685249, which is
    more than 1/2 away from the exact quotient. *)
Lemma average_is_not_nearest_to_exact_quotient :
  count (metrics (@loadPartnerData node roundingStore (JStr "p1"))) = 3
  /\ revenue (metrics (@loadPartnerData node roundingStore (JStr "p1")))
     = num_of_Z 6755399441055745
  /\ num_div_count (num_of_Z 6755399441055745) 3 = Fin (4503599627370497 # 2)
  /\ averageRevenue (metrics (@loadPartnerData node roundingStore (JStr "p1")))
     = num_of_Z 2251799813685249
  /\ ~ (inject_Z 2251799813685249
        <= inject_Z 6755399441055745 / inject_Z 3 + (1 # 2))%Q.
Proof.
  split; [by vm_compute|]. split; [by vm_compute|]. split; [by vm_compute|].
  split; [by vm_compute|]. apply Qlt_not_le. reflexivity.
Qed.

Lemma averages_rounded_or_zero_witness :
  averageRevenue (metrics (@loadPartnerData node averageStore (JStr "p1")))
  = Math_round (num_div_count
                  (revenue (metrics (@loadPartnerData node averageStore (JStr "p1"))))
                  (count (metrics (@loadPartnerData node averageStore (JStr "p1")))))
  /\ averagePoints (metrics (@loadPartnerData node averageStore (JStr "p1")))
     = Math_round (num_div_count
                     (points (metrics (@loadPartnerData node averageStore (JStr "p1"))))
                     (count (metrics (@loadPartnerData node averageStore (JStr "p1"))))).
Proof.
  apply (@averages_rounded_or_zero node averageStore (JStr "p1")).
  rewrite averageStore_metrics. discriminate.
Defined.


Lemma bonusRedemptions_ignore_case_witness :
  @isBonusRedemption node {[ "ticket" := JStr "BONUSREWARD" ]} = true
  <-> toLowerCase "BONUSREWARD" = "bonusreward".
Proof.
  apply (proj1 (proj2 (@bonusRedemptions_ignore_case node mergeStore (JStr "P1")))).
  - reflexivity.
  - discriminate.
Defined.

(** ** Key variants of a partner identifier (claim C5) *)

Lemma chars_of_list (l : list ascii) : chars (string_of_list_ascii l) = l.
Proof. apply list_ascii_of_string_of_list_ascii. Qed.

Lemma is_space_lower (c : ascii) : is_space (lower_char c) = is_space c.
Proof. by destruct c as [[] [] [] [] [] [] [] []]. Qed.

Lemma drop_space_map (f : ascii -> ascii) (l : list ascii) :
  (forall c, is_space (f c) = is_space c) ->
  drop_space (map f l) = map f (drop_space l).
Proof.
  intros Hf. induction l as [|c l IH]; [done|].
  cbn [map drop_space]. rewrite Hf. by destruct (is_space c).
Qed.

Lemma trim_chars_map (f : ascii -> ascii) (l : list ascii) :
  (forall c, is_space (f c) = is_space c) ->
  trim_chars (map f l) = map f (trim_chars l).
Proof.
  intros Hf. unfold trim_chars.
  by rewrite (drop_space_map f _ Hf), <- List.map_rev, (drop_space_map f _ Hf), List.map_rev.
Qed.

Lemma trim_toLowerCase (s : string) : trim (toLowerCase s) = toLowerCase (trim s).
Proof.
  unfold trim, toLowerCase. rewrite !chars_of_list.
  by rewrite (trim_chars_map lower_char _ is_space_lower).
Qed.

(** What [drop_space] removes is white space, and what it returns does not
    start with white space. *)
Lemma drop_space_split (l : list ascii) :
  exists spaces, l = spaces ++ drop_space l /\ forallb is_space spaces = true.
Proof.
  induction l as [|c l (spaces & E & Hs)]; [by exists []|].
  cbn [drop_space]. destruct (is_space c) eqn:Ec.
  - exists (c :: spaces). split; [by rewrite E at 1|]. cbn. by rewrite Ec.
  - by exists [].
Qed.

Lemma drop_space_fixed (l : list ascii) :
  drop_space l = l <-> match l with
                       | [] => True
                       | c :: _ => is_space c = false
                       end.
Proof.
  destruct l as [|c l]; [done|]. cbn [drop_space].
  destruct (is_space c) eqn:Ec; [|done]. split; [|done].
  intros E. destruct (drop_space_split l) as (spaces & E' & _).
  apply (f_equal List.length) in E. rewrite E' in E at 2.
  cbn in E. rewrite length_app in E. lia.
Qed.

Lemma drop_space_idem (l : list ascii) : drop_space (drop_space l) = drop_space l.
Proof.
  induction l as [|c l IH]; [done|]. cbn [drop_space].
  destruct (is_space c) eqn:Ec; [done|]. cbn [drop_space]. by rewrite Ec.
Qed.

Lemma drop_space_all (l : list ascii) : forallb is_space l = true -> drop_space l = [].
Proof.
  induction l as [|c l IH]; [done|]. cbn. intros [Hc Hl]%andb_prop.
  rewrite Hc. by apply IH.
Qed.

(** Dropping the trailing white space of a list that has no leading white
    space leaves it without leading white space. *)
Lemma drop_space_trailing (m : list ascii) :
  drop_space m = m ->
  drop_space (rev (drop_space (rev m))) = rev (drop_space (rev m)).
Proof.
  intros Hm. destruct (drop_space_split (rev m)) as (spaces & E & Hs).
  set (kept := drop_space (rev m)) in *.
  assert (m = rev kept ++ rev spaces) as Em.
  { rewrite <- (List.rev_involutive m), E. by rewrite List.rev_app_distr. }
  apply drop_space_fixed. destruct (rev kept) as [|c k] eqn:Ek; [done|].
  apply drop_space_fixed in Hm. by rewrite Em in Hm.
Qed.

Lemma trim_chars_idem (l : list ascii) : trim_chars (trim_chars l) = trim_chars l.
Proof.
  unfold trim_chars.
  rewrite (drop_space_trailing (drop_space l)) by apply drop_space_idem.
  by rewrite List.rev_involutive, drop_space_idem.
Qed.

Lemma trim_idem (s : string) : trim (trim s) = trim s.
Proof. unfold trim. by rewrite chars_of_list, trim_chars_idem. Qed.

Lemma str_nonempty_toLowerCase (s : string) :
  str_nonempty (toLowerCase s) = str_nonempty s.
Proof. by destruct s. Qed.

Lemma str_nonempty_false (s : string) : str_nonempty s = false <-> s = "".
Proof. unfold str_nonempty. destruct (String.eqb_spec s ""); cbn; split; congruence. Qed.

Lemma set_add_elem (x : string) (l : list string) : x ∈ set_add x l.
Proof.
  unfold set_add. destruct (str_mem x l) eqn:E.
  - by apply str_mem_elem.
  - apply elem_of_app. right. apply list_elem_of_here.
Qed.

Lemma set_add_mono (x y : string) (l : list string) : x ∈ l -> x ∈ set_add y l.
Proof.
  intros H. unfold set_add. destruct (str_mem y l); [done|].
  apply elem_of_app. by left.
Qed.

Lemma addTrimmed_elem (t : string) (acc : list string) :
  str_nonempty t = true -> "partner:visits:" +:+ t ∈ addTrimmed t acc.
Proof. intros H. unfold addTrimmed. rewrite H. apply set_add_elem. Qed.

Lemma addTrimmed_mono (x t : string) (acc : list string) :
  x ∈ acc -> x ∈ addTrimmed t acc.
Proof.
  intros H. unfold addTrimmed. destruct (str_nonempty t); [|done].
  by apply set_add_mono.
Qed.

Lemma lower_char_idem (c : ascii) : lower_char (lower_char c) = lower_char c.
Proof. by destruct c as [[] [] [] [] [] [] [] []]. Qed.

Lemma case_map_compose (f g h : ascii -> ascii) (s : string) :
  (forall c, f (g c) = h c) ->
  string_of_list_ascii (map f (chars (string_of_list_ascii (map g (chars s)))))
  = string_of_list_ascii (map h (chars s)).
Proof.
  intros H. rewrite chars_of_list. f_equal.
  induction (chars s) as [|c l IH]; [done|]. cbn [map]. by rewrite H, IH.
Qed.

Lemma toLowerCase_idem (s : string) : toLowerCase (toLowerCase s) = toLowerCase s.
Proof. apply case_map_compose, lower_char_idem. Qed.

Section Variants.
Context {rt : JsRuntime}.

Lemma trim_toUpperCase (s : string) : trim (toUpperCase s) = toUpperCase (trim s).
Proof. apply toUpperCase_trim. Qed.

Lemma toUpperCase_nil : toUpperCase "" = "".
Proof. by apply toUpperCase_empty. Qed.

Lemma str_nonempty_toUpperCase (s : string) :
  str_nonempty (toUpperCase s) = str_nonempty s.
Proof.
  unfold str_nonempty. destruct (String.eqb_spec s "") as [->|Hs].
  - by rewrite toUpperCase_nil.
  - destruct (String.eqb_spec (toUpperCase s) "") as [E|]; [|done].
    destruct Hs. by apply toUpperCase_empty.
Qed.

Lemma addVisitKeyVariant_str (v : string) (acc : list string) :
  addVisitKeyVariant (JStr v) acc = addTrimmed (trim v) acc.
Proof.
  unfold addVisitKeyVariant, addTrimmed. cbn [truthy ToString].
  by destruct (String.eqb_spec v "") as [->|].
Qed.

Lemma ToString_or_empty (p : string) : ToString (JStr p <||> JStr "") = p.
Proof.
  unfold js_or. cbn [truthy]. by destruct (String.eqb_spec p "") as [->|].
Qed.

Lemma normalizePartnerId_str (p : string) :
  normalizePartnerId (JStr p) = toLowerCase (trim p).
Proof. unfold normalizePartnerId. by rewrite ToString_or_empty. Qed.

Lemma normalizePartnerId_normal (v : JsVal) :
  trim (normalizePartnerId v) = normalizePartnerId v
  /\ toLowerCase (normalizePartnerId v) = normalizePartnerId v.
Proof.
  unfold normalizePartnerId. by rewrite trim_toLowerCase, trim_idem, toLowerCase_idem.
Qed.

Lemma normalizePartnerId_idem (v : JsVal) :
  normalizePartnerId (JStr (normalizePartnerId v)) = normalizePartnerId v.
Proof.
  rewrite normalizePartnerId_str.
  destruct (normalizePartnerId_normal v) as [Ht Hl]. by rewrite Ht, Hl.
Qed.

Lemma toLowerCase_empty (s : string) : toLowerCase s = "" -> s = "".
Proof.
  intros E. apply str_nonempty_false. rewrite <- str_nonempty_toLowerCase.
  by apply str_nonempty_false.
Qed.

Lemma variantsOf_blank : variantsOf "" = [].
Proof. unfold variantsOf. change (toLowerCase "") with "". by rewrite toUpperCase_nil. Qed.

Lemma visitSetKeysOf_str (p : string) : visitSetKeysOf (JStr p) = variantsOf (trim p).
Proof.
  unfold visitSetKeysOf, variantsOf.
  rewrite normalizePartnerId_str, !addVisitKeyVariant_str. cbn [ToString].
  rewrite !trim_toUpperCase, !trim_toLowerCase, trim_idem.
  rewrite str_nonempty_toLowerCase.
  destruct (str_nonempty (trim p)) eqn:Et.
  - assert (truthy (JStr p) = true) as ->; [|done].
    cbn [truthy]. destruct (String.eqb_spec p "") as [->|]; [done|done].
  - apply str_nonempty_false in Et. rewrite Et. change (toLowerCase "") with "".
    rewrite toUpperCase_nil. by destruct (truthy (JStr p)).
Qed.

Lemma addVisitKeyVariant_blank (value : JsVal) (keys : list string) :
  trim (ToString value) = "" -> addVisitKeyVariant value keys = keys.
Proof.
  intros E. unfold addVisitKeyVariant. rewrite E. by destruct (truthy value).
Qed.

(** An identifier that normalizes to the empty string resolves no
    visit-set key. *)
Lemma visitSetKeysOf_blank (id : JsVal) :
  normalizePartnerId id = "" -> visitSetKeysOf id = [].
Proof.
  intros E. destruct (truthy id) eqn:Ht; [|by apply visitSetKeysOf_falsy].
  unfold visitSetKeysOf. rewrite E.
  assert (trim (ToString id) = "") as Et.
  { apply toLowerCase_empty. revert E. unfold normalizePartnerId, js_or. by rewrite Ht. }
  rewrite Ht. cbn [str_nonempty String.eqb negb].
  rewrite !addVisitKeyVariant_blank; try done; cbn [ToString].
  - by rewrite trim_toLowerCase, Et.
  - by rewrite trim_toUpperCase, Et, toUpperCase_nil.
Qed.

Lemma addVisitKeyVariant_NoDup (value : JsVal) (keys : list string) :
  NoDup keys -> NoDup (addVisitKeyVariant value keys).
Proof.
  intros H. unfold addVisitKeyVariant. destruct (truthy value); [|done].
  destruct (str_nonempty _); [by apply set_add_NoDup|done].
Qed.

Lemma visitSetKeysOf_NoDup (id : JsVal) : NoDup (visitSetKeysOf id).
Proof.
  unfold visitSetKeysOf. cbv zeta.
  destruct (truthy id); destruct (str_nonempty _);
    repeat apply addVisitKeyVariant_NoDup; apply NoDup_nil_2.
Qed.

Lemma normalized_keys_resolved (p : string) :
  let n := normalizePartnerId (JStr p) in
  n <> "" ->
  "partner:visits:" +:+ n ∈ visitSetKeysOf (JStr p)
  /\ "partner:visits:" +:+ toUpperCase n ∈ visitSetKeysOf (JStr p)
  /\ "partner:" +:+ n ∈ emailSetKeys (JStr p).
Proof.
  intros n Hn. subst n. rewrite visitSetKeysOf_str. unfold emailSetKeys.
  rewrite normalizePartnerId_str in *.
  assert (str_nonempty (toLowerCase (trim p)) = true) as Hne.
  { destruct (str_nonempty _) eqn:E; [done|]. by apply str_nonempty_false in E. }
  split; [|split].
  - unfold variantsOf. do 2 apply addTrimmed_mono. by apply addTrimmed_elem.
  - unfold variantsOf. apply addTrimmed_elem. by rewrite str_nonempty_toUpperCase.
  - rewrite Hne. destruct (_ && _); [apply set_add_mono|]; apply set_add_elem.
Qed.

Lemma js_or_truthy_l (x y : JsVal) : truthy x = true -> truthy (x <||> y) = true.
Proof. intros H. unfold js_or. by rewrite H. Qed.

Lemma js_or_truthy_r (x y : JsVal) : truthy y = true -> truthy (x <||> y) = true.
Proof. intros H. unfold js_or. by destruct (truthy x) eqn:E. Qed.

(** Of the identifier, a visit keeps the normalized form only. *)
Lemma visitSubmission_normalized (id1 id2 : JsVal) (visitKey : string) (record : obj) :
  normalizePartnerId id1 = normalizePartnerId id2 -> normalizePartnerId id1 <> "" ->
  visitSubmission id1 visitKey record = visitSubmission id2 visitKey record.
Proof.
  intros H Hne. unfold visitSubmission. cbv zeta. rewrite H.
  set (canonical := _ <||> _ <||> JStr (normalizePartnerId id2)
                      <||> JStr (normalizePartnerId id2)).
  assert (truthy canonical = true) as ->; [|done].
  apply js_or_truthy_l, js_or_truthy_r. cbn [truthy].
  change (str_nonempty (normalizePartnerId id2) = true). rewrite <- H.
  destruct (str_nonempty _) eqn:E; [done|]. by apply str_nonempty_false in E.
Qed.

Lemma emailSubmission_normalized (id1 id2 : JsVal) (record : obj) :
  normalizePartnerId id1 = normalizePartnerId id2 ->
  emailSubmission id1 record = emailSubmission id2 record.
Proof.
  intros H. unfold emailSubmission. cbv zeta.
  assert (forall id, JStr (normalizePartnerId id)
                       <||> JStr (trim (ToString (id <||> JStr "")))
                     = JStr (normalizePartnerId id)) as Hc.
  { intros id. unfold js_or at 1. cbn [truthy].
    destruct (String.eqb_spec (normalizePartnerId id) "") as [E|]; [|done]. cbn [negb].
    rewrite E. f_equal. apply toLowerCase_empty. exact E. }
  by rewrite !Hc, H.
Qed.

Lemma visitSubmission_trim (p1 p2 visitKey : string) (record : obj) :
  trim p1 = trim p2 -> trim p1 <> "" ->
  visitSubmission (JStr p1) visitKey record = visitSubmission (JStr p2) visitKey record.
Proof.
  intros H Hne. apply visitSubmission_normalized.
  - by rewrite !normalizePartnerId_str, H.
  - rewrite normalizePartnerId_str. by intros E%toLowerCase_empty.
Qed.

Lemma omap_pointwise {X Y : Type} (f g : X -> option Y) (l : list X) :
  (forall x, f x = g x) -> omap f l = omap g l.
Proof. intros H. induction l as [|x l IH]; [done|]. cbn. by rewrite H, IH. Qed.

Lemma visitSubmissions_trim (kv : KV) (p1 p2 : string) :
  trim p1 = trim p2 ->
  visitSubmissions kv (JStr p1) = visitSubmissions kv (JStr p2).
Proof.
  intros H. unfold visitSubmissions, visitRecordKeysOf.
  rewrite !visitSetKeysOf_str, H.
  destruct (decide (trim p1 = "")) as [E|Hne].
  - rewrite <- H, E, variantsOf_blank. done.
  - apply omap_pointwise. intros key. unfold visitFromKey.
    destruct (recordForKey _ _ _) as [record|]; [|done].
    destruct (obj_is_empty record); [done|].
    by rewrite (visitSubmission_trim p1 p2).
Qed.

Lemma emailVisit_normalized (kv : KV) (id1 id2 : JsVal) (email : string) :
  normalizePartnerId id1 = normalizePartnerId id2 ->
  emailVisit kv id1 email = emailVisit kv id2 email.
Proof.
  intros H. unfold emailVisit.
  destruct (hgetall kv _) as [[record|]|]; [|done..].
  destruct (truthy (get record "email")); [|done].
  by rewrite (emailSubmission_normalized id1 id2).
Qed.

Lemma emailVisit_trim (kv : KV) (p1 p2 email : string) :
  trim p1 = trim p2 ->
  emailVisit kv (JStr p1) email = emailVisit kv (JStr p2) email.
Proof.
  intros H. apply emailVisit_normalized. by rewrite !normalizePartnerId_str, H.
Qed.

Lemma memberEmails_snoc_empty (kv : KV) (keys : list string) (key : string) :
  memberless kv key ->
  memberEmails kv (keys ++ [key]) = memberEmails kv keys.
Proof.
  intros H. unfold memberEmails. rewrite map_app, List.concat_app.
  cbn [map List.concat]. destruct H as [-> | ->]; cbn [default]; by rewrite !app_nil_r.
Qed.

Lemma memberEmails_raw (kv : KV) (p : string) :
  rawEmailSetEmpty kv p ->
  memberEmails kv (emailSetKeys (JStr p))
  = memberEmails kv (normalizedKeys (toLowerCase (trim p))).
Proof.
  intros Hraw. unfold emailSetKeys, normalizedKeys.
  rewrite normalizePartnerId_str. cbn [ToString strict_eq_str].
  set (keys := if str_nonempty _ then _ else _).
  destruct (truthy (JStr p) && negb (String.eqb p (toLowerCase (trim p)))) eqn:E; [|done].
  apply andb_prop in E as [_ E]. unfold rawEmailSetEmpty in Hraw.
  rewrite normalizePartnerId_str in Hraw.
  destruct Hraw as [Hp|Hraw].
  { rewrite <- Hp, String.eqb_refl in E. done. }
  unfold set_add. destruct (str_mem _ keys); [done|].
  by apply memberEmails_snoc_empty.
Qed.

Lemma ledgerOf_trimmed (kv : KV) (p : string) :
  visitSubmissions kv (JStr p) <> [] \/ rawEmailSetEmpty kv p ->
  ledgerOf (loadPartnerData kv (JStr p)) = ledgerFrom kv (trim p).
Proof.
  intros Hcase. unfold loadPartnerData, ledgerFrom.
  assert (trim p = trim (trim p)) as Ht by (by rewrite trim_idem).
  rewrite <- (visitSubmissions_trim kv p (trim p) Ht).
  rewrite normalizePartnerId_str.
  destruct (negb (str_nonempty (toLowerCase (trim p))) && negb (truthy (JStr p))) eqn:Early.
  - apply andb_prop in Early as [_ Hp]. cbn [truthy] in Hp.
    destruct (String.eqb_spec p "") as [->|]; [|done]. done.
  - destruct (visitSubmissions kv (JStr p)) as [|s0 rest] eqn:Ev; [|done].
    destruct Hcase as [?|Hraw]; [done|].
    rewrite (memberEmails_raw kv p Hraw).
    destruct (memberEmails kv (normalizedKeys (toLowerCase (trim p)))) as [|e es];
      [done|].
    by rewrite (omap_pointwise _ _ _ (fun email => emailVisit_trim kv p (trim p) email Ht)).
Qed.

(** ** Data filed under the normalized identifier *)

Lemma addMembers_memberless (kv : KV) (acc : list string) (key : string) :
  memberless kv key -> addMembers kv acc key = acc.
Proof. unfold addMembers. by intros [-> | ->]. Qed.

(** When one key alone has members, the record keys are its members. *)
Lemma foldl_addMembers_single (kv : KV) (only : string) (keys acc : list string) :
  NoDup keys ->
  (forall key, key ∈ keys -> key <> only -> memberless kv key) ->
  foldl (addMembers kv) acc keys
  = if bool_decide (only ∈ keys) then addMembers kv acc only else acc.
Proof.
  revert acc. induction keys as [|key keys IH]; intros acc Hnd Hless.
  - by rewrite bool_decide_eq_false_2 by apply not_elem_of_nil.
  - apply NoDup_cons in Hnd as [Hnotin Hnd]. cbn [foldl].
    assert (forall k, k ∈ keys -> k <> only -> memberless kv k) as Hrest.
    { intros k Hk Hne. apply Hless; [|done]. apply elem_of_cons. by right. }
    rewrite (IH _ Hnd Hrest).
    destruct (decide (key = only)) as [->|Hne].
    + rewrite (bool_decide_eq_false_2 (only ∈ keys)) by done.
      rewrite bool_decide_eq_true_2; [done|]. apply elem_of_cons. by left.
    + rewrite (addMembers_memberless kv acc key).
      * apply (f_equal (fun b : bool => if b then addMembers kv acc only else acc)).
        apply bool_decide_ext. rewrite elem_of_cons.
        split; [by right|]. by intros [E|?]; [destruct Hne|].
      * apply Hless; [|done]. apply elem_of_cons. by left.
Qed.

Lemma visitRecordKeysOf_normalized (kv : KV) (p : string) :
  (forall key, key ∈ visitSetKeysOf (JStr p) ->
     key <> "partner:visits:" +:+ normalizePartnerId (JStr p) -> memberless kv key) ->
  visitRecordKeysOf kv (JStr p)
  = if str_nonempty (normalizePartnerId (JStr p))
    then addMembers kv [] ("partner:visits:" +:+ normalizePartnerId (JStr p))
    else [].
Proof.
  intros H. unfold visitRecordKeysOf.
  destruct (str_nonempty (normalizePartnerId (JStr p))) eqn:En.
  - rewrite (foldl_addMembers_single kv _ _ _ (visitSetKeysOf_NoDup _) H).
    rewrite bool_decide_eq_true_2; [done|].
    apply (normalized_keys_resolved p). intros E. by rewrite E in En.
  - apply str_nonempty_false in En. by rewrite (visitSetKeysOf_blank _ En).
Qed.

Lemma memberEmails_normalized (kv : KV) (p : string) :
  (forall key, key ∈ emailSetKeys (JStr p) ->
     key <> "partner:" +:+ normalizePartnerId (JStr p) -> memberless kv key) ->
  memberEmails kv (emailSetKeys (JStr p))
  = memberEmails kv (normalizedKeys (normalizePartnerId (JStr p))).
Proof.
  unfold emailSetKeys, normalizedKeys. cbv zeta.
  set (n := normalizePartnerId (JStr p)). set (keys := if str_nonempty n then _ else _).
  destruct (truthy (JStr p) && negb (strict_eq_str (JStr p) n)) eqn:E; [|done].
  apply andb_prop in E as [_ E]. cbn [strict_eq_str ToString] in *.
  intros H. unfold set_add in *.
  destruct (str_mem ("partner:" +:+ p) keys) eqn:Em; [done|].
  apply memberEmails_snoc_empty. apply H.
  - apply elem_of_app. right. apply list_elem_of_here.
  - intros Hp%(inj (String.append "partner:")).
    apply String.eqb_eq in Hp. by rewrite Hp in E.
Qed.

Lemma ledgerOf_normalized (kv : KV) (p : string) :
  filedUnderNormalized kv p ->
  ledgerOf (loadPartnerData kv (JStr p))
  = normalizedLedger kv (normalizePartnerId (JStr p)).
Proof.
  intros [Hv He]. unfold loadPartnerData, normalizedLedger, visitSubmissions. cbv zeta.
  rewrite (visitRecordKeysOf_normalized kv p Hv), (memberEmails_normalized kv p He).
  pose proof (normalizePartnerId_idem (JStr p)) as Hidem.
  set (n := normalizePartnerId (JStr p)) in *.
  destruct (str_nonempty n) eqn:En; cbn [negb andb].
  - assert (n <> "") as Hn by (intros E; by rewrite E in En).
    rewrite (omap_pointwise (visitFromKey kv (JStr p)) (visitFromKey kv (JStr n))).
    2: { intros key. unfold visitFromKey.
         destruct (recordForKey _ _ _) as [record|]; [|done].
         destruct (obj_is_empty record); [done|].
         by rewrite (visitSubmission_normalized (JStr p) (JStr n)). }
    destruct (omap _ _) as [|s0 rest]; [|done].
    destruct (memberEmails kv (normalizedKeys n)) as [|e es]; [done|].
    by rewrite (omap_pointwise _ _ _
                  (fun email => emailVisit_normalized kv (JStr p) (JStr n) email
                                  (eq_sym Hidem))).
  - apply str_nonempty_false in En. rewrite En. by destruct (truthy (JStr p)).
Qed.

(** ** The sets that have members *)

Lemma has_members_false (kv : KV) (key : string) :
  has_members kv key = false <-> memberless kv key.
Proof.
  unfold has_members, memberless. destruct (smembers kv key) as [[|m ms]|].
  - split; [by right|done].
  - split; [done|]. by intros [|].
  - split; [by left|done].
Qed.

(** What is read from a list of keys is read from those that have
    members. *)
Lemma visitRecordKeys_populated (kv : KV) (keys acc : list string) :
  foldl (addMembers kv) acc keys = foldl (addMembers kv) acc (populated kv keys).
Proof.
  revert acc. induction keys as [|key keys IH]; intros acc; [done|].
  unfold populated in *. destruct (has_members kv key) eqn:E.
  - rewrite filter_cons_True by done. cbn [foldl]. apply IH.
  - rewrite filter_cons_False by congruence. cbn [foldl].
    rewrite (addMembers_memberless kv acc key); [apply IH|].
    by apply has_members_false.
Qed.

Lemma memberEmails_populated (kv : KV) (keys : list string) :
  memberEmails kv keys = memberEmails kv (populated kv keys).
Proof.
  unfold memberEmails.
  assert (List.concat (map (fun key => default [] (smembers kv key)) keys)
          = List.concat (map (fun key => default [] (smembers kv key)) (populated kv keys)))
    as ->; [|done].
  induction keys as [|key keys IH]; [done|].
  unfold populated in *. destruct (has_members kv key) eqn:E.
  - rewrite filter_cons_True by done. cbn [map List.concat]. by rewrite IH.
  - rewrite filter_cons_False by congruence. cbn [map List.concat]. rewrite IH.
    by apply has_members_false in E as [-> | ->].
Qed.

(** Of the identifier, a ledger depends on the normalized form, on the
    record keys and on the member emails only. *)
Lemma ledgerOf_reading (kv : KV) (p : string) :
  ledgerOf (loadPartnerData kv (JStr p))
  = ledgerReading kv (normalizePartnerId (JStr p))
      (visitRecordKeysOf kv (JStr p)) (memberEmails kv (emailSetKeys (JStr p))).
Proof.
  unfold loadPartnerData, ledgerReading, visitSubmissions. cbv zeta.
  pose proof (normalizePartnerId_idem (JStr p)) as Hidem.
  pose proof (visitSetKeysOf_blank (JStr p)) as Hblank.
  unfold visitRecordKeysOf in *.
  set (n := normalizePartnerId (JStr p)) in *.
  assert (forall emails : list string,
             omap (emailVisit kv (JStr p)) emails
             = omap (emailVisit kv (JStr n)) emails) as Hemails.
  { intros emails. apply omap_pointwise. intros email.
    by apply emailVisit_normalized. }
  destruct (str_nonempty n) eqn:En; cbn [negb andb].
  - assert (n <> "") as Hn by (intros E; by rewrite E in En).
    rewrite (omap_pointwise (visitFromKey kv (JStr p)) (visitFromKey kv (JStr n))).
    2: { intros key. unfold visitFromKey.
         destruct (recordForKey _ _ _) as [record|]; [|done].
         destruct (obj_is_empty record); [done|].
         by rewrite (visitSubmission_normalized (JStr p) (JStr n)). }
    destruct (omap (visitFromKey kv (JStr n)) _) as [|s0 rest]; [|done].
    destruct (memberEmails kv (emailSetKeys (JStr p))) as [|e es]; [done|].
    by rewrite Hemails.
  - apply str_nonempty_false in En. rewrite (Hblank En).
    destruct (truthy (JStr p)) eqn:Ht; cbn [negb].
    + destruct (memberEmails kv (emailSetKeys (JStr p))) as [|e es]; [done|].
      rewrite Hemails. reflexivity.
    + cbn [truthy] in Ht. destruct (String.eqb_spec p "") as [->|]; [|done]. done.
Qed.

(** C5, as the code has it. Two spellings of an identifier -- differing
    by letter case, by white space around it, or by both -- share the keys
    built from the normalized identifier, and each also resolves the keys
    of its own spelling.  They read the same record keys and the same
    emails, and return the same ledger, whenever the sets with members
    among the keys they resolve are the same and are read in the same
    order; that is so when only the sets keyed by the normalized identifier
    have members.  Spellings that differ by surrounding white space only
    resolve the same visit-set keys and read the same visit-set submissions
    whatever the store holds, and return the same ledger when the visit
    sets give a submission or the email sets stored under the raw
    spellings are empty. *)
Theorem spelling_insensitive_resolution (kv : KV) (p1 p2 : string) :
  normalizePartnerId (JStr p1) = normalizePartnerId (JStr p2) ->
  (populated kv (visitSetKeysOf (JStr p1)) = populated kv (visitSetKeysOf (JStr p2)) ->
   populated kv (emailSetKeys (JStr p1)) = populated kv (emailSetKeys (JStr p2)) ->
   visitRecordKeysOf kv (JStr p1) = visitRecordKeysOf kv (JStr p2)
   /\ memberEmails kv (emailSetKeys (JStr p1)) = memberEmails kv (emailSetKeys (JStr p2))
   /\ submissions (loadPartnerData kv (JStr p1)) = submissions (loadPartnerData kv (JStr p2))
   /\ metrics (loadPartnerData kv (JStr p1)) = metrics (loadPartnerData kv (JStr p2))
   /\ partnerLabel (loadPartnerData kv (JStr p1))
      = partnerLabel (loadPartnerData kv (JStr p2)))
  /\ (filedUnderNormalized kv p1 -> filedUnderNormalized kv p2 ->
      visitRecordKeysOf kv (JStr p1) = visitRecordKeysOf kv (JStr p2)
      /\ memberEmails kv (emailSetKeys (JStr p1))
         = memberEmails kv (emailSetKeys (JStr p2))
      /\ submissions (loadPartnerData kv (JStr p1))
         = submissions (loadPartnerData kv (JStr p2))
      /\ metrics (loadPartnerData kv (JStr p1)) = metrics (loadPartnerData kv (JStr p2))
      /\ partnerLabel (loadPartnerData kv (JStr p1))
         = partnerLabel (loadPartnerData kv (JStr p2)))
  /\ (trim p1 = trim p2 ->
      visitSetKeysOf (JStr p1) = visitSetKeysOf (JStr p2)
      /\ visitSubmissions kv (JStr p1) = visitSubmissions kv (JStr p2)
      /\ (visitSubmissions kv (JStr p1) <> []
          \/ (rawEmailSetEmpty kv p1 /\ rawEmailSetEmpty kv p2) ->
          submissions (loadPartnerData kv (JStr p1))
          = submissions (loadPartnerData kv (JStr p2))
          /\ metrics (loadPartnerData kv (JStr p1)) = metrics (loadPartnerData kv (JStr p2))
          /\ partnerLabel (loadPartnerData kv (JStr p1))
             = partnerLabel (loadPartnerData kv (JStr p2))))
  /\ (forall p, p = p1 \/ p = p2 ->
      let n := normalizePartnerId (JStr p1) in
      n <> "" ->
      "partner:visits:" +:+ n ∈ visitSetKeysOf (JStr p)
      /\ "partner:visits:" +:+ toUpperCase n ∈ visitSetKeysOf (JStr p)
      /\ "partner:" +:+ n ∈ emailSetKeys (JStr p)).
Proof.
  intros Hn. split; [|split; [|split]].
  - intros Hv He.
    assert (visitRecordKeysOf kv (JStr p1) = visitRecordKeysOf kv (JStr p2)) as Hkeys.
    { unfold visitRecordKeysOf.
      by rewrite (visitRecordKeys_populated kv (visitSetKeysOf (JStr p1))),
        (visitRecordKeys_populated kv (visitSetKeysOf (JStr p2))), Hv. }
    assert (memberEmails kv (emailSetKeys (JStr p1))
            = memberEmails kv (emailSetKeys (JStr p2))) as Hemails.
    { by rewrite (memberEmails_populated kv (emailSetKeys (JStr p1))),
        (memberEmails_populated kv (emailSetKeys (JStr p2))), He. }
    split; [done|]. split; [done|].
    assert (ledgerOf (loadPartnerData kv (JStr p1))
            = ledgerOf (loadPartnerData kv (JStr p2))) as E.
    { by rewrite (ledgerOf_reading kv p1), (ledgerOf_reading kv p2), Hn, Hkeys, Hemails. }
    unfold ledgerOf in E. by injection E.
  - intros [Hv1 He1] [Hv2 He2]. split; [|split].
    + by rewrite (visitRecordKeysOf_normalized kv p1 Hv1),
        (visitRecordKeysOf_normalized kv p2 Hv2), Hn.
    + by rewrite (memberEmails_normalized kv p1 He1),
        (memberEmails_normalized kv p2 He2), Hn.
    + assert (ledgerOf (loadPartnerData kv (JStr p1))
              = ledgerOf (loadPartnerData kv (JStr p2))) as E.
      { by rewrite (ledgerOf_normalized kv p1), (ledgerOf_normalized kv p2), Hn. }
      unfold ledgerOf in E. by injection E.
  - intros H. split; [|split].
    + by rewrite !visitSetKeysOf_str, H.
    + by apply visitSubmissions_trim.
    + intros Hcase.
      assert (ledgerOf (loadPartnerData kv (JStr p1))
              = ledgerOf (loadPartnerData kv (JStr p2))) as E.
      { rewrite (ledgerOf_trimmed kv p1), (ledgerOf_trimmed kv p2), H; [done| |].
        - destruct Hcase as [Hv|[_ ?]]; [left|by right].
          by rewrite <- (visitSubmissions_trim kv p1 p2 H).
        - destruct Hcase as [?|[? _]]; [by left|by right]. }
      unfold ledgerOf in E. by injection E.
  - intros p [-> | ->] n; subst n; [|rewrite Hn]; apply normalized_keys_resolved.
Qed.
End Variants.

(** [Ab] and [aB] differ only by letter case, yet they resolve different
    visit-set keys, and on [caseStore], where the visit is filed under the
    spelling [Ab], the first finds it and the second finds nothing.  The
    identifiers [ p1] and [p1] differ only by a leading blank, yet on
    [spaceStore], where the email set is filed under the untrimmed
    spelling, the first finds the visit and the second finds nothing.  The
    identifiers [ab] and [AB] resolve the same two visit-set keys, in
    opposite orders, and on [orderStore], where both sets have a member,
    they return the two visits in opposite orders and different labels. *)
Lemma spelling_variants_resolve_differently :
  (@normalizePartnerId node (JStr "Ab") = @normalizePartnerId node (JStr "aB")
   /\ @visitSetKeysOf node (JStr "Ab")
      = ["partner:visits:Ab"; "partner:visits:ab"; "partner:visits:AB"]
   /\ @visitSetKeysOf node (JStr "aB")
      = ["partner:visits:aB"; "partner:visits:ab"; "partner:visits:AB"]
   /\ @visitSetKeysOf node (JStr "Ab") <> @visitSetKeysOf node (JStr "aB")
   /\ List.length (submissions (@loadPartnerData node caseStore (JStr "Ab"))) = 1%nat
   /\ List.length (submissions (@loadPartnerData node caseStore (JStr "aB"))) = 0%nat
   /\ submissions (@loadPartnerData node caseStore (JStr "Ab"))
      <> submissions (@loadPartnerData node caseStore (JStr "aB")))
  /\ (trim " p1" = trim "p1"
      /\ @emailSetKeys node (JStr " p1") = ["partner:p1"; "partner: p1"]
      /\ @emailSetKeys node (JStr "p1") = ["partner:p1"]
      /\ List.length (submissions (@loadPartnerData node spaceStore (JStr " p1"))) = 1%nat
      /\ List.length (submissions (@loadPartnerData node spaceStore (JStr "p1"))) = 0%nat
      /\ submissions (@loadPartnerData node spaceStore (JStr " p1"))
         <> submissions (@loadPartnerData node spaceStore (JStr "p1")))
  /\ (@normalizePartnerId node (JStr "ab") = @normalizePartnerId node (JStr "AB")
      /\ @visitSetKeysOf node (JStr "ab") = ["partner:visits:ab"; "partner:visits:AB"]
      /\ @visitSetKeysOf node (JStr "AB") = ["partner:visits:AB"; "partner:visits:ab"]
      /\ map (fun s => get s "email")
           (submissions (@loadPartnerData node orderStore (JStr "ab")))
         = [JStr "a@x.com"; JStr "b@x.com"]
      /\ map (fun s => get s "email")
           (submissions (@loadPartnerData node orderStore (JStr "AB")))
         = [JStr "b@x.com"; JStr "a@x.com"]
      /\ partnerLabel (@loadPartnerData node orderStore (JStr "ab")) = JStr "First"
      /\ partnerLabel (@loadPartnerData node orderStore (JStr "AB")) = JStr "Second").
Proof.
  split; [|split].
  - split; [by vm_compute|]. split; [by vm_compute|]. split; [by vm_compute|].
    split; [vm_compute; discriminate|]. split; [by vm_compute|]. split; [by vm_compute|].
    intros H. apply (f_equal List.length) in H. vm_compute in H. discriminate H.
  - split; [by vm_compute|]. split; [by vm_compute|]. split; [by vm_compute|].
    split; [by vm_compute|]. split; [by vm_compute|].
    intros H. apply (f_equal List.length) in H. vm_compute in H. discriminate H.
  - repeat split; by vm_compute.
Qed.

Lemma filedUnderNormalized_P1 : @filedUnderNormalized node averageStore "P1".
Proof.
  assert (@visitSetKeysOf node (JStr "P1") = ["partner:visits:P1"; "partner:visits:p1"])
    as Hv by (by vm_compute).
  assert (@emailSetKeys node (JStr "P1") = ["partner:p1"; "partner:P1"])
    as He by (by vm_compute).
  split; intros key Hin Hne; [rewrite Hv in Hin|rewrite He in Hin].
  - apply elem_of_cons in Hin as [->|Hin]; [by right|].
    apply elem_of_cons in Hin as [->|Hin]; [by destruct Hne|].
    by apply elem_of_nil in Hin.
  - apply elem_of_cons in Hin as [->|Hin]; [by destruct Hne|].
    apply elem_of_cons in Hin as [->|Hin]; [by right|].
    by apply elem_of_nil in Hin.
Qed.

Lemma filedUnderNormalized_p1_blanks : @filedUnderNormalized node averageStore " p1 ".
Proof.
  assert (@visitSetKeysOf node (JStr " p1 ") = ["partner:visits:p1"; "partner:visits:P1"])
    as Hv by (by vm_compute).
  assert (@emailSetKeys node (JStr " p1 ") = ["partner:p1"; "partner: p1 "])
    as He by (by vm_compute).
  split; intros key Hin Hne; [rewrite Hv in Hin|rewrite He in Hin].
  - apply elem_of_cons in Hin as [->|Hin]; [by destruct Hne|].
    apply elem_of_cons in Hin as [->|Hin]; [by right|].
    by apply elem_of_nil in Hin.
  - apply elem_of_cons in Hin as [->|Hin]; [by destruct Hne|].
    apply elem_of_cons in Hin as [->|Hin]; [by right|].
    by apply elem_of_nil in Hin.
Qed.

Lemma spelling_insensitive_resolution_witness :
  (List.length (submissions (@loadPartnerData node upperStore (JStr "Ab"))) = 2%nat
   /\ submissions (@loadPartnerData node upperStore (JStr "Ab"))
      = submissions (@loadPartnerData node upperStore (JStr "aB"))
   /\ metrics (@loadPartnerData node upperStore (JStr "Ab"))
      = metrics (@loadPartnerData node upperStore (JStr "aB")))
  /\ (@visitRecordKeysOf node averageStore (JStr "P1")
      = @visitRecordKeysOf node averageStore (JStr " p1 ")
      /\ memberEmails averageStore (@emailSetKeys node (JStr "P1"))
         = memberEmails averageStore (@emailSetKeys node (JStr " p1 "))
      /\ submissions (@loadPartnerData node averageStore (JStr "P1"))
         = submissions (@loadPartnerData node averageStore (JStr " p1 "))
      /\ metrics (@loadPartnerData node averageStore (JStr "P1"))
         = metrics (@loadPartnerData node averageStore (JStr " p1 "))
      /\ partnerLabel (@loadPartnerData node averageStore (JStr "P1"))
         = partnerLabel (@loadPartnerData node averageStore (JStr " p1 ")))
  /\ (@visitSetKeysOf node (JStr " P1 ") = @visitSetKeysOf node (JStr "P1")
      /\ @visitSubmissions node mergeStore (JStr " P1 ")
         = @visitSubmissions node mergeStore (JStr "P1")
      /\ submissions (@loadPartnerData node mergeStore (JStr " P1 "))
         = submissions (@loadPartnerData node mergeStore (JStr "P1"))
      /\ metrics (@loadPartnerData node mergeStore (JStr " P1 "))
         = metrics (@loadPartnerData node mergeStore (JStr "P1"))
      /\ partnerLabel (@loadPartnerData node mergeStore (JStr " P1 "))
         = partnerLabel (@loadPartnerData node mergeStore (JStr "P1"))).
Proof.
  split; [|split].
  - destruct (proj1 (@spelling_insensitive_resolution node upperStore "Ab" "aB" eq_refl))
      as (_ & _ & Hsubs & Hmetrics & _).
    + by vm_compute.
    + by vm_compute.
    + split; [by vm_compute|]. by split.
  - apply (proj1 (proj2 (@spelling_insensitive_resolution node averageStore "P1" " p1 "
                           eq_refl))).
    + apply filedUnderNormalized_P1.
    + apply filedUnderNormalized_p1_blanks.
  - destruct (proj1 (proj2 (proj2
               (@spelling_insensitive_resolution node mergeStore " P1 " "P1" eq_refl)))
               eq_refl)
      as (Hkeys & Hvisits & Hledger).
    split; [exact Hkeys|]. split; [exact Hvisits|].
    apply Hledger. left. intros E.
    apply (f_equal List.length) in E. vm_compute in E. discriminate E.
Defined.

(** * Further properties of the code *)

(** ** [parsePayload]: fallbacks *)

Section PayloadFallbacks.
Context {rt : JsRuntime}.

Lemma parsePayload_present (record : obj) :
  is_present (parsePayload record) = true.
Proof.
  assert (forall payload, is_present payload = true ->
            is_present (match getProp payload "data" with
                        | JStr d =>
                            if truthy (JStr d) then
                              match JSON_parse d with
                              | Some nested => JObj (spread2 payload nested)
                              | None => payload
                              end
                            else payload
                        | _ => payload
                        end) = true) as Hdata.
  { intros payload Hp. destruct (getProp payload "data"); try done.
    destruct (truthy _); [|done]. by destruct (JSON_parse _). }
  unfold parsePayload.
  destruct (truthy (get record "payload")) eqn:Ht; [|done].
  destruct (get record "payload") as [| |b|n|s|l|o] eqn:Er; try done.
  - destruct (JSON_parse s) as [payload|]; [|done].
    destruct payload; try done; by apply Hdata.
  - by apply (Hdata (JArr l)).
  - by apply (Hdata (JObj o)).
Qed.

(** X1. [parsePayload] never yields [null] or [undefined], so the property
    reads that follow it cannot fail.  A record without a payload decodes to
    the empty object, and a payload string that does not parse -- or that
    parses to [null] -- decodes to an object holding the original string
    under [rawPayload]. *)
Theorem parsePayload_fallbacks (record : obj) :
  parsePayload record <> JNull
  /\ parsePayload record <> JUndef
  /\ (truthy (get record "payload") = false -> parsePayload record = JObj ∅)
  /\ (forall s, get record "payload" = JStr s -> s <> "" ->
        JSON_parse s = None \/ JSON_parse s = Some JNull ->
        parsePayload record = JObj {[ "rawPayload" := JStr s ]}).
Proof.
  pose proof (parsePayload_present record) as Hp.
  split; [intros E; by rewrite E in Hp|]. split; [intros E; by rewrite E in Hp|].
  split.
  - intros Hf. unfold parsePayload. by rewrite Hf.
  - intros s Hs Hne Hparse. unfold parsePayload. rewrite Hs. cbn [truthy].
    destruct (String.eqb_spec s "") as [|_]; [done|]. cbn [negb].
    by destruct Hparse as [-> | ->].
Qed.
End PayloadFallbacks.

Lemma parsePayload_fallbacks_witness :
  @parsePayload node {[ "email" := JStr "a@x.com" ]} = JObj ∅
  /\ @parsePayload node {[ "payload" := JStr "not json" ]}
     = JObj {[ "rawPayload" := JStr "not json" ]}
  /\ @parsePayload node {[ "payload" := JStr "null" ]}
     = JObj {[ "rawPayload" := JStr "null" ]}.
Proof.
  split; [|split].
  - apply (@parsePayload_fallbacks node). reflexivity.
  - apply (proj2 (proj2 (proj2 (@parsePayload_fallbacks node
             {[ "payload" := JStr "not json" ]}))));
      [reflexivity|discriminate|left; reflexivity].
  - apply (proj2 (proj2 (proj2 (@parsePayload_fallbacks node
             {[ "payload" := JStr "null" ]}))));
      [reflexivity|discriminate|right; reflexivity].
Defined.

(** ** Counts of the metrics *)

Section Counts.
Context {rt : JsRuntime}.

Lemma tally_counts (subs : list obj) (t : Totals) :
  let t' := foldl tally t subs in
  let n := Z.of_nat (List.length subs) in
  t_used t <= t_used t' <= t_used t + n
  /\ t_visitedCount t <= t_visitedCount t' <= t_visitedCount t + n
  /\ t_bonusRedemptions t <= t_bonusRedemptions t' <= t_bonusRedemptions t + n.
Proof.
  revert t. induction subs as [|s subs IH]; intros t; cbn zeta.
  - cbn [foldl List.length]. lia.
  - cbn [foldl]. specialize (IH (tally t s)). cbn zeta in IH.
    rewrite length_cons, Nat2Z.inj_succ.
    assert (t_used t <= t_used (tally t s) <= t_used t + 1) as H1.
    { cbn [tally t_used]. destruct (truthy _); lia. }
    assert (t_visitedCount t <= t_visitedCount (tally t s) <= t_visitedCount t + 1) as H2.
    { cbn [tally t_visitedCount]. destruct (truthy _); lia. }
    assert (t_bonusRedemptions t <= t_bonusRedemptions (tally t s)
            <= t_bonusRedemptions t + 1) as H3.
    { cbn [tally t_bonusRedemptions]. destruct (isBonusRedemption s); lia. }
    lia.
Qed.

(** X2. In every result the count is the length of the ledger, [unused]
    and [notVisited] are the complements of [used] and [visited], and
    [used], [visited] and [bonusRedemptions] lie between 0 and the count. *)
Theorem metrics_counts_consistent (kv : KV) (id : JsVal) :
  let r := loadPartnerData kv id in
  let m := metrics r in
  count m = Z.of_nat (List.length (submissions r))
  /\ unused m = count m - used m
  /\ notVisited m = count m - visited m
  /\ 0 <= used m <= count m
  /\ 0 <= visited m <= count m
  /\ 0 <= bonusRedemptions m <= count m.
Proof.
  intros r m. subst m r.
  destruct (loadPartnerData_cases kv id) as [->|(pushed & -> & _)].
  - cbn. lia.
  - cbn [metrics summarize submissions].
    set (subs := Array_sort byCreatedAtDesc pushed).
    pose proof (tally_counts subs noTotals) as H. cbn zeta in H.
    cbn [metricsOf count used unused visited notVisited bonusRedemptions].
    cbn [noTotals t_used t_visitedCount t_bonusRedemptions] in H. lia.
Qed.
End Counts.

(** ** Fields of a visit *)

Lemma assigned_None (k : string) (fields : list (string * JsVal)) :
  k ∉ map fst fields -> assigned k fields = None.
Proof.
  induction fields as [|[k' v] rest IH]; [done|].
  cbn [map fst assigned]. intros [Hne Hrest]%not_elem_of_cons.
  rewrite (IH Hrest). by destruct (String.eqb_spec k k').
Qed.

Lemma js_or_null (v : JsVal) : null_or_truthy (v <||> JNull).
Proof. unfold null_or_truthy, js_or. destruct (truthy v) eqn:E; [by right|by left]. Qed.

Section VisitFields.
Context {rt : JsRuntime}.

Lemma number_or_zero_not_NaN (v : JsVal) : number_or_zero v <> NaN.
Proof.
  destruct (number_or_zero_cases v) as [H|H]; intros E; rewrite E in H; discriminate H.
Qed.

Lemma num_or_not_NaN (a b : number) : a <> NaN -> b <> NaN -> num_or a b <> NaN.
Proof. intros Ha Hb. unfold num_or. by destruct (num_truthy a). Qed.

Lemma emitted_typed (id : JsVal) (s : obj) : emitted id s -> typed_visit s.
Proof.
  intros [(visitKey & record & ->)|(record & ->)].
  - unfold typed_visit, visitSubmission. cbv zeta. rewrite !get_objAssign.
    cbn [assigned String.eqb Ascii.eqb Bool.eqb].
    split; [|repeat split; try apply js_or_null; apply parsePayload_present].
    do 5 eexists. repeat split; try apply number_or_zero_not_NaN.
    apply num_or_not_NaN; apply number_or_zero_not_NaN.
  - unfold typed_visit, emailSubmission. cbv zeta. rewrite !get_objAssign.
    cbn [assigned String.eqb Ascii.eqb Bool.eqb].
    split; [|repeat split; try apply js_or_null; apply parsePayload_present].
    do 5 eexists. repeat split; try apply number_or_zero_not_NaN.
    apply num_or_not_NaN; apply number_or_zero_not_NaN.
Qed.

(** X3. Whatever the payload holds, every visit of a ledger has numbers
    other than [NaN] in [totalPrice], [estimatedPoints] and
    [pointsAwarded], booleans in [used] and [visited], [null] or a truthy
    value in [createdAt], [scannedAt] and [visitedAt], and an
    [originalPayload] that is neither [null] nor [undefined]. *)
Theorem visit_fields_typed (kv : KV) (id : JsVal) (s : obj) :
  s ∈ submissions (loadPartnerData kv id) ->
  (exists totalPrice estimatedPoints pointsAwarded used visited,
      get s "totalPrice" = JNum totalPrice /\ totalPrice <> NaN
      /\ get s "estimatedPoints" = JNum estimatedPoints /\ estimatedPoints <> NaN
      /\ get s "pointsAwarded" = JNum pointsAwarded /\ pointsAwarded <> NaN
      /\ get s "used" = JBool used
      /\ get s "visited" = JBool visited)
  /\ null_or_truthy (get s "createdAt")
  /\ null_or_truthy (get s "scannedAt")
  /\ null_or_truthy (get s "visitedAt")
  /\ is_present (get s "originalPayload") = true.
Proof. intros Hs%submissions_emitted. by apply (emitted_typed id). Qed.

(** X4. A visit is additive over its payload: in the current file a payload
    key that is not one of the written fields is found unchanged on the
    visit, and a payload key that is one of them is replaced by the computed
    value; in the older copy, which spreads the payload last, every payload
    key overrides the field of the same name. *)
Theorem payload_keys_on_the_visit (id : JsVal) (visitKey : string) (record : obj) :
  (forall k, k ∉ visitFields ->
      visitSubmission id visitKey record !! k = ownProps (parsePayload record) !! k)
  /\ (forall k, k ∉ emailFields ->
        emailSubmission id record !! k = ownProps (parsePayload record) !! k)
  /\ (forall k v, ownProps (parsePayload record) !! k = Some v ->
        Legacy.emailSubmission id record !! k = Some v)
  /\ (forall v, ownProps (parsePayload record) !! "used" = Some v ->
        get (emailSubmission id record) "used" = JBool (usedOf record (parsePayload record))
        /\ get (Legacy.emailSubmission id record) "used" = v).
Proof.
  assert (forall (o : obj) fields k, k ∉ map fst fields ->
            objAssign o fields !! k = o !! k) as Hpass.
  { intros o fields. revert o. induction fields as [|[k' v] rest IH]; intros o k Hk; [done|].
    cbn [map fst] in Hk. apply not_elem_of_cons in Hk as [Hne Hrest].
    change (objAssign o ((k', v) :: rest)) with (objAssign (<[k' := v]> o) rest).
    rewrite (IH _ _ Hrest). by rewrite lookup_insert_ne. }
  split; [|split; [|split]].
  - intros k Hk. unfold visitSubmission. cbv zeta. by apply Hpass.
  - intros k Hk. unfold emailSubmission. cbv zeta. by apply Hpass.
  - intros k v Hk. unfold Legacy.emailSubmission. cbv zeta.
    by apply lookup_union_Some_l.
  - intros v Hv. split.
    + unfold emailSubmission. cbv zeta. by rewrite get_objAssign.
    + unfold get, Legacy.emailSubmission. cbv zeta.
      by rewrite (lookup_union_Some_l _ _ _ _ Hv).
Qed.
End VisitFields.

Lemma visit_fields_typed_witness :
  (exists totalPrice estimatedPoints pointsAwarded used visited,
      get mergedVisit "totalPrice" = JNum totalPrice /\ totalPrice <> NaN
      /\ get mergedVisit "estimatedPoints" = JNum estimatedPoints /\ estimatedPoints <> NaN
      /\ get mergedVisit "pointsAwarded" = JNum pointsAwarded /\ pointsAwarded <> NaN
      /\ get mergedVisit "used" = JBool used
      /\ get mergedVisit "visited" = JBool visited)
  /\ null_or_truthy (get mergedVisit "createdAt")
  /\ null_or_truthy (get mergedVisit "scannedAt")
  /\ null_or_truthy (get mergedVisit "visitedAt")
  /\ is_present (get mergedVisit "originalPayload") = true.
Proof.
  apply (@visit_fields_typed node mergeStore (JStr "P1") mergedVisit).
  apply mergedVisit_in_ledger.
Defined.

Lemma payload_keys_on_the_visit_witness :
  @visitSubmission node (JStr "p1") "qr:a@x.com:p1:v1"
    {[ "payload" := JObj {[ "ticket" := JStr "VIP"; "used" := JBool true ]} ]} !! "ticket"
  = ownProps (@parsePayload node
                {[ "payload" := JObj {[ "ticket" := JStr "VIP"; "used" := JBool true ]} ]})
      !! "ticket"
  /\ @Legacy.emailSubmission node (JStr "p1")
       {[ "payload" := JObj {[ "ticket" := JStr "VIP"; "used" := JBool true ]} ]} !! "used"
     = Some (JBool true).
Proof.
  pose proof (@payload_keys_on_the_visit node (JStr "p1") "qr:a@x.com:p1:v1"
                {[ "payload" := JObj {[ "ticket" := JStr "VIP"; "used" := JBool true ]} ]})
    as (H1 & _ & H3 & _).
  split.
  - apply H1. vm_compute. intros H.
    repeat (apply elem_of_cons in H as [H|H]; [discriminate H|]).
    by apply elem_of_nil in H.
  - apply H3. reflexivity.
Defined.

(** ** [normalizePartnerId] and the candidate keys *)

Lemma set_add_elem_iff (x y : string) (l : list string) :
  x ∈ set_add y l <-> x = y \/ x ∈ l.
Proof.
  unfold set_add. destruct (str_mem y l) eqn:E.
  - apply str_mem_elem in E. split; [by right|]. by intros [->|?].
  - rewrite elem_of_app, list_elem_of_singleton. tauto.
Qed.

Lemma set_add_present (x : string) (l : list string) : x ∈ l -> set_add x l = l.
Proof. intros H%str_mem_elem. unfold set_add. by rewrite H. Qed.

Lemma set_add_length (x : string) (l : list string) :
  (List.length (set_add x l) <= S (List.length l))%nat.
Proof.
  unfold set_add. destruct (str_mem x l); [lia|]. rewrite length_app. cbn. lia.
Qed.

Lemma addTrimmed_NoDup (t : string) (l : list string) : NoDup l -> NoDup (addTrimmed t l).
Proof. intros H. unfold addTrimmed. destruct (str_nonempty t); [by apply set_add_NoDup|done]. Qed.

Lemma addTrimmed_length (t : string) (l : list string) :
  (List.length (addTrimmed t l) <= S (List.length l))%nat.
Proof. unfold addTrimmed. destruct (str_nonempty t); [apply set_add_length|lia]. Qed.

Lemma addTrimmed_twice (t : string) (l : list string) :
  addTrimmed t (addTrimmed t l) = addTrimmed t l.
Proof.
  unfold addTrimmed. destruct (str_nonempty t); [|done].
  apply set_add_present, set_add_elem.
Qed.

Lemma addTrimmed_elem_inv (key t : string) (l : list string) :
  key ∈ addTrimmed t l ->
  (key = "partner:visits:" +:+ t /\ t <> "") \/ key ∈ l.
Proof.
  unfold addTrimmed. destruct (str_nonempty t) eqn:E; [|by right].
  intros [->|?]%set_add_elem_iff; [left|by right].
  split; [done|]. intros ->. discriminate E.
Qed.

Section CandidateKeys.
Context {rt : JsRuntime}.

(** X5. On a string identifier [normalizePartnerId] is idempotent and does
    not change when the identifier is trimmed or lower-cased first; its
    result is trimmed and in lower case, and it is the empty string for
    every falsy identifier. *)
Theorem normalizePartnerId_canonical (p : string) :
  let n := normalizePartnerId (JStr p) in
  normalizePartnerId (JStr n) = n
  /\ normalizePartnerId (JStr (trim p)) = n
  /\ normalizePartnerId (JStr (toLowerCase p)) = n
  /\ trim n = n
  /\ toLowerCase n = n
  /\ (forall v, truthy v = false -> normalizePartnerId v = "").
Proof.
  intros n. subst n. rewrite !normalizePartnerId_str.
  rewrite !trim_toLowerCase, !trim_idem, !toLowerCase_idem.
  repeat split. apply normalizePartnerId_falsy.
Qed.

Lemma variantsOf_four (t : string) :
  variantsOf t
  = addTrimmed (toUpperCase (toLowerCase t))
      (addTrimmed (toUpperCase t) (addTrimmed (toLowerCase t) (addTrimmed t []))).
Proof. unfold variantsOf. by rewrite (addTrimmed_twice (toLowerCase t)). Qed.

(** X6. A string identifier resolves at most four visit-set keys -- its
    trimmed spelling, the normalized identifier and the capitals of both --
    and at most two email-set keys, without repeats.  Every visit-set key
    is [partner:visits:] followed by a non-empty, trimmed spelling, so a
    blank identifier resolves no visit-set key at all. *)
Theorem candidate_keys_shape (p : string) :
  NoDup (visitSetKeysOf (JStr p))
  /\ (List.length (visitSetKeysOf (JStr p)) <= 4)%nat
  /\ (forall key, key ∈ visitSetKeysOf (JStr p) ->
        exists v, key = "partner:visits:" +:+ v /\ v <> "" /\ trim v = v
                  /\ (v = trim p \/ v = normalizePartnerId (JStr p)
                      \/ v = toUpperCase (trim p)
                      \/ v = toUpperCase (normalizePartnerId (JStr p))))
  /\ (trim p = "" -> visitSetKeysOf (JStr p) = [])
  /\ NoDup (emailSetKeys (JStr p))
  /\ (List.length (emailSetKeys (JStr p)) <= 2)%nat.
Proof.
  rewrite visitSetKeysOf_str, variantsOf_four, normalizePartnerId_str.
  split; [|split; [|split; [|split; [|split]]]].
  - do 4 apply addTrimmed_NoDup. apply NoDup_nil_2.
  - pose proof (addTrimmed_length (toUpperCase (toLowerCase (trim p)))
                  (addTrimmed (toUpperCase (trim p))
                     (addTrimmed (toLowerCase (trim p)) (addTrimmed (trim p) [])))).
    pose proof (addTrimmed_length (toUpperCase (trim p))
                  (addTrimmed (toLowerCase (trim p)) (addTrimmed (trim p) []))).
    pose proof (addTrimmed_length (toLowerCase (trim p)) (addTrimmed (trim p) [])).
    pose proof (addTrimmed_length (trim p) []). cbn [List.length] in *. lia.
  - intros key Hkey.
    apply addTrimmed_elem_inv in Hkey as [[-> Hne]|Hkey].
    { exists (toUpperCase (toLowerCase (trim p))). split; [done|]. split; [done|].
      split; [|by right; right; right].
      by rewrite trim_toUpperCase, trim_toLowerCase, trim_idem. }
    apply addTrimmed_elem_inv in Hkey as [[-> Hne]|Hkey].
    { exists (toUpperCase (trim p)). split; [done|]. split; [done|].
      split; [|by right; right; left]. by rewrite trim_toUpperCase, trim_idem. }
    apply addTrimmed_elem_inv in Hkey as [[-> Hne]|Hkey].
    { exists (toLowerCase (trim p)). split; [done|]. split; [done|].
      split; [|by right; left]. by rewrite trim_toLowerCase, trim_idem. }
    apply addTrimmed_elem_inv in Hkey as [[-> Hne]|Hkey].
    { exists (trim p). split; [done|]. split; [done|]. split; [|by left].
      by rewrite trim_idem. }
    by apply elem_of_nil in Hkey.
  - intros ->. apply variantsOf_blank.
  - unfold emailSetKeys.
    destruct (str_nonempty _); destruct (_ && _);
      repeat apply set_add_NoDup; apply NoDup_nil_2.
  - unfold emailSetKeys.
    set (a := "partner:" +:+ normalizePartnerId (JStr p)).
    set (b := "partner:" +:+ ToString (JStr p)).
    pose proof (set_add_length a []). pose proof (set_add_length b []).
    pose proof (set_add_length b (set_add a [])).
    destruct (str_nonempty _); destruct (_ && _); cbn [List.length] in *; lia.
Qed.

Lemma is_visit_member_Some (member : JsVal) (k : string) :
  is_visit_member member = Some k
  <-> member = JStr k /\ k <> "" /\ startsWith "qr:" k = true.
Proof.
  unfold is_visit_member. destruct member as [| | | |m| |]; try (split; [done|by intros [? _]]).
  unfold str_nonempty. destruct (String.eqb_spec m "") as [->|Hne]; cbn [negb andb].
  - split; [done|]. by intros ([= <-] & ? & _).
  - destruct (startsWith "qr:" m) eqn:E.
    + split; [by intros [= <-]|]. by intros ([= <-] & _).
    + split; [done|]. intros ([= <-] & _ & ?). congruence.
Qed.

Lemma addMembers_elem (kv : KV) (acc : list string) (setKey k : string) :
  k ∈ addMembers kv acc setKey
  <-> k ∈ acc
      \/ exists members, smembers kv setKey = Some members
                         /\ JStr k ∈ members /\ k <> "" /\ startsWith "qr:" k = true.
Proof.
  unfold addMembers. destruct (smembers kv setKey) as [members|].
  - revert acc. induction members as [|m members IH]; intros acc; cbn [foldl].
    + split; [by left|]. intros [?|(ms & [= <-] & Hin & _)]; [done|].
      by apply elem_of_nil in Hin.
    + rewrite IH. destruct (is_visit_member m) as [k'|] eqn:Em.
      * apply is_visit_member_Some in Em as (-> & Hne & Hqr).
        rewrite set_add_elem_iff. split.
        -- intros [[->|?]|(ms & [= <-] & Hin & H)]; [right|by left|right].
           ++ eexists. split; [done|]. split; [apply list_elem_of_here|done].
           ++ eexists. split; [done|]. split; [by apply list_elem_of_further|done].
        -- intros [?|(ms & [= <-] & Hin & H)]; [left; by right|].
           apply elem_of_cons in Hin as [[= ->]|Hin]; [left; by left|].
           right. eexists. by split.
      * split.
        -- intros [?|(ms & [= <-] & Hin & H)]; [by left|right].
           eexists. split; [done|]. split; [by apply list_elem_of_further|done].
        -- intros [?|(ms & [= <-] & Hin & Hne & Hqr)]; [by left|].
           apply elem_of_cons in Hin as [<-|Hin].
           ++ assert (is_visit_member (JStr k) = Some k) as E
                by (by apply is_visit_member_Some).
              congruence.
           ++ right. eexists. by split.
  - split; [by left|]. by intros [?|(ms & ? & _)].
Qed.

(** X7. The record keys that are read are exactly the non-empty string
    members starting with [qr:] of the visit sets the identifier resolves
    to; each is read once. *)
Theorem visitRecordKeys_are_qr_members (kv : KV) (id : JsVal) :
  NoDup (visitRecordKeysOf kv id)
  /\ forall k, k ∈ visitRecordKeysOf kv id
               <-> exists setKey members,
                     setKey ∈ visitSetKeysOf id
                     /\ smembers kv setKey = Some members
                     /\ JStr k ∈ members /\ k <> "" /\ startsWith "qr:" k = true.
Proof.
  split; [apply visitRecordKeysOf_NoDup|]. intros k. unfold visitRecordKeysOf.
  assert (forall keys acc,
            k ∈ foldl (addMembers kv) acc keys
            <-> k ∈ acc
                \/ exists setKey members,
                     setKey ∈ keys /\ smembers kv setKey = Some members
                     /\ JStr k ∈ members /\ k <> "" /\ startsWith "qr:" k = true) as H.
  { induction keys as [|key keys IH]; intros acc; cbn [foldl].
    - split; [by left|]. intros [?|(? & ? & Hin & _)]; [done|].
      by apply elem_of_nil in Hin.
    - rewrite IH, addMembers_elem. split.
      + intros [[?|(ms & Hs & H)]|(sk & ms & Hin & H)]; [by left|right|right].
        * exists key, ms. split; [apply list_elem_of_here|]. by split.
        * exists sk, ms. split; [by apply list_elem_of_further|done].
      + intros [?|(sk & ms & Hin & Hs & H)]; [left; by left|].
        apply elem_of_cons in Hin as [->|Hin].
        * left. right. exists ms. by split.
        * right. exists sk, ms. by split. }
  rewrite H. split; [|by right]. intros [Hnil|?]; [|done]. by apply elem_of_nil in Hnil.
Qed.
End CandidateKeys.

(** ** Loading the record of a visit key *)

Section RecordLoading.
Context {rt : JsRuntime}.

Lemma no_record_not_filled (kv : KV) (key : string) :
  no_record (hgetall kv key) -> is_filled (loadRecordFromKey kv key) = false.
Proof. unfold loadRecordFromKey. by intros [-> | [-> | ->]]. Qed.

Lemma recordForKey_fallback (kv : KV) (visitKey email : string) (legacy : option obj) :
  no_record (hgetall kv visitKey) -> email <> "" ->
  hgetall kv ("qr:email:" +:+ email) = Some legacy ->
  recordForKey kv visitKey email = legacy.
Proof.
  intros Hno He Hl. unfold recordForKey.
  rewrite (no_record_not_filled _ _ Hno), Hl. cbn [negb].
  unfold str_nonempty. by destruct (String.eqb_spec email "").
Qed.

Lemma recordForKey_unfilled (kv : KV) (visitKey email : string) :
  no_record (hgetall kv visitKey) ->
  email = "" \/ no_record (hgetall kv ("qr:email:" +:+ email)) ->
  is_filled (recordForKey kv visitKey email) = false.
Proof.
  intros Hno Hcase. unfold recordForKey.
  rewrite (no_record_not_filled _ _ Hno). cbn [negb].
  destruct Hcase as [->|Hleg]; [by apply no_record_not_filled|].
  destruct (str_nonempty email); [|by apply no_record_not_filled].
  destruct Hleg as [-> | [-> | ->]]; [by apply no_record_not_filled|done..].
Qed.

Lemma recordForKey_current_only (kv : KV) (visitKey email : string) (current : obj) :
  hgetall kv visitKey = Some (Some current) -> current <> ∅ ->
  email = "" \/ no_record (hgetall kv ("qr:email:" +:+ email)) ->
  recordForKey kv visitKey email = Some current.
Proof.
  intros Hc Hne Hcase. unfold recordForKey, loadRecordFromKey. rewrite Hc.
  unfold is_filled at 1, obj_is_empty. rewrite bool_decide_eq_false_2 by done.
  cbn [negb]. destruct Hcase as [->|Hleg]; [done|].
  destruct (str_nonempty email); [|done].
  by destruct Hleg as [-> | [-> | ->]].
Qed.

Lemma visitFromKey_unfilled (kv : KV) (id : JsVal) (visitKey : string) :
  is_filled (recordForKey kv visitKey (visitEmailFromKey visitKey)) = false ->
  visitFromKey kv id visitKey = None.
Proof.
  unfold visitFromKey, is_filled.
  destruct (recordForKey _ _ _) as [record|]; [|done].
  by destruct (obj_is_empty record).
Qed.

(** X8. When the record of a visit key is missing, empty or unreadable and
    the legacy record of the key's email holds data, the ledger has exactly
    one visit for the key, built from the legacy record alone. *)
Theorem legacy_record_stands_in (kv : KV) (id : JsVal)
    (email partner visitId : string) (legacy : obj) :
  no_colon email = true -> no_colon partner = true -> one_line visitId = true ->
  let visitKey := visitKeyOf email partner visitId in
  visitKey ∈ visitRecordKeysOf kv id ->
  hgetall kv visitKey = None \/ hgetall kv visitKey = Some None
    \/ hgetall kv visitKey = Some (Some ∅) ->
  hgetall kv ("qr:email:" +:+ email) = Some (Some legacy) -> legacy <> ∅ ->
  filter (fun s => has_qrKey visitKey s = true) (submissions (loadPartnerData kv id))
  = [visitSubmission id visitKey legacy].
Proof.
  intros He Hp Hv visitKey Hin Hno Hl Hne.
  apply visit_emitted_once; [done|].
  unfold visitFromKey, visitEmailFromKey. subst visitKey.
  rewrite (visitKeyMatch_triple _ _ _ He Hp Hv).
  assert (email <> "") as Hemail.
  { apply andb_prop in He as [He _]. unfold str_nonempty in He.
    by destruct (String.eqb_spec email ""). }
  rewrite (recordForKey_fallback _ _ _ _ Hno Hemail Hl).
  unfold obj_is_empty. by rewrite bool_decide_eq_false_2.
Qed.

(** X9. A visit key whose own record and legacy record both hold nothing
    gives no visit-set submission.  A key whose record holds data while the
    legacy record holds nothing, cannot be read, or cannot be named because
    the key does not follow the pattern, gives a visit built from its own
    record alone. *)
Theorem record_without_legacy (kv : KV) (id : JsVal) (visitKey : string) :
  let email := visitEmailFromKey visitKey in
  let legacy := hgetall kv ("qr:email:" +:+ email) in
  (email = "" \/ legacy = None \/ legacy = Some None \/ legacy = Some (Some ∅)) ->
  (no_record (hgetall kv visitKey) ->
     filter (fun s => has_qrKey visitKey s = true) (visitSubmissions kv id) = [])
  /\ (forall current, hgetall kv visitKey = Some (Some current) -> current <> ∅ ->
        visitFromKey kv id visitKey = Some (visitSubmission id visitKey current)).
Proof.
  intros email legacy Hleg. subst email legacy. split.
  - intros Hno. unfold visitSubmissions.
    assert (visitFromKey kv id visitKey = None) as Hnone.
    { apply visitFromKey_unfilled. by apply recordForKey_unfilled. }
    induction (visitRecordKeysOf kv id) as [|k keys IH]; [done|].
    cbn [omap list_omap]. destruct (visitFromKey kv id k) as [s|] eqn:E; [|done].
    rewrite filter_cons_False; [done|].
    rewrite (visitFromKey_qrKey _ _ _ visitKey _ E). intros ->. congruence.
  - intros current Hc Hne. unfold visitFromKey.
    rewrite (recordForKey_current_only _ _ _ _ Hc Hne Hleg).
    unfold obj_is_empty. by rewrite bool_decide_eq_false_2.
Qed.

Lemma foldl_pointwise {X Y : Type} (f g : X -> Y -> X) (l : list Y) (x : X) :
  (forall a y, y ∈ l -> f a y = g a y) -> foldl f x l = foldl g x l.
Proof.
  revert x. induction l as [|y l IH]; intros x H; [done|]. cbn [foldl].
  rewrite (H x y) by apply list_elem_of_here.
  apply IH. intros a z Hz. apply H. by apply list_elem_of_further.
Qed.

Lemma recordForKey_same_hashes (kv kv' : KV) (visitKey email : string) :
  (forall key, hgetall kv key = hgetall kv' key) ->
  recordForKey kv visitKey email = recordForKey kv' visitKey email.
Proof. intros H. unfold recordForKey, loadRecordFromKey. by rewrite !H. Qed.

(** X10. Once the visit sets give a submission the email sets are not
    consulted: two stores with the same hashes and the same visit sets for
    the identifier give the same result, whatever their other sets hold. *)
Theorem email_sets_ignored_after_visits (kv kv' : KV) (id : JsVal) :
  (forall key, hgetall kv key = hgetall kv' key) ->
  (forall key, key ∈ visitSetKeysOf id -> smembers kv key = smembers kv' key) ->
  visitSubmissions kv id <> [] ->
  loadPartnerData kv id = loadPartnerData kv' id.
Proof.
  intros Hh Hs Hne.
  assert (visitSubmissions kv' id = visitSubmissions kv id) as Hv.
  { unfold visitSubmissions, visitRecordKeysOf.
    rewrite (foldl_pointwise (addMembers kv') (addMembers kv) (visitSetKeysOf id)).
    - apply omap_pointwise. intros k. unfold visitFromKey.
      by rewrite (recordForKey_same_hashes kv' kv) by done.
    - intros acc key Hkey. unfold addMembers. by rewrite (Hs key Hkey). }
  unfold loadPartnerData. rewrite Hv.
  destruct (visitSubmissions kv id); done.
Qed.

Lemma visitFromKey_quiet (kv : KV) (id : JsVal) (visitKey : string) :
  visitFromKey (quiet kv) id visitKey = visitFromKey kv id visitKey.
Proof.
  unfold visitFromKey, recordForKey, loadRecordFromKey, quiet.
  cbn [hgetall].
  destruct (hgetall kv visitKey) as [[current|]|];
    destruct (str_nonempty (visitEmailFromKey visitKey));
    destruct (hgetall kv ("qr:email:" +:+ visitEmailFromKey visitKey)) as [[legacy|]|];
    cbn [is_filled negb]; try done;
    destruct (obj_is_empty current) eqn:Ec; cbn [negb]; try done;
    try (destruct (obj_is_empty legacy) eqn:El; cbn [negb]; try done);
    rewrite ?Ec; try done.
Qed.

(** X11. A rejected store read counts as an empty answer: the result is the
    one obtained from the store in which every rejected [smembers] returns
    no member and every rejected [hgetall] returns [null]. *)
Theorem rejections_read_as_empty (kv : KV) (id : JsVal) :
  loadPartnerData kv id = loadPartnerData (quiet kv) id.
Proof.
  assert (visitSubmissions (quiet kv) id = visitSubmissions kv id) as Hv.
  { unfold visitSubmissions, visitRecordKeysOf.
    rewrite (foldl_pointwise (addMembers (quiet kv)) (addMembers kv) (visitSetKeysOf id)).
    - apply omap_pointwise. intros k. apply visitFromKey_quiet.
    - intros acc key _. unfold addMembers, quiet. cbn [smembers].
      by destruct (smembers kv key). }
  assert (forall keys, memberEmails (quiet kv) keys = memberEmails kv keys) as Hm.
  { intros keys. unfold memberEmails.
    assert (map (fun key => default [] (smembers (quiet kv) key)) keys
            = map (fun key => default [] (smembers kv key)) keys) as ->; [|done].
    induction keys as [|k keys IH]; [done|]. cbn [map]. by rewrite IH. }
  assert (forall email, emailVisit (quiet kv) id email = emailVisit kv id email) as He.
  { intros email. unfold emailVisit, quiet. cbn [hgetall].
    by destruct (hgetall kv ("qr:email:" +:+ email)) as [[record|]|]. }
  unfold loadPartnerData. rewrite Hv, Hm.
  destruct (_ && _); [done|]. destruct (visitSubmissions kv id); [|done].
  destruct (memberEmails kv (emailSetKeys id)) as [|e es]; [done|].
  by rewrite (omap_pointwise _ _ _ He).
Qed.
End RecordLoading.

Lemma legacy_record_stands_in_witness :
  filter (fun s => has_qrKey (visitKeyOf "a@x.com" "p1" "v1") s = true)
    (submissions (@loadPartnerData node fallbackStore (JStr "p1")))
  = [@visitSubmission node (JStr "p1") (visitKeyOf "a@x.com" "p1" "v1")
       {[ "totalPrice" := JNum (num_of_Z 40); "status" := JStr " Completed " ]}].
Proof.
  apply (@legacy_record_stands_in node fallbackStore (JStr "p1") "a@x.com" "p1" "v1");
    try reflexivity.
  - vm_compute. constructor.
  - right. left. reflexivity.
  - intros H. apply (f_equal (fun m : obj => m !! "status")) in H. discriminate H.
Defined.

Lemma record_without_legacy_witness :
  (no_record (hgetall fallbackStore "qr:b@x.com:p1:v2") ->
     filter (fun s => has_qrKey "qr:b@x.com:p1:v2" s = true)
       (@visitSubmissions node fallbackStore (JStr "p1")) = [])
  /\ (forall current,
        hgetall fallbackStore "qr:b@x.com:p1:v2" = Some (Some current) -> current <> ∅ ->
        @visitFromKey node fallbackStore (JStr "p1") "qr:b@x.com:p1:v2"
        = Some (@visitSubmission node (JStr "p1") "qr:b@x.com:p1:v2" current)).
Proof.
  apply (@record_without_legacy node fallbackStore (JStr "p1") "qr:b@x.com:p1:v2").
  right. right. left. reflexivity.
Defined.

Lemma email_sets_ignored_after_visits_witness :
  @loadPartnerData node fallbackStore (JStr "p1")
  = @loadPartnerData node fallbackStoreWithEmails (JStr "p1").
Proof.
  apply (@email_sets_ignored_after_visits node).
  - intros key. reflexivity.
  - intros key Hkey.
    assert (@visitSetKeysOf node (JStr "p1") = ["partner:visits:p1"; "partner:visits:P1"])
      as E by reflexivity.
    rewrite E in Hkey.
    apply elem_of_cons in Hkey as [->|Hkey]; [reflexivity|].
    apply list_elem_of_singleton in Hkey as ->. reflexivity.
  - intros E. apply (f_equal List.length) in E. vm_compute in E. discriminate E.
Defined.

(** ** The label, the keys and the status words of a ledger *)

Lemma existsb_elem {X : Type} (f : X -> bool) (x : X) (l : list X) :
  x ∈ l -> f x = true -> existsb f l = true.
Proof.
  intros Hin Hf. induction l as [|y l IH]; [by apply elem_of_nil in Hin|].
  cbn [existsb]. apply elem_of_cons in Hin as [<-|Hin]; [by rewrite Hf|].
  rewrite (IH Hin). apply orb_true_r.
Qed.

Section LedgerShape.
Context {rt : JsRuntime}.

Lemma labelOf_null_or_truthy (s : obj) : null_or_truthy (labelOf s).
Proof. unfold labelOf. apply js_or_null. Qed.

Lemma findLabel_first (subs : list obj) :
  (findLabel subs = JNull /\ Forall (fun s => truthy (labelOf s) = false) subs)
  \/ (truthy (findLabel subs) = true
      /\ exists before s after,
           subs = before ++ s :: after
           /\ Forall (fun s => truthy (labelOf s) = false) before
           /\ labelOf s = findLabel subs).
Proof.
  induction subs as [|s subs IH]; [left; by split|].
  cbn [findLabel]. destruct (truthy (labelOf s)) eqn:Es.
  - right. split; [done|]. by exists [], s, subs.
  - assert (labelOf s = JNull) as Hnull.
    { destruct (labelOf_null_or_truthy s) as [?|?]; [done|congruence]. }
    destruct subs as [|s' subs'].
    + left. split; [done|]. by repeat constructor.
    + destruct IH as [[Hn Hall]|(Ht & before & x & after & E & Hall & Hx)].
      * left. split; [done|]. by constructor.
      * right. split; [done|]. exists (s :: before), x, after.
        split; [by rewrite E|]. split; [by constructor|done].
Qed.

(** X12. The label of a result is [null] when no visit of the ledger has a
    label; otherwise it is the truthy label of the first visit, in ledger
    order, that has one. *)
Theorem partnerLabel_first_labelled (kv : KV) (id : JsVal) :
  let r := loadPartnerData kv id in
  (partnerLabel r = JNull
   /\ Forall (fun s => truthy (labelOf s) = false) (submissions r))
  \/ (truthy (partnerLabel r) = true
      /\ exists before s after,
           submissions r = before ++ s :: after
           /\ Forall (fun s => truthy (labelOf s) = false) before
           /\ labelOf s = partnerLabel r).
Proof.
  intros r. subst r.
  destruct (loadPartnerData_cases kv id) as [->|(pushed & -> & _)].
  - left. by split.
  - cbn [partnerLabel submissions summarize]. apply findLabel_first.
Qed.

Lemma qrKey_of_visits (kv : KV) (id : JsVal) (keys : list string) :
  map (fun s => get s "qrKey") (omap (visitFromKey kv id) keys)
  = map JStr (filter (fun k => is_Some (visitFromKey kv id k)) keys).
Proof.
  induction keys as [|k keys IH]; [done|]. cbn [omap list_omap].
  destruct (visitFromKey kv id k) as [s|] eqn:E.
  - rewrite filter_cons_True by (by rewrite E). cbn [map]. rewrite <- IH. f_equal.
    unfold visitFromKey in E. destruct (recordForKey _ _ _) as [record|]; [|done].
    destruct (obj_is_empty record); [done|]. injection E as <-.
    unfold visitSubmission. by rewrite get_objAssign.
  - rewrite filter_cons_False; [done|]. rewrite E. by intros [? ?].
Qed.

(** X13. When the visit sets give a submission, the ledger is a
    rearrangement of the visit-set submissions: no two visits carry the
    same [qrKey], every [qrKey] is one of the record keys read, and there
    are at most as many visits as record keys. *)
Theorem visit_keys_distinct (kv : KV) (id : JsVal) :
  visitSubmissions kv id <> [] ->
  let r := loadPartnerData kv id in
  submissions r ≡ₚ visitSubmissions kv id
  /\ NoDup (map (fun s => get s "qrKey") (submissions r))
  /\ (forall s, s ∈ submissions r ->
        exists k, k ∈ visitRecordKeysOf kv id /\ get s "qrKey" = JStr k)
  /\ count (metrics r) <= Z.of_nat (List.length (visitRecordKeysOf kv id)).
Proof.
  intros Hne r.
  assert (r = summarize id (visitSubmissions kv id)) as ->.
  { subst r. unfold loadPartnerData. destruct (truthy id) eqn:Ht.
    - rewrite andb_false_r. by destruct (visitSubmissions kv id).
    - exfalso. apply Hne. unfold visitSubmissions, visitRecordKeysOf.
      by rewrite (visitSetKeysOf_falsy _ Ht). }
  cbn [submissions summarize metrics metricsOf count].
  set (keys := visitRecordKeysOf kv id).
  assert (NoDup (map (fun s => get s "qrKey") (visitSubmissions kv id))) as Hnd.
  { unfold visitSubmissions. rewrite qrKey_of_visits.
    apply NoDup_fmap_2; [by intros ? ? [= ->]|].
    apply NoDup_filter, visitRecordKeysOf_NoDup. }
  split; [apply Array_sort_perm|]. split; [by rewrite Array_sort_perm|]. split.
  - intros s Hs. rewrite Array_sort_perm in Hs.
    unfold visitSubmissions in Hs. apply list_elem_of_omap in Hs as (k & Hk & E).
    exists k. split; [done|].
    unfold visitFromKey in E. destruct (recordForKey _ _ _) as [record|]; [|done].
    destruct (obj_is_empty record); [done|]. injection E as <-.
    unfold visitSubmission. by rewrite get_objAssign.
  - rewrite Array_sort_length. unfold visitSubmissions. fold keys.
    apply inj_le. clear. induction keys as [|k keys IH]; [done|].
    cbn [omap list_omap]. destruct (visitFromKey kv id k); cbn [List.length]; lia.
Qed.

Lemma status_string_found (candidates : list JsVal) (v : JsVal) (f : string -> bool) :
  v ∈ candidates -> is_present v = true ->
  f (toLowerCase (trim (ToString v))) = true ->
  existsb f (statusStrings candidates) = true.
Proof.
  intros Hin Hp Hf. apply (existsb_elem f (toLowerCase (trim (ToString v)))); [|done].
  unfold statusStrings. apply list_elem_of_fmap.
  exists v. split; [done|]. by apply list_elem_of_filter.
Qed.

Lemma shared_status_in_both (w : string) :
  str_mem w sharedStatuses = true ->
  str_mem w truthyStatuses = true /\ str_mem w visitedStatuses = true.
Proof.
  intros H%str_mem_elem. unfold sharedStatuses in H.
  repeat (apply elem_of_cons in H as [->|H]; [by split|]).
  by apply elem_of_nil in H.
Qed.

(** X14. The two status vocabularies overlap: a record whose [status],
    trimmed and lower-cased, is one of [true], [redeemed], [completed],
    [yes] or [1] gives a visit that is both used and visited, on either
    path; and a record with a truthy [visitedAt] gives a visited visit. *)
Theorem status_word_sets_both_flags (id : JsVal) (visitKey : string) (record : obj) :
  (forall w, get record "status" = JStr w ->
     str_mem (toLowerCase (trim w)) sharedStatuses = true ->
     get (visitSubmission id visitKey record) "used" = JBool true
     /\ get (visitSubmission id visitKey record) "visited" = JBool true
     /\ get (emailSubmission id record) "used" = JBool true
     /\ get (emailSubmission id record) "visited" = JBool true)
  /\ (truthy (get record "visitedAt") = true ->
      get (visitSubmission id visitKey record) "visited" = JBool true
      /\ get (emailSubmission id record) "visited" = JBool true).
Proof.
  split.
  - intros w Hw [Hu Hv]%shared_status_in_both.
    assert (usedOf record (parsePayload record) = true) as Hused.
    { unfold usedOf. apply (status_string_found _ (JStr w)); [|done|done].
      rewrite <- Hw. do 2 apply list_elem_of_further. apply list_elem_of_here. }
    assert (existsb (fun value => str_mem value visitedStatuses)
              (visitedValues record (parsePayload record)) = true) as Hvisited.
    { unfold visitedValues. apply (status_string_found _ (JStr w)); [|done|done].
      rewrite <- Hw. do 2 apply list_elem_of_further. apply list_elem_of_here. }
    unfold visitSubmission, emailSubmission. cbv zeta. rewrite !get_objAssign.
    cbn [assigned String.eqb Ascii.eqb Bool.eqb]. by rewrite Hused, Hvisited.
  - intros Hat. unfold visitSubmission, emailSubmission. cbv zeta.
    rewrite !get_objAssign. cbn [assigned String.eqb Ascii.eqb Bool.eqb].
    rewrite Hat. by rewrite !orb_true_r.
Qed.
End LedgerShape.

Lemma visit_keys_distinct_witness :
  submissions (@loadPartnerData node sortStore (JStr "p1"))
  ≡ₚ @visitSubmissions node sortStore (JStr "p1")
  /\ NoDup (map (fun s => get s "qrKey")
              (submissions (@loadPartnerData node sortStore (JStr "p1"))))
  /\ (forall s, s ∈ submissions (@loadPartnerData node sortStore (JStr "p1")) ->
        exists k, k ∈ @visitRecordKeysOf node sortStore (JStr "p1")
                  /\ get s "qrKey" = JStr k)
  /\ count (metrics (@loadPartnerData node sortStore (JStr "p1")))
     <= Z.of_nat (List.length (@visitRecordKeysOf node sortStore (JStr "p1"))).
Proof.
  apply (@visit_keys_distinct node sortStore (JStr "p1")).
  intros E. apply (f_equal List.length) in E. vm_compute in E. discriminate E.
Defined.

Lemma status_word_sets_both_flags_witness :
  get (@visitSubmission node (JStr "p1") "qr:a@x.com:p1:v1"
         {[ "status" := JStr " Completed " ]}) "used" = JBool true
  /\ get (@visitSubmission node (JStr "p1") "qr:a@x.com:p1:v1"
            {[ "status" := JStr " Completed " ]}) "visited" = JBool true
  /\ get (@emailSubmission node (JStr "p1") {[ "status" := JStr " Completed " ]}) "used"
     = JBool true
  /\ get (@emailSubmission node (JStr "p1") {[ "status" := JStr " Completed " ]}) "visited"
     = JBool true.
Proof.
  apply (proj1 (@status_word_sets_both_flags node (JStr "p1") "qr:a@x.com:p1:v1"
                  {[ "status" := JStr " Completed " ]}) " Completed ");
    reflexivity.
Defined.

(** ** The client's sort and totals *)

Section SortedInput.
Context {A : Type} (cmp : A -> A -> number) (key : A -> Z).
Hypothesis cmp_key : forall x y, num_pos (cmp x y) = true <-> key x < key y.

(** A stable sort leaves an array alone that is in order already. *)
Lemma Array_sort_unchanged (l : list A) :
  StronglySorted (fun a b => key b <= key a) l -> Array_sort cmp l = l.
Proof.
  induction 1 as [|x l Hs IH Hall]; [done|].
  change (Array_sort cmp (x :: l)) with (sort_insert cmp x (Array_sort cmp l)).
  rewrite IH. destruct l as [|y l']; [done|]. cbn [sort_insert].
  destruct (num_pos (cmp x y)) eqn:E; [|done].
  apply cmp_key in E. apply Forall_cons in Hall as [Hy _]. lia.
Qed.
End SortedInput.

Section ClientSort.
Context {rt : JsRuntime}.

Lemma getTimestamp_integer (v : JsVal) : exists z, getTimestamp v = num_of_Z z.
Proof.
  unfold getTimestamp. destruct (truthy v); [|by exists 0].
  destruct (getTime_cases v) as [->|[z ->]]; [by exists 0|by exists z].
Qed.

Lemma byTimestampDesc_key (a b : JsVal) :
  num_pos (byTimestampDesc a b) = true <-> timestampMillis a < timestampMillis b.
Proof.
  unfold byTimestampDesc, timestampMillis.
  destruct (getTimestamp_integer (getOpt a "createdAt" <??> JNull)) as [za ->].
  destruct (getTimestamp_integer (getOpt b "createdAt" <??> JNull)) as [zb ->].
  unfold num_of_Z at 3 4. rewrite !Qfloor_Z. apply num_pos_sub.
Qed.

Lemma filter_defined (entries : list JsVal) :
  Forall (fun v => is_undefined v = false) entries ->
  filter (fun v => is_undefined v = false) entries = entries
  /\ filter (fun v => is_undefined v = true) entries = [].
Proof.
  induction 1 as [|v l Hv Hl [IH1 IH2]]; [done|].
  rewrite filter_cons_True by done. rewrite filter_cons_False by congruence.
  by rewrite IH1, IH2.
Qed.

(** X15. Whatever the dates are, the client's sort returns a rearrangement
    of the array it is given (a JSON array holds no [undefined]) in
    descending order of time, with every missing or unparseable [createdAt]
    read as epoch 0; an array that is in that order already comes back
    unchanged, so sorting twice changes nothing; and what is not an array
    gives the empty list. *)
Theorem sortPartnerSubmissions_sorted (entries : list JsVal) :
  Forall (fun v => is_undefined v = false) entries ->
  let sorted := sortPartnerSubmissions (JArr entries) in
  sorted ≡ₚ entries
  /\ StronglySorted (fun a b => timestampMillis b <= timestampMillis a) sorted
  /\ (StronglySorted (fun a b => timestampMillis b <= timestampMillis a) entries ->
      sorted = entries)
  /\ sortPartnerSubmissions (JArr sorted) = sorted
  /\ (forall v, (forall l, v <> JArr l) -> sortPartnerSubmissions v = []).
Proof.
  intros Hdef sorted.
  assert (sorted = Array_sort byTimestampDesc entries) as Es.
  { subst sorted. unfold sortPartnerSubmissions, Array_sort_values.
    destruct (filter_defined entries Hdef) as [-> ->]. apply app_nil_r. }
  assert (StronglySorted (fun a b => timestampMillis b <= timestampMillis a) sorted) as Hs.
  { rewrite Es.
    apply (Array_sort_sorted byTimestampDesc timestampMillis (fun _ => True)).
    - intros x y _ _. apply byTimestampDesc_key.
    - by apply Forall_forall. }
  split; [rewrite Es; apply Array_sort_perm|]. split; [done|]. split; [|split].
  - intros Hin. rewrite Es.
    by apply (Array_sort_unchanged byTimestampDesc timestampMillis byTimestampDesc_key).
  - unfold sortPartnerSubmissions, Array_sort_values.
    assert (Forall (fun v => is_undefined v = false) sorted) as Hdef'.
    { rewrite Es. apply Forall_forall. intros v Hv. rewrite Array_sort_perm in Hv.
      rewrite Forall_forall in Hdef. by apply Hdef. }
    destruct (filter_defined sorted Hdef') as [-> ->]. rewrite app_nil_r.
    by apply (Array_sort_unchanged byTimestampDesc timestampMillis byTimestampDesc_key).
  - intros v Hv. destruct v; try done. by destruct (Hv l).
Qed.

Lemma getTime_zero : getTime (JNum zero) = zero.
Proof. reflexivity. Qed.

Lemma timestampMillis_createdMillis (s : obj) : timestampMillis (JObj s) = createdMillis s.
Proof.
  unfold timestampMillis, createdMillis, createdTime, getTimestamp.
  assert (getOpt (JObj s) "createdAt" = get s "createdAt") as ->.
  { unfold getOpt, getProp, get. cbn [ownProps]. by destruct (s !! "createdAt"). }
  unfold js_or. destruct (truthy (get s "createdAt")) eqn:E.
  - assert (get s "createdAt" <??> JNull = get s "createdAt") as ->
      by (by destruct (get s "createdAt")).
    rewrite E. by destruct (getTime_cases (get s "createdAt")) as [->|[z ->]].
  - assert (truthy (get s "createdAt" <??> JNull) = false) as ->
      by (by destruct (get s "createdAt")).
    by rewrite getTime_zero.
Qed.

Lemma StronglySorted_fmap {X Y : Type} (f : X -> Y) (R : Y -> Y -> Prop) (l : list X) :
  StronglySorted (fun a b => R (f a) (f b)) l -> StronglySorted R (map f l).
Proof.
  induction 1 as [|x l Hs IH Hall]; [constructor|]. cbn [map].
  constructor; [done|]. apply Forall_forall. intros y (z & -> & Hz)%list_elem_of_fmap.
  rewrite Forall_forall in Hall. by apply Hall.
Qed.

(** X16. The client's sort agrees with the server's order on every ledger
    whose dates are missing or parseable: applied to the ledger that
    [loadPartnerData] returns, it gives the same list back.  With an
    unparseable date in the ledger it still returns the visits in
    descending order, the unparseable dates read as epoch 0. *)
Theorem client_sort_keeps_server_order (kv : KV) (id : JsVal) :
  let ledger := submissions (loadPartnerData kv id) in
  ((forall s, s ∈ ledger -> createdTime s <> NaN) ->
   sortPartnerSubmissions (asEntries ledger) = map JObj ledger)
  /\ sortPartnerSubmissions (asEntries ledger) ≡ₚ map JObj ledger
  /\ StronglySorted (fun a b => timestampMillis b <= timestampMillis a)
       (sortPartnerSubmissions (asEntries ledger)).
Proof.
  intros ledger.
  assert (Forall (fun v => is_undefined v = false) (map JObj ledger)) as Hdef.
  { apply Forall_forall. by intros v (s & -> & _)%list_elem_of_fmap. }
  destruct (sortPartnerSubmissions_sorted (map JObj ledger) Hdef)
    as (Hperm & Hsorted & Hsame & _).
  split; [|by split].
  intros Hvalid. apply Hsame. apply StronglySorted_fmap.
  assert (StronglySorted (fun a b => createdMillis b <= createdMillis a) ledger) as Hs.
  { subst ledger.
    destruct (loadPartnerData_cases kv id) as [E|(pushed & E & _)];
      rewrite E in Hvalid |- *; [constructor|].
    cbn [submissions summarize] in Hvalid |- *.
    apply (Array_sort_sorted byCreatedAtDesc createdMillis (fun s => createdTime s <> NaN)).
    - intros x y. apply byCreatedAtDesc_key.
    - apply Forall_forall. intros s Hs. apply Hvalid. by rewrite Array_sort_perm. }
  clear -Hs. induction Hs as [|x l Hs IH Hall]; [constructor|].
  constructor; [done|]. rewrite Forall_forall in Hall. apply Forall_forall.
  intros y Hy. rewrite !timestampMillis_createdMillis. by apply Hall.
Qed.

Lemma foldl_dashboard (subs : list obj) (u v : Z) (rev pts : number) :
  foldl dashboardStep (u, v, rev, pts) subs
  = (foldl (fun a s => if truthy (get s "used") then a + 1 else a) u subs,
     foldl (fun a s => if truthy (get s "visited") then a + 1 else a) v subs,
     foldl (fun a s => num_add a (ToNumber (get s "totalPrice" <||> JNum zero))) rev subs,
     foldl (fun a s => num_add a (ToNumber (get s "estimatedPoints" <||> JNum zero)))
       pts subs).
Proof.
  revert u v rev pts. induction subs as [|s subs IH]; intros u v rev pts; [done|].
  cbn [foldl]. unfold dashboardStep at 2. by rewrite IH.
Qed.

Lemma foldl_tally (subs : list obj) (t : Totals) :
  t_used (foldl tally t subs)
  = foldl (fun a s => if truthy (get s "used") then a + 1 else a) (t_used t) subs
  /\ t_visitedCount (foldl tally t subs)
     = foldl (fun a s => if truthy (get s "visited") then a + 1 else a)
         (t_visitedCount t) subs.
Proof.
  revert t. induction subs as [|s subs IH]; intros t; [done|].
  cbn [foldl]. by destruct (IH (tally t s)) as [-> ->].
Qed.

Lemma emitted_dashboard_points (id : JsVal) (s : obj) :
  emitted id s ->
  ToNumber (get s "estimatedPoints" <||> JNum zero) = submissionPoints s.
Proof.
  intros He.
  destruct (emitted_points id s He) as (pa & est & Hpa & Hep & Hpa' & Hest & _).
  destruct (emitted_submissionPoints id s He) as (pa2 & ep2 & Hpa2 & Hep2 & ->).
  rewrite Hpa in Hpa2. rewrite Hep in Hep2. injection Hpa2 as <-. injection Hep2 as <-.
  rewrite Hep. unfold js_or, num_or. cbn [truthy ToNumber].
  destruct (num_truthy pa) eqn:Ea; [by rewrite Ea|].
  destruct Hest as [Ht| ->]; [by rewrite Ht|done].
Qed.

(** X17. The totals that the dashboard recomputes from a ledger returned by
    [loadPartnerData] are the server's: the same count, used, unused,
    visited, notVisited, revenue and points -- the dashboard adds up
    [estimatedPoints], which carries the awarded points -- and the server's
    averages are the dashboard's averages rounded by [Math.round]. *)
Theorem dashboard_totals_match_server (kv : KV) (id : JsVal) :
  let m := metrics (loadPartnerData kv id) in
  let d := dashboardMetrics (submissions (loadPartnerData kv id)) in
  d_count d = count m
  /\ d_used d = used m /\ d_unused d = unused m
  /\ d_visited d = visited m /\ d_notVisited d = notVisited m
  /\ d_revenue d = revenue m /\ d_points d = points m
  /\ averageRevenue m = Math_round (d_averageRevenue d)
  /\ averagePoints m = Math_round (d_averagePoints d).
Proof.
  intros m d. subst m d.
  destruct (loadPartnerData_cases kv id) as [->|(pushed & -> & Hall)]; [by vm_compute|].
  cbn [submissions summarize metrics].
  set (subs := Array_sort byCreatedAtDesc pushed).
  assert (Forall (emitted id) subs) as Hsubs.
  { apply Forall_forall. intros s Hs. subst subs. rewrite Array_sort_perm in Hs.
    rewrite Forall_forall in Hall. by apply Hall. }
  unfold dashboardMetrics. rewrite foldl_dashboard.
  cbn [d_count d_used d_unused d_visited d_notVisited d_revenue d_points
       d_averageRevenue d_averagePoints metricsOf count used unused visited notVisited
       revenue points averageRevenue averagePoints].
  destruct (foldl_tally subs noTotals) as [-> ->].
  rewrite tally_revenue, tally_points.
  cbn [noTotals t_used t_visitedCount t_revenue t_points].
  assert (forall z,
            foldl (fun a s => num_add a (ToNumber (get s "estimatedPoints" <||> JNum zero)))
              z subs
            = foldl (fun acc s => num_add acc (submissionPoints s)) z subs) as ->.
  { clear -Hsubs. induction Hsubs as [|s l Hs Hl IH]; intros z; [done|].
    cbn [foldl]. by rewrite (emitted_dashboard_points id s Hs), IH. }
  repeat split; by destruct (Z.of_nat (List.length subs) =? 0).
Qed.
End ClientSort.

Lemma sortPartnerSubmissions_sorted_witness :
  @sortPartnerSubmissions node
    (JArr [JObj {[ "createdAt" := JStr "2024-01-01" ]};
           JObj {[ "createdAt" := JStr "garbage" ]};
           JObj {[ "createdAt" := JStr "2025-01-01" ]}])
  ≡ₚ [JObj {[ "createdAt" := JStr "2024-01-01" ]};
      JObj {[ "createdAt" := JStr "garbage" ]};
      JObj {[ "createdAt" := JStr "2025-01-01" ]}]
  /\ StronglySorted (fun a b => @timestampMillis node b <= @timestampMillis node a)
       (@sortPartnerSubmissions node
          (JArr [JObj {[ "createdAt" := JStr "2024-01-01" ]};
                 JObj {[ "createdAt" := JStr "garbage" ]};
                 JObj {[ "createdAt" := JStr "2025-01-01" ]}])).
Proof.
  destruct (@sortPartnerSubmissions_sorted node
              [JObj {[ "createdAt" := JStr "2024-01-01" ]};
               JObj {[ "createdAt" := JStr "garbage" ]};
               JObj {[ "createdAt" := JStr "2025-01-01" ]}]) as (H1 & H2 & _).
  - by repeat constructor.
  - by split.
Defined.

Lemma client_sort_keeps_server_order_witness :
  map (fun s => get s "createdAt")
    (submissions (@loadPartnerData node datedStore (JStr "p1")))
  = [JStr "2025-01-01"; JStr "2024-01-01"; JNull]
  /\ @sortPartnerSubmissions node
       (asEntries (submissions (@loadPartnerData node datedStore (JStr "p1"))))
     = map JObj (submissions (@loadPartnerData node datedStore (JStr "p1"))).
Proof.
  split; [by vm_compute|].
  apply (@client_sort_keeps_server_order node datedStore (JStr "p1")).
  intros s Hs.
  assert (map (@createdTime node)
            (submissions (@loadPartnerData node datedStore (JStr "p1")))
          = [num_of_Z 1735689600000; num_of_Z 1704067200000; zero]) as E
    by (by vm_compute).
  assert (@createdTime node s
          ∈ [num_of_Z 1735689600000; num_of_Z 1704067200000; zero]) as Hin.
  { rewrite <- E. apply list_elem_of_fmap. exists s. split; [reflexivity|exact Hs]. }
  clear E Hs. rewrite !elem_of_cons in Hin.
  destruct Hin as [H|[H|[H|H]]]; [by rewrite H..|by apply elem_of_nil in H].
Defined.

(** ** Who a visit belongs to *)

Section Identity.
Context {rt : JsRuntime}.

Lemma visitSubmission_partnerId (id : JsVal) (visitKey : string) (record : obj) :
  normalizePartnerId id <> "" ->
  exists p, get (visitSubmission id visitKey record) "partnerId" = JStr p
            /\ p <> "" /\ trim p = p /\ toLowerCase p = p.
Proof.
  intros Hn. unfold visitSubmission. cbv zeta. rewrite get_objAssign.
  cbn [assigned String.eqb Ascii.eqb Bool.eqb].
  set (n1 := normalizePartnerId (get record "partnerId")).
  set (n2 := normalizePartnerId (JStr (visitPartnerFromKey visitKey))).
  set (n3 := normalizePartnerId id).
  destruct (normalizePartnerId_normal (get record "partnerId")) as [T1 L1].
  destruct (normalizePartnerId_normal (JStr (visitPartnerFromKey visitKey))) as [T2 L2].
  destruct (normalizePartnerId_normal id) as [T3 L3].
  fold n1 in T1, L1. fold n2 in T2, L2. fold n3 in T3, L3, Hn.
  clearbody n1 n2 n3. unfold js_or. cbn [truthy].
  destruct (String.eqb n1 "") eqn:E1; cbn [negb truthy]; rewrite ?E1; cbn [negb truthy].
  - destruct (String.eqb n2 "") eqn:E2; cbn [negb truthy]; rewrite ?E2; cbn [negb truthy].
    + destruct (String.eqb_spec n3 "") as [E3|H3]; [by destruct Hn|].
      cbn [negb truthy].
      destruct (String.eqb_spec n3 "") as [E3|_]; [by destruct Hn|]. cbn [negb].
      by exists n3.
    + rewrite ?E2. cbn [negb truthy]. rewrite ?E2. cbn [negb].
      exists n2. repeat split; try done. intros ->. discriminate E2.
  - rewrite ?E1. cbn [negb truthy]. rewrite ?E1. cbn [negb truthy]. rewrite ?E1. cbn [negb].
    exists n1. repeat split; try done. intros ->. discriminate E1.
Qed.

Lemma emailSubmission_partnerId (id : JsVal) (record : obj) :
  get (emailSubmission id record) "partnerId" = JStr (normalizePartnerId id).
Proof.
  unfold emailSubmission. cbv zeta. rewrite get_objAssign.
  cbn [assigned String.eqb Ascii.eqb Bool.eqb]. unfold js_or at 1. cbn [truthy].
  destruct (String.eqb_spec (normalizePartnerId id) "") as [E|]; [|done]. cbn [negb].
  rewrite E. f_equal. apply toLowerCase_empty in E. exact E.
Qed.

Lemma visitRecordKeysOf_blank (kv : KV) (id : JsVal) :
  normalizePartnerId id = "" -> visitSubmissions kv id = [].
Proof.
  intros E. unfold visitSubmissions, visitRecordKeysOf.
  by rewrite (visitSetKeysOf_blank id E).
Qed.

(** X18. The result carries the identifier as it was given, while every
    visit of the ledger carries a [partnerId] string in normalized form
    (trimmed, lower case).  On a visit built from the visit sets it is not
    empty, and on a visit built from the email sets it is the normalized
    identifier. *)
Theorem visit_partnerId_normalized (kv : KV) (id : JsVal) (s : obj) :
  s ∈ submissions (loadPartnerData kv id) ->
  partnerId (loadPartnerData kv id) = id
  /\ exists p, get s "partnerId" = JStr p
               /\ trim p = p /\ toLowerCase p = p
               /\ (visitSubmissions kv id <> [] -> p <> "")
               /\ (visitSubmissions kv id = [] -> p = normalizePartnerId id).
Proof.
  intros Hs. split.
  { by destruct (loadPartnerData_cases kv id) as [->|(pushed & -> & _)]. }
  unfold loadPartnerData in Hs.
  destruct (negb (str_nonempty (normalizePartnerId id)) && negb (truthy id));
    [by apply elem_of_nil in Hs|].
  destruct (visitSubmissions kv id) as [|s0 rest] eqn:Ev.
  - destruct (memberEmails kv (emailSetKeys id)) as [|e es]; [by apply elem_of_nil in Hs|].
    cbn [submissions summarize] in Hs. rewrite Array_sort_perm in Hs.
    apply list_elem_of_omap in Hs as (email & _ & Hs). unfold emailVisit in Hs.
    destruct (hgetall kv _) as [[record|]|]; [|done..].
    destruct (truthy (get record "email")); [|done]. injection Hs as <-.
    exists (normalizePartnerId id). rewrite emailSubmission_partnerId.
    destruct (normalizePartnerId_normal id) as [-> ->]. by repeat split.
  - cbn [submissions summarize] in Hs. rewrite Array_sort_perm, <- Ev in Hs.
    assert (normalizePartnerId id <> "") as Hn.
    { intros E. rewrite (visitRecordKeysOf_blank kv id E) in Ev. discriminate Ev. }
    apply list_elem_of_omap in Hs as (key & _ & Hs). unfold visitFromKey in Hs.
    destruct (recordForKey kv key (visitEmailFromKey key)) as [record|]; [|done].
    destruct (obj_is_empty record); [done|]. injection Hs as <-.
    destruct (visitSubmission_partnerId id key record Hn) as (p & Hp & Hne & Ht & Hl).
    exists p. by repeat split.
Qed.

Lemma omap_length_le {X Y : Type} (f : X -> option Y) (l : list X) :
  (List.length (omap f l) <= List.length l)%nat.
Proof.
  induction l as [|x l IH]; [done|].
  cbn [omap list_omap]. destruct (f x); cbn [List.length]; lia.
Qed.

Lemma foldl_emails_NoDup (values : list JsVal) (acc : list string) :
  NoDup acc ->
  NoDup (foldl (fun acc value =>
                  match value with
                  | JStr e => if str_nonempty e then set_add e acc else acc
                  | _ => acc
                  end) acc values).
Proof.
  revert acc. induction values as [|v values IH]; intros acc Hacc; [done|].
  cbn [foldl]. apply IH. destruct v; try done.
  destruct (str_nonempty _); [by apply set_add_NoDup|done].
Qed.

Lemma foldl_emails_elem (values : list JsVal) (acc : list string) (e : string) :
  e ∈ foldl (fun acc value =>
               match value with
               | JStr e => if str_nonempty e then set_add e acc else acc
               | _ => acc
               end) acc values
  <-> e ∈ acc \/ (JStr e ∈ values /\ e <> "").
Proof.
  revert acc. induction values as [|v values IH]; intros acc.
  - cbn [foldl]. split; [by left|]. intros [H|[H _]]; [done|by apply elem_of_nil in H].
  - cbn [foldl]. rewrite IH, elem_of_cons. destruct v as [| | | |m| |];
      try (split; [intros [?|[? ?]]; auto|intros [?|[[?|?] ?]]; auto; done]).
    destruct (str_nonempty m) eqn:Em.
    + rewrite set_add_elem_iff. split.
      * intros [[->|?]|[? ?]]; auto. right. split; [by left|].
        intros ->. by vm_compute in Em.
      * intros [?|[[[= ->]|?] ?]]; auto.
    + apply str_nonempty_false in Em as ->. split.
      * intros [?|[? ?]]; auto.
      * intros [?|[[[= ->]|?] ?]]; auto. done.
Qed.

(** X19. When the visit sets give no submission, the ledger is built from
    the email sets: the member emails are read without repeats, each is a
    non-empty string member of one of the partner's email sets, every visit
    comes from the record [qr:email:<email>] of one of them and carries
    the truthy [email] of that record, and there are at most as many
    visits as distinct emails. *)
Theorem email_visits_one_per_member (kv : KV) (id : JsVal) :
  visitSubmissions kv id = [] ->
  let emails := memberEmails kv (emailSetKeys id) in
  let r := loadPartnerData kv id in
  NoDup emails
  /\ (forall e, e ∈ emails <->
        e <> "" /\ exists key members,
          key ∈ emailSetKeys id /\ smembers kv key = Some members /\ JStr e ∈ members)
  /\ (forall s, s ∈ submissions r ->
        exists e record, e ∈ emails
          /\ hgetall kv ("qr:email:" +:+ e) = Some (Some record)
          /\ s = emailSubmission id record
          /\ get s "email" = get record "email" /\ truthy (get s "email") = true)
  /\ count (metrics r) <= Z.of_nat (List.length emails).
Proof.
  intros Ev emails r. split; [|split; [|split]].
  - subst emails. unfold memberEmails. cbv zeta. apply foldl_emails_NoDup, NoDup_nil_2.
  - intros e. subst emails. unfold memberEmails. cbv zeta. rewrite foldl_emails_elem.
    split.
    + intros [H|[H Hne]]; [by apply elem_of_nil in H|]. split; [done|].
      apply list_elem_of_In, in_concat in H as (set & Hset & He).
      apply in_map_iff in Hset as (key & <- & Hkey).
      exists key. destruct (smembers kv key) as [members|] eqn:Em.
      * exists members. cbn [default] in He.
        split; [by apply list_elem_of_In|]. split; [done|]. by apply list_elem_of_In.
      * cbn [default] in He. by destruct He.
    + intros (Hne & key & members & Hkey & Em & He). right. split; [|done].
      apply list_elem_of_In, in_concat. exists members. split; [|by apply list_elem_of_In].
      apply in_map_iff. exists key. rewrite Em. split; [done|]. by apply list_elem_of_In.
  - intros s Hs. subst r. unfold loadPartnerData in Hs. rewrite Ev in Hs.
    destruct (negb (str_nonempty (normalizePartnerId id)) && negb (truthy id));
      [by apply elem_of_nil in Hs|].
    fold emails in Hs. destruct emails as [|e0 es] eqn:Ee; [by apply elem_of_nil in Hs|].
    cbn [submissions summarize] in Hs. rewrite Array_sort_perm in Hs.
    apply list_elem_of_omap in Hs as (e & He & Hs). unfold emailVisit in Hs.
    destruct (hgetall kv ("qr:email:" +:+ e)) as [[record|]|] eqn:Eh; [|done..].
    destruct (truthy (get record "email")) eqn:Et; [|done]. injection Hs as <-.
    exists e, record. split; [done|]. split; [done|]. split; [done|].
    assert (get (emailSubmission id record) "email" = get record "email") as ->; [|done].
    unfold emailSubmission. cbv zeta. by rewrite get_objAssign.
  - subst r. unfold loadPartnerData. rewrite Ev.
    destruct (negb (str_nonempty (normalizePartnerId id)) && negb (truthy id));
      [cbn; lia|].
    fold emails. destruct emails as [|e0 es] eqn:Ee; [cbn; lia|].
    cbn [metrics summarize metricsOf count]. rewrite Array_sort_length.
    pose proof (omap_length_le (emailVisit kv id) (e0 :: es)). lia.
Qed.
End Identity.

Lemma visit_partnerId_normalized_witness :
  partnerId (@loadPartnerData node mergeStore (JStr "P1")) = JStr "P1"
  /\ exists p, get mergedVisit "partnerId" = JStr p
               /\ trim p = p /\ toLowerCase p = p
               /\ (@visitSubmissions node mergeStore (JStr "P1") <> [] -> p <> "")
               /\ (@visitSubmissions node mergeStore (JStr "P1") = [] ->
                   p = @normalizePartnerId node (JStr "P1")).
Proof.
  apply (@visit_partnerId_normalized node mergeStore (JStr "P1") mergedVisit).
  apply mergedVisit_in_ledger.
Defined.

Lemma email_visits_one_per_member_witness :
  NoDup (memberEmails emailStore (@emailSetKeys node (JStr "p1")))
  /\ count (metrics (@loadPartnerData node emailStore (JStr "p1")))
     <= Z.of_nat (List.length (memberEmails emailStore (@emailSetKeys node (JStr "p1")))).
Proof.
  split.
  - apply (@email_visits_one_per_member node emailStore (JStr "p1")). reflexivity.
  - apply (@email_visits_one_per_member node emailStore (JStr "p1")). reflexivity.
Defined.
